(** * Paste image rename: name generation, duplicate numbering, format
      selection and the rename and conversion pathways of [src/main.ts]
      and the batch modal.

    The development is a shallow embedding.  JavaScript strings are lists
    of characters, regular expressions are parsed from the pattern text
    by the grammar of the language and run by its backtracking matcher,
    numbers are the integer-valued doubles the plugin can produce, and the
    vault is a finite map from paths to contents threaded through a small
    state-and-exception monad. *)

From Stdlib Require Import List Ascii String NArith ZArith QArith Lia Bool.
From Stdlib Require Import DecimalString DecimalN.
From Stdlib Require Import Qround Qpower Lqa.
From stdpp Require Import gmap strings list.
Import ListNotations.

Set Default Goal Selector "!".

(* ================================================================== *)
(** * Part I. Definitions                                              *)
(* ================================================================== *)

(** ** Strings *)

(** A JavaScript string, as the sequence of its code units.  The alphabet
    of the model is [ascii] (code units 0 to 255). *)
Abbreviation str := (list ascii).

(** String literals of the source, written [lit "..."]. *)
Definition lit (s : string) : str := list_ascii_of_string s.

Module Str.

Fixpoint eqb (a b : str) : bool :=
  match a, b with
  | [], [] => true
  | x :: a', y :: b' => Ascii.eqb x y && eqb a' b'
  | _, _ => false
  end.

(** [s.startsWith(p)] *)
Fixpoint startsWith (p s : str) : bool :=
  match p, s with
  | [], _ => true
  | a :: p', b :: s' => Ascii.eqb a b && startsWith p' s'
  | _ :: _, [] => false
  end.

(** Remove the literal prefix [p] from [s], when [s] starts with it. *)
Fixpoint strip_prefix (p s : str) : option str :=
  match p, s with
  | [], _ => Some s
  | a :: p', b :: s' => if Ascii.eqb a b then strip_prefix p' s' else None
  | _ :: _, [] => None
  end.

Definition is_digit (c : ascii) : bool :=
  (48 <=? nat_of_ascii c) && (nat_of_ascii c <=? 57).

Definition is_alpha (c : ascii) : bool :=
  let n := nat_of_ascii c in
  ((65 <=? n) && (n <=? 90)) || ((97 <=? n) && (n <=? 122)).

(** WhiteSpace and LineTerminator code units below 256: TAB, LF, VT,
    FF, CR, SP and NBSP.  This is the class [\s]. *)
Definition is_space (c : ascii) : bool :=
  let n := nat_of_ascii c in
  ((9 <=? n) && (n <=? 13)) || (n =? 32) || (n =? 160).

(** LineTerminator code units below 256: LF and CR. *)
Definition is_line_terminator (c : ascii) : bool :=
  let n := nat_of_ascii c in (n =? 10) || (n =? 13).

(** Index of the last occurrence of [x] in [s], if any. *)
Fixpoint last_index (x : ascii) (s : str) : option nat :=
  match s with
  | [] => None
  | c :: s' =>
      match last_index x s' with
      | Some i => Some (S i)
      | None => if Ascii.eqb c x then Some 0 else None
      end
  end.

Definition last_dot (s : str) : option nat := last_index "." s.

Definition has_dot (s : str) : bool := existsb (Ascii.eqb ".") s.

Definition to_lower (c : ascii) : ascii :=
  let n := nat_of_ascii c in
  if (65 <=? n) && (n <=? 90) then ascii_of_nat (n + 32) else c.

(** [s] contains [w], letters compared without case. *)
Fixpoint contains_ci (w s : str) : bool :=
  startsWith (map to_lower w) (map to_lower s)
  || match s with
     | [] => false
     | _ :: s' => contains_ci w s'
     end.

End Str.

(** ** Regular expressions

    The patterns of ECMAScript 2025 as [new RegExp(text)] and
    [new RegExp(text, 'g')] or ['gm'] read them: without the flags [u]
    and [v], in the grammar of Annex B.1.2 that browsers and Electron
    implement.  [Regex.RegExp] parses a pattern text: disjunctions,
    groups (capturing, named, non-capturing, with modifiers), look-ahead
    and look-behind, the quantifiers [*], [+], [?] and [{n,m}], greedy
    and lazy, character classes, back-references by number and by name,
    and every escape.  It has no parse exactly for the texts that are
    rejected with a SyntaxError.  Two things are of the 2025 edition and
    rejected by an engine of an earlier one: the groups with modifiers,
    and the same name for groups of different alternatives.
    [Regex.matcher] is the backtracking matcher of the language
    definition (22.2.2), written in continuation-passing style.

    The alphabet of the model is the code units 0 to 255.  A [\uXXXX]
    escape may denote a code unit beyond it, which no character of an
    input equals; it is kept by its number, since with the modifier [i]
    it may still match a character of the alphabet.  One thing is left
    out: a group name written with an escape that denotes a character
    beyond the alphabet has no parse. *)

Module Regex.

(** The flags that bear on a match.  A group [(?ims-ims: )] carries
    the flags it sets and the flags it clears. *)
Record flags := { ignoreCase : bool; multiline : bool; dotAll : bool }.

Inductive class_item :=
| CChar (c : ascii)
| CRange (lo hi : N)
| CDigit
| CNotDigit
| CSpace
| CNotSpace
| CWord
| CNotWord.

Inductive regex :=
| Eps
| Chr (c : ascii)
| Any
| Class (neg : bool) (items : list class_item)
| Bol
| Eol
| WordBoundary (neg : bool)
| Seq (a b : regex)
| Alt (a b : regex)
| Group (index : nat) (name : option str) (body : regex)
| Repeat (min : N) (max : option N) (greedy : bool) (a : regex)
| Look (ahead neg : bool) (body : regex)
| Backref (indices : list nat)
| Modified (add remove : flags) (body : regex).

Definition seq_of (l : list regex) : regex := fold_right Seq Eps l.

(** The disjunction of the alternatives [alts] (given last first) and
    of the sequence [cur] (given last first) that follows them. *)
Definition alt_of (alts cur : list regex) : regex :=
  fold_left (fun acc a => Alt a acc) alts (seq_of (rev cur)).

(** *** Characters and classes *)

Definition is_digit_code (n : N) : bool := ((48 <=? n) && (n <=? 57))%N.

Definition is_word_code (n : N) : bool :=
  (is_digit_code n || ((65 <=? n) && (n <=? 90)) || ((97 <=? n) && (n <=? 122)) || (n =? 95))%N.

(** WhiteSpace and LineTerminator *)
Definition is_space_code (n : N) : bool :=
  (((9 <=? n) && (n <=? 13)) || (n =? 32) || (n =? 160) || (n =? 5760)
   || ((8192 <=? n) && (n <=? 8202)) || (n =? 8232) || (n =? 8233) || (n =? 8239)
   || (n =? 8287) || (n =? 12288) || (n =? 65279))%N.

Definition is_word (c : ascii) : bool := Str.is_alpha c || Str.is_digit c || Ascii.eqb c "_".

Definition in_item_code (it : class_item) (n : N) : bool :=
  match it with
  | CChar c => (n =? N_of_ascii c)%N
  | CRange lo hi => ((lo <=? n) && (n <=? hi))%N
  | CDigit => is_digit_code n
  | CNotDigit => negb (is_digit_code n)
  | CSpace => is_space_code n
  | CNotSpace => negb (is_space_code n)
  | CWord => is_word_code n
  | CNotWord => negb (is_word_code n)
  end.

Definition in_item (x : ascii) (it : class_item) : bool :=
  match it with
  | CChar c => Ascii.eqb x c
  | CRange lo hi => ((lo <=? N_of_ascii x) && (N_of_ascii x <=? hi))%N
  | CDigit => Str.is_digit x
  | CNotDigit => negb (Str.is_digit x)
  | CSpace => Str.is_space x
  | CNotSpace => negb (Str.is_space x)
  | CWord => is_word x
  | CNotWord => negb (is_word x)
  end.

Definition in_class (neg : bool) (items : list class_item) (x : ascii) : bool :=
  xorb neg (existsb (in_item x) items).

(** The code units with the canonical form of [x] (Canonicalize
    without [u]: the upper case, when that is one code unit and not an
    ASCII one for a character that is not).  Beyond the alphabet these
    are the capital and the small mu for the micro sign, and the
    capital y with diaeresis. *)
Definition variants (x : ascii) : list N :=
  let n := N_of_ascii x in
  if ((97 <=? n) && (n <=? 122))%N then [n; (n - 32)%N]
  else if ((65 <=? n) && (n <=? 90))%N then [n; (n + 32)%N]
  else if ((224 <=? n) && (n <=? 254) && negb (n =? 247))%N then [n; (n - 32)%N]
  else if ((192 <=? n) && (n <=? 222) && negb (n =? 215))%N then [n; (n + 32)%N]
  else if (n =? 181)%N then [n; 924%N; 956%N]
  else if (n =? 255)%N then [n; 376%N]
  else [n].

(** The class contains a character with the canonical form of [x]. *)
Definition in_class_ci (neg : bool) (items : list class_item) (x : ascii) : bool :=
  xorb neg (existsb (fun it => existsb (in_item_code it) (variants x)) items).

(** [x] of the input is the character [a] of the pattern. *)
Definition char_eq (fl : flags) (x a : ascii) : bool :=
  if ignoreCase fl then existsb (N.eqb (N_of_ascii a)) (variants x) else Ascii.eqb x a.

Definition char_in (fl : flags) (neg : bool) (items : list class_item) (x : ascii) : bool :=
  if ignoreCase fl then in_class_ci neg items x else in_class neg items x.

(** *** Reading numbers and escapes *)

(** The characters [escapeRegExp] protects: the syntax characters. *)
Definition syntax_chars : str := lit ".*+?^${}()|[]\".

Definition is_syntax_char (c : ascii) : bool := existsb (Ascii.eqb c) syntax_chars.

Definition is_nil {A} (l : list A) : bool :=
  match l with [] => true | _ :: _ => false end.

Definition is_some {A} (o : option A) : bool :=
  match o with Some _ => true | None => false end.

Definition digit_value (c : ascii) : option N :=
  if Str.is_digit c then Some (N_of_ascii c - 48)%N else None.

Definition octal_value (c : ascii) : option N :=
  let n := N_of_ascii c in
  if ((48 <=? n) && (n <=? 55))%N then Some (n - 48)%N else None.

Definition hex_value (c : ascii) : option N :=
  let n := N_of_ascii c in
  if ((48 <=? n) && (n <=? 57))%N then Some (n - 48)%N
  else if ((97 <=? n) && (n <=? 102))%N then Some (n - 87)%N
  else if ((65 <=? n) && (n <=? 70))%N then Some (n - 55)%N
  else None.

(** The value and the length of the run of decimal digits [p] starts
    with. *)
Fixpoint decimal_run (acc : N) (len : nat) (p : str) : N * nat :=
  match p with
  | c :: p' =>
      match digit_value c with
      | Some d => decimal_run (10 * acc + d)%N (S len) p'
      | None => (acc, len)
      end
  | [] => (acc, len)
  end.

(** The value of exactly [n] hexadecimal digits. *)
Fixpoint hex_run (n : nat) (acc : N) (p : str) : option N :=
  match n with
  | 0 => Some acc
  | S m =>
      match p with
      | c :: p' =>
          match hex_value c with
          | Some d => hex_run m (16 * acc + d)%N p'
          | None => None
          end
      | [] => None
      end
  end.

(** The value and the length of the run of hexadecimal digits [p]
    starts with. *)
Fixpoint hex_digits (acc : N) (len : nat) (p : str) : N * nat :=
  match p with
  | c :: p' =>
      match hex_value c with
      | Some d => hex_digits (16 * acc + d)%N (S len) p'
      | None => (acc, len)
      end
  | [] => (acc, len)
  end.

(** LegacyOctalEscapeSequence: up to three octal digits with a value
    below 256. *)
Definition legacy_octal (p : str) : N * nat :=
  match p with
  | a :: p1 =>
      match octal_value a with
      | Some v1 =>
          match p1 with
          | b :: p2 =>
              match octal_value b with
              | Some v2 =>
                  let v := (8 * v1 + v2)%N in
                  match p2 with
                  | c :: _ =>
                      match octal_value c with
                      | Some v3 => if (v <? 32)%N then ((8 * v + v3)%N, 3) else (v, 2)
                      | None => (v, 2)
                      end
                  | [] => (v, 2)
                  end
              | None => (v1, 1)
              end
          | [] => (v1, 1)
          end
      | None => (0%N, 0)
      end
  | [] => (0%N, 0)
  end.

(** What an escape denotes: a character of the alphabet, a code unit,
    or a class. *)
Inductive escaped :=
| EChar (c : ascii)
| ECode (n : N)
| EClass (it : class_item).

Definition class_escape (e : ascii) : option class_item :=
  if Ascii.eqb e "d" then Some CDigit
  else if Ascii.eqb e "D" then Some CNotDigit
  else if Ascii.eqb e "s" then Some CSpace
  else if Ascii.eqb e "S" then Some CNotSpace
  else if Ascii.eqb e "w" then Some CWord
  else if Ascii.eqb e "W" then Some CNotWord
  else None.

(** CharacterEscape, for the text [p1] after the backslash: what it
    denotes and how many characters of [p1] it takes.  [\c] that no
    control letter follows is the backslash itself, and takes nothing.
    [named]: the pattern has a named group, and [\k] is no identity
    escape. *)
Definition character_escape (named in_class : bool) (p1 : str) : option (escaped * nat) :=
  match p1 with
  | [] => None
  | e :: p2 =>
      if Ascii.eqb e "t" then Some (ECode 9, 1)
      else if Ascii.eqb e "n" then Some (ECode 10, 1)
      else if Ascii.eqb e "v" then Some (ECode 11, 1)
      else if Ascii.eqb e "f" then Some (ECode 12, 1)
      else if Ascii.eqb e "r" then Some (ECode 13, 1)
      else if Ascii.eqb e "c" then
        match p2 with
        | l :: _ =>
            if Str.is_alpha l || (in_class && (Str.is_digit l || Ascii.eqb l "_"))
            then Some (ECode (N_of_ascii l mod 32), 2)
            else Some (EChar "\", 0)
        | [] => Some (EChar "\", 0)
        end
      else if is_some (octal_value e) then
        let '(v, len) := legacy_octal p1 in Some (ECode v, len)
      else if Ascii.eqb e "x" then
        match hex_run 2 0 p2 with
        | Some v => Some (ECode v, 3)
        | None => Some (EChar e, 1)
        end
      else if Ascii.eqb e "u" then
        match hex_run 4 0 p2 with
        | Some v => Some (ECode v, 5)
        | None => Some (EChar e, 1)
        end
      else if Ascii.eqb e "k" then
        if named then None else Some (EChar e, 1)
      else Some (EChar e, 1)
  end.

Definition atom_of (e : escaped) : regex :=
  match e with
  | EChar c => Chr c
  | ECode n => if (n <? 256)%N then Chr (ascii_of_N n) else Class false [CRange n n]
  | EClass it => Class false [it]
  end.

(** *** Group names *)

(** ID_Start and ID_Continue on the alphabet, with [$] and [_]. *)
Definition is_id_start (c : ascii) : bool :=
  let n := N_of_ascii c in
  (Str.is_alpha c || Ascii.eqb c "$" || Ascii.eqb c "_"
   || (n =? 170) || (n =? 181) || (n =? 186)
   || ((192 <=? n) && (n <=? 214)) || ((216 <=? n) && (n <=? 246)) || (248 <=? n))%N.

Definition is_id_part (c : ascii) : bool :=
  is_id_start c || Str.is_digit c || (N_of_ascii c =? 183)%N.

(** [\uXXXX] and [\u{X}] in a group name, for the text after the
    backslash: the character and the length. *)
Definition name_escape (q1 : str) : option (ascii * nat) :=
  match q1 with
  | u :: q2 =>
      if Ascii.eqb u "u" then
        match hex_run 4 0 q2 with
        | Some v => if (v <? 256)%N then Some (ascii_of_N v, 5) else None
        | None =>
            match q2 with
            | o :: q3 =>
                if Ascii.eqb o "{" then
                  let '(v, len) := hex_digits 0 0 q3 in
                  match len, skipn len q3 with
                  | S _, c :: _ =>
                      if Ascii.eqb c "}" && (v <? 256)%N
                      then Some (ascii_of_N v, 3 + len) else None
                  | _, _ => None
                  end
                else None
            | [] => None
            end
        end
      else None
  | [] => None
  end.

(** The name that ends at the first [>] of [q], and the number of
    characters up to and with that [>]. *)
Fixpoint read_name_go (skip : nat) (acc : str) (len : nat) (q : str) : option (str * nat) :=
  match q with
  | [] => None
  | c :: q1 =>
      match skip with
      | S n => read_name_go n acc (S len) q1
      | 0 =>
          if Ascii.eqb c ">" then
            if is_nil acc then None else Some (rev acc, S len)
          else if Ascii.eqb c "\" then
            match name_escape q1 with
            | Some (x, n) =>
                if (if is_nil acc then is_id_start x else is_id_part x)
                then read_name_go n (x :: acc) (S len) q1
                else None
            | None => None
            end
          else if (if is_nil acc then is_id_start c else is_id_part c)
          then read_name_go 0 (c :: acc) (S len) q1
          else None
      end
  end.

Definition read_name (q : str) : option (str * nat) := read_name_go 0 [] 0 q.

(** The capturing groups of a pattern text, in the order of their left
    parentheses, each with its name: a scan that passes over escapes and
    classes. *)
Fixpoint prescan (skip : nat) (in_class : bool) (p : str) : list (option str) :=
  match p with
  | [] => []
  | c :: p1 =>
      match skip with
      | S n => prescan n in_class p1
      | 0 =>
          if Ascii.eqb c "\" then prescan 1 in_class p1
          else if in_class then prescan 0 (negb (Ascii.eqb c "]")) p1
          else if Ascii.eqb c "[" then prescan 0 true p1
          else if Ascii.eqb c "(" then
            match p1 with
            | q :: p2 =>
                if Ascii.eqb q "?" then
                  match p2 with
                  | lt :: p3 =>
                      if Ascii.eqb lt "<" then
                        match p3 with
                        | x :: _ =>
                            if Ascii.eqb x "=" || Ascii.eqb x "!" then prescan 0 false p1
                            else
                              Some (match read_name p3 with
                                    | Some (name, _) => name
                                    | None => []
                                    end) :: prescan 0 false p1
                        | [] => Some [] :: prescan 0 false p1
                        end
                      else prescan 0 false p1
                  | [] => prescan 0 false p1
                  end
                else None :: prescan 0 false p1
            | [] => [None]
            end
          else prescan 0 false p1
      end
  end.

(** The numbers of the groups named [name]. *)
Fixpoint indices_of (name : str) (i : nat) (gnames : list (option str)) : list nat :=
  match gnames with
  | [] => []
  | g :: rest =>
      match g with
      | Some n => if Str.eqb n name then i :: indices_of name (S i) rest
                  else indices_of name (S i) rest
      | None => indices_of name (S i) rest
      end
  end.

(** *** Atoms that start with a backslash *)

(** What a term is for the quantifier that may follow it: nothing that
    can be repeated, an atom, or a quantified atom that a [?] makes
    lazy. *)
Inductive last :=
| LNone
| LAtom
| LQuant.

(** AtomEscape and the assertions [\b] and [\B], for the text [p1]
    after the backslash. *)
Definition atom_escape (gnames : list (option str)) (p1 : str) : option (regex * last * nat) :=
  match p1 with
  | [] => None
  | e :: p2 =>
      if Ascii.eqb e "b" then Some (WordBoundary false, LNone, 1)
      else if Ascii.eqb e "B" then Some (WordBoundary true, LNone, 1)
      else
        match class_escape e with
        | Some it => Some (Class false [it], LAtom, 1)
        | None =>
            if Str.is_digit e && negb (Ascii.eqb e "0") then
              let '(v, len) := decimal_run 0 0 p1 in
              if (v <=? N.of_nat (length gnames))%N then Some (Backref [N.to_nat v], LAtom, len)
              else if is_some (octal_value e) then
                let '(o, olen) := legacy_octal p1 in Some (atom_of (ECode o), LAtom, olen)
              else Some (Chr e, LAtom, 1)
            else if Ascii.eqb e "k" && existsb is_some gnames then
              match p2 with
              | lt :: p3 =>
                  if Ascii.eqb lt "<" then
                    match read_name p3 with
                    | Some (name, n) =>
                        match indices_of name 1 gnames with
                        | [] => None
                        | i :: more => Some (Backref (i :: more), LAtom, 2 + n)
                        end
                    | None => None
                    end
                  else None
              | [] => None
              end
            else
              match character_escape (existsb is_some gnames) false p1 with
              | Some (x, n) => Some (atom_of x, LAtom, n)
              | None => None
              end
        end
  end.

(** *** Character classes *)

Inductive class_atom :=
| AChar (c : ascii)
| ACode (n : N)
| AEsc (it : class_item).

Definition atom_code (a : class_atom) : option N :=
  match a with
  | AChar c => Some (N_of_ascii c)
  | ACode n => Some n
  | AEsc _ => None
  end.

Definition item_of (a : class_atom) : class_item :=
  match a with
  | AChar c => CChar c
  | ACode n => if (n <? 256)%N then CChar (ascii_of_N n) else CRange n n
  | AEsc it => it
  end.

(** ClassAtom at the head of [p], and the number of characters it
    takes after the first. *)
Definition class_atom_at (named : bool) (p : str) : option (class_atom * nat) :=
  match p with
  | [] => None
  | c :: p1 =>
      if Ascii.eqb c "\" then
        match p1 with
        | [] => None
        | e :: _ =>
            if Ascii.eqb e "b" then Some (ACode 8, 1)
            else
              match class_escape e with
              | Some it => Some (AEsc it, 1)
              | None =>
                  match character_escape named true p1 with
                  | Some (EChar x, n) => Some (AChar x, n)
                  | Some (ECode v, n) => Some (ACode v, n)
                  | Some (EClass it, n) => Some (AEsc it, n)
                  | None => None
                  end
              end
        end
      else Some (AChar c, 0)
  end.

(** Where the reading of ClassRanges stands: between members, after an
    atom, or after an atom and a dash. *)
Inductive range_state :=
| R0
| R1 (a : class_atom)
| R2 (a : class_atom).

Definition flush (st : range_state) (items : list class_item) : list class_item :=
  match st with
  | R0 => items
  | R1 a => item_of a :: items
  | R2 a => CChar "-" :: item_of a :: items
  end.

(** The members of the class whose text [p] starts with, up to its
    []], and the length of that text.  [items] are held last first.  A
    range one of whose ends is a class stands for the two ends and the
    dash. *)
Fixpoint class_go (named : bool) (skip : nat) (st : range_state) (items : list class_item)
    (len : nat) (p : str) {struct p} : option (list class_item * nat) :=
  match p with
  | [] => None
  | c :: p1 =>
      match skip with
      | S n => class_go named n st items (S len) p1
      | 0 =>
          if Ascii.eqb c "]" then Some (rev (flush st items), S len)
          else
            match st, Ascii.eqb c "-" with
            | R1 a, true => class_go named 0 (R2 a) items (S len) p1
            | _, _ =>
                match class_atom_at named p with
                | None => None
                | Some (b, n) =>
                    match st with
                    | R0 => class_go named n (R1 b) items (S len) p1
                    | R1 a => class_go named n (R1 b) (item_of a :: items) (S len) p1
                    | R2 a =>
                        match atom_code a, atom_code b with
                        | Some lo, Some hi =>
                            if (lo <=? hi)%N
                            then class_go named n R0 (CRange lo hi :: items) (S len) p1
                            else None
                        | _, _ =>
                            class_go named n R0 (item_of b :: CChar "-" :: item_of a :: items)
                              (S len) p1
                        end
                    end
                end
            end
      end
  end.

(** CharacterClass, for the text [p1] after the [[]: the class and the
    length of its text. *)
Definition parse_class (named : bool) (p1 : str) : option (regex * nat) :=
  match p1 with
  | c :: p2 =>
      if Ascii.eqb c "^" then
        match class_go named 0 R0 [] 0 p2 with
        | Some (items, n) => Some (Class true items, S n)
        | None => None
        end
      else
        match class_go named 0 R0 [] 0 p1 with
        | Some (items, n) => Some (Class false items, n)
        | None => None
        end
  | [] => None
  end.

(** *** Quantifiers in braces *)

(** [{n}], [{n,}] or [{n,m}], for the text [p1] after the [{]: the
    bounds and the length; [None] when the text is no such
    quantifier. *)
Definition braces (p1 : str) : option (N * option N * nat) :=
  let '(mn, l1) := decimal_run 0 0 p1 in
  match l1, skipn l1 p1 with
  | S _, c :: q =>
      if Ascii.eqb c "}" then Some (mn, Some mn, S l1)
      else if Ascii.eqb c "," then
        match q with
        | d :: _ =>
            if Ascii.eqb d "}" then Some (mn, None, S (S l1))
            else
              let '(mx, l2) := decimal_run 0 0 q in
              match l2, skipn l2 q with
              | S _, e :: _ =>
                  if Ascii.eqb e "}" then Some (mn, Some mx, l1 + l2 + 2) else None
              | _, _ => None
              end
        | [] => None
        end
      else None
  | _, _ => None
  end.

Definition bounds_ok (mn : N) (mx : option N) : bool :=
  match mx with
  | Some m => (mn <=? m)%N
  | None => true
  end.

(** *** Groups *)

Inductive group_kind :=
| KCapture (index : nat) (name : option str)
| KPlain
| KModified (add remove : flags)
| KLook (ahead neg : bool).

Definition no_flags : flags := {| ignoreCase := false; multiline := false; dotAll := false |}.

(** The run of modifier letters [q] starts with, added to [fl], its
    length and the rest; [None] when a letter comes twice. *)
Fixpoint read_flags (fl : flags) (len : nat) (q : str) : option (flags * nat * str) :=
  match q with
  | c :: q' =>
      if Ascii.eqb c "i" then
        if ignoreCase fl then None
        else read_flags {| ignoreCase := true; multiline := multiline fl; dotAll := dotAll fl |}
               (S len) q'
      else if Ascii.eqb c "m" then
        if multiline fl then None
        else read_flags {| ignoreCase := ignoreCase fl; multiline := true; dotAll := dotAll fl |}
               (S len) q'
      else if Ascii.eqb c "s" then
        if dotAll fl then None
        else read_flags {| ignoreCase := ignoreCase fl; multiline := multiline fl; dotAll := true |}
               (S len) q'
      else Some (fl, len, q)
  | [] => Some (fl, len, [])
  end.

Definition flags_overlap (a b : flags) : bool :=
  (ignoreCase a && ignoreCase b) || (multiline a && multiline b) || (dotAll a && dotAll b).

Definition flags_empty (a : flags) : bool :=
  negb (ignoreCase a || multiline a || dotAll a).

(** The modifiers of [(?ims-ims:], for the text after [(?]: the flags
    set, the flags cleared and the length up to and with the colon. *)
Definition read_modifiers (q : str) : option (flags * flags * nat) :=
  match read_flags no_flags 0 q with
  | Some (add, l1, rest) =>
      match rest with
      | c :: rest1 =>
          if Ascii.eqb c ":" then
            if flags_empty add then None else Some (add, no_flags, S l1)
          else if Ascii.eqb c "-" then
            match read_flags no_flags 0 rest1 with
            | Some (remove, l2, rest2) =>
                match rest2 with
                | d :: _ =>
                    if Ascii.eqb d ":" && negb (flags_overlap add remove)
                       && negb (flags_empty add && flags_empty remove)
                    then Some (add, remove, l1 + l2 + 2)
                    else None
                | [] => None
                end
            | None => None
            end
          else None
      | [] => None
      end
  | None => None
  end.

(** What a left parenthesis opens, for the text [p1] after it: the kind
    of group, the length of what belongs to the opening, and the number
    of capturing groups opened so far. *)
Definition group_open (ngroups : nat) (p1 : str) : option (group_kind * nat * nat) :=
  match p1 with
  | q :: p2 =>
      if Ascii.eqb q "?" then
        match p2 with
        | x :: p3 =>
            if Ascii.eqb x ":" then Some (KPlain, 2, ngroups)
            else if Ascii.eqb x "=" then Some (KLook true false, 2, ngroups)
            else if Ascii.eqb x "!" then Some (KLook true true, 2, ngroups)
            else if Ascii.eqb x "<" then
              match p3 with
              | y :: _ =>
                  if Ascii.eqb y "=" then Some (KLook false false, 3, ngroups)
                  else if Ascii.eqb y "!" then Some (KLook false true, 3, ngroups)
                  else
                    match read_name p3 with
                    | Some (name, n) => Some (KCapture (S ngroups) (Some name), 2 + n, S ngroups)
                    | None => None
                    end
              | [] => None
              end
            else
              match read_modifiers p2 with
              | Some (add, remove, n) => Some (KModified add remove, S n, ngroups)
              | None => None
              end
        | [] => None
        end
      else Some (KCapture (S ngroups) None, 0, S ngroups)
  | [] => Some (KCapture (S ngroups) None, 0, S ngroups)
  end.

(** The term a closed group is, and whether a quantifier may follow:
    it may not after a look-behind. *)
Definition close (k : group_kind) (body : regex) : regex * last :=
  match k with
  | KCapture i name => (Group i name body, LAtom)
  | KPlain => (body, LAtom)
  | KModified add remove => (Modified add remove body, LAtom)
  | KLook ahead neg => (Look ahead neg body, if ahead then LAtom else LNone)
  end.

(** *** The pattern *)

(** Apply a quantifier to the term read last. *)
Definition quantify (mn : N) (mx : option N) (cur : list regex) (lst : last)
    : option (list regex) :=
  match lst, cur with
  | LAtom, a :: rest => Some (Repeat mn mx true a :: rest)
  | _, _ => None
  end.

Definition make_lazy (cur : list regex) : option (list regex) :=
  match cur with
  | Repeat mn mx _ a :: rest => Some (Repeat mn mx false a :: rest)
  | _ => None
  end.

(** An open group: its kind, and the alternatives and the terms read
    before it, last first. *)
Record frame := { f_kind : group_kind; f_alts : list regex; f_cur : list regex }.

(** One pass over the pattern text.  [skip] characters belong to what
    was read last; [alts] are the alternatives of the disjunction being
    read that are complete, [cur] the terms of its last alternative, both
    last first; [ngroups] counts the capturing groups opened.  [gnames]
    are the groups of the whole pattern, which decide how [\1] and [\k]
    are read. *)
Fixpoint parse_go (gnames : list (option str)) (skip : nat) (stack : list frame)
    (alts cur : list regex) (lst : last) (ngroups : nat) (p : str) {struct p} : option regex :=
  match p with
  | [] =>
      match skip, stack with
      | 0, [] => Some (alt_of alts cur)
      | _, _ => None
      end
  | c :: p1 =>
      match skip with
      | S n => parse_go gnames n stack alts cur lst ngroups p1
      | 0 =>
          if Ascii.eqb c "\" then
            match atom_escape gnames p1 with
            | Some (a, l, n) => parse_go gnames n stack alts (a :: cur) l ngroups p1
            | None => None
            end
          else if Ascii.eqb c "(" then
            match group_open ngroups p1 with
            | Some (k, n, ngroups') =>
                parse_go gnames n ({| f_kind := k; f_alts := alts; f_cur := cur |} :: stack)
                  [] [] LNone ngroups' p1
            | None => None
            end
          else if Ascii.eqb c ")" then
            match stack with
            | fr :: stack' =>
                parse_go gnames 0 stack' (f_alts fr)
                  (fst (close (f_kind fr) (alt_of alts cur)) :: f_cur fr)
                  (snd (close (f_kind fr) (alt_of alts cur))) ngroups p1
            | [] => None
            end
          else if Ascii.eqb c "|" then
            parse_go gnames 0 stack (seq_of (rev cur) :: alts) [] LNone ngroups p1
          else if Ascii.eqb c "*" then
            match quantify 0 None cur lst with
            | Some cur' => parse_go gnames 0 stack alts cur' LQuant ngroups p1
            | None => None
            end
          else if Ascii.eqb c "+" then
            match quantify 1 None cur lst with
            | Some cur' => parse_go gnames 0 stack alts cur' LQuant ngroups p1
            | None => None
            end
          else if Ascii.eqb c "?" then
            match lst with
            | LQuant =>
                match make_lazy cur with
                | Some cur' => parse_go gnames 0 stack alts cur' LNone ngroups p1
                | None => None
                end
            | _ =>
                match quantify 0 (Some 1%N) cur lst with
                | Some cur' => parse_go gnames 0 stack alts cur' LQuant ngroups p1
                | None => None
                end
            end
          else if Ascii.eqb c "{" then
            match braces p1 with
            | Some (mn, mx, n) =>
                if bounds_ok mn mx then
                  match quantify mn mx cur lst with
                  | Some cur' => parse_go gnames n stack alts cur' LQuant ngroups p1
                  | None => None
                  end
                else None
            | None => parse_go gnames 0 stack alts (Chr c :: cur) LAtom ngroups p1
            end
          else if Ascii.eqb c "^" then parse_go gnames 0 stack alts (Bol :: cur) LNone ngroups p1
          else if Ascii.eqb c "$" then parse_go gnames 0 stack alts (Eol :: cur) LNone ngroups p1
          else if Ascii.eqb c "." then parse_go gnames 0 stack alts (Any :: cur) LAtom ngroups p1
          else if Ascii.eqb c "[" then
            match parse_class (existsb is_some gnames) p1 with
            | Some (a, n) => parse_go gnames n stack alts (a :: cur) LAtom ngroups p1
            | None => None
            end
          else parse_go gnames 0 stack alts (Chr c :: cur) LAtom ngroups p1
      end
  end.

(** The named groups of a regular expression, with their numbers. *)
Fixpoint group_names (r : regex) : list (nat * str) :=
  match r with
  | Seq a b | Alt a b => group_names a ++ group_names b
  | Group i (Some n) body => (i, n) :: group_names body
  | Group _ None body | Repeat _ _ _ body | Look _ _ body | Modified _ _ body =>
      group_names body
  | _ => []
  end.

Definition has_name (n : str) (l : list (nat * str)) : bool :=
  existsb (fun e => Str.eqb (snd e) n) l.

(** No two groups that can both take part in a match have the same
    name: groups of the same name are in different alternatives. *)
Fixpoint names_ok (r : regex) : bool :=
  match r with
  | Seq a b =>
      names_ok a && names_ok b
      && negb (existsb (fun e => has_name (snd e) (group_names b)) (group_names a))
  | Alt a b => names_ok a && names_ok b
  | Group _ (Some n) body => names_ok body && negb (has_name n (group_names body))
  | Group _ None body | Repeat _ _ _ body | Look _ _ body | Modified _ _ body => names_ok body
  | _ => true
  end.

(** [new RegExp(pattern)]: [None] when a SyntaxError is thrown. *)
Definition RegExp (pattern : str) : option regex :=
  match parse_go (prescan 0 false pattern) 0 [] [] [] LNone 0 pattern with
  | Some r => if names_ok r then Some r else None
  | None => None
  end.

(** *** Matching *)

(** The captures, by the number of the group, latest first. *)
Definition caps := list (nat * str).

Fixpoint lookup_cap (i : nat) (c : caps) : option str :=
  match c with
  | [] => None
  | (j, v) :: c' => if Nat.eqb j i then Some v else lookup_cap i c'
  end.

(** The captures without those of the groups [idxs]. *)
Definition clear (idxs : list nat) (c : caps) : caps :=
  match idxs with
  | [] => c
  | _ :: _ => List.filter (fun e => negb (existsb (Nat.eqb (fst e)) idxs)) c
  end.

(** The numbers of the groups inside a regular expression. *)
Fixpoint groups_of (r : regex) : list nat :=
  match r with
  | Seq a b | Alt a b => groups_of a ++ groups_of b
  | Group i _ body => i :: groups_of body
  | Repeat _ _ _ body | Look _ _ body | Modified _ _ body => groups_of body
  | _ => []
  end.

(** The capture of the first of the groups [idxs] that has one. *)
Fixpoint first_cap (idxs : list nat) (c : caps) : option str :=
  match idxs with
  | [] => None
  | i :: rest =>
      match lookup_cap i c with
      | Some v => Some v
      | None => first_cap rest c
      end
  end.

(** A continuation receives the position, as the input before it
    (nearest character first) and the input after it, and the captures;
    it answers with the input after the end of the match. *)
Definition cont := str -> str -> caps -> option (str * caps).

Definition accept : cont := fun _ s c => Some (s, c).

(** [t] is what the input [s] starts with, and the rest. *)
Fixpoint strip_text (fl : flags) (t s : str) : option str :=
  match t, s with
  | [], _ => Some s
  | a :: t', x :: s' => if char_eq fl x a then strip_text fl t' s' else None
  | _ :: _, [] => None
  end.

(** RepeatMatcher once the least number of repetitions is done: one
    more repetition, which must move the position, or the rest of the
    pattern; the order of the two by [greedy].  The position can move
    [fuel] times. *)
Fixpoint repeat_loop (fuel : nat) (idxs : list nat) (step : cont -> cont)
    (max : option N) (greedy : bool) (k : cont) {struct fuel} : cont :=
  fun b s c =>
    match fuel, max with
    | 0, _ | _, Some 0%N => k b s c
    | S f, _ =>
        if greedy then
          match step (fun b' s' c' =>
                        if length s' =? length s then None
                        else repeat_loop f idxs step (option_map N.pred max) greedy k b' s' c')
                     b s (clear idxs c) with
          | Some r => Some r
          | None => k b s c
          end
        else
          match k b s c with
          | Some r => Some r
          | None =>
              step (fun b' s' c' =>
                      if length s' =? length s then None
                      else repeat_loop f idxs step (option_map N.pred max) greedy k b' s' c')
                   b s (clear idxs c)
          end
    end.

(** RepeatMatcher: [min] repetitions, then [repeat_loop].  Every
    repetition starts without the captures of the groups inside. *)
Fixpoint repeat_min (min : nat) (fwd : bool) (idxs : list nat) (step : cont -> cont)
    (max : option N) (greedy : bool) (k : cont) {struct min} : cont :=
  fun b s c =>
    match min with
    | 0 => repeat_loop (if fwd then length s else length b) idxs step max greedy k b s c
    | S m =>
        step (fun b' s' c' => repeat_min m fwd idxs step (option_map N.pred max) greedy k b' s' c')
             b s (clear idxs c)
    end.

Definition apply_modifiers (fl add remove : flags) : flags :=
  {| ignoreCase := (ignoreCase fl || ignoreCase add) && negb (ignoreCase remove);
     multiline := (multiline fl || multiline add) && negb (multiline remove);
     dotAll := (dotAll fl || dotAll add) && negb (dotAll remove) |}.

Definition word_before (b : str) : bool :=
  match b with x :: _ => is_word x | [] => false end.

(** The backtracking matcher; [fwd] is the direction, which is backward
    inside a look-behind. *)
Fixpoint matcher (fl : flags) (fwd : bool) (r : regex) (k : cont) {struct r} : cont :=
  fun b s c =>
    match r with
    | Eps => k b s c
    | Chr a =>
        if fwd then
          match s with
          | x :: s' => if char_eq fl x a then k (x :: b) s' c else None
          | [] => None
          end
        else
          match b with
          | x :: b' => if char_eq fl x a then k b' (x :: s) c else None
          | [] => None
          end
    | Any =>
        if fwd then
          match s with
          | x :: s' => if dotAll fl || negb (Str.is_line_terminator x) then k (x :: b) s' c else None
          | [] => None
          end
        else
          match b with
          | x :: b' => if dotAll fl || negb (Str.is_line_terminator x) then k b' (x :: s) c else None
          | [] => None
          end
    | Class neg items =>
        if fwd then
          match s with
          | x :: s' => if char_in fl neg items x then k (x :: b) s' c else None
          | [] => None
          end
        else
          match b with
          | x :: b' => if char_in fl neg items x then k b' (x :: s) c else None
          | [] => None
          end
    | Bol =>
        match b with
        | [] => k b s c
        | x :: _ => if multiline fl && Str.is_line_terminator x then k b s c else None
        end
    | Eol =>
        match s with
        | [] => k b s c
        | x :: _ => if multiline fl && Str.is_line_terminator x then k b s c else None
        end
    | WordBoundary neg =>
        if xorb neg (xorb (word_before b) (word_before s)) then k b s c else None
    | Seq r1 r2 =>
        if fwd then matcher fl fwd r1 (matcher fl fwd r2 k) b s c
        else matcher fl fwd r2 (matcher fl fwd r1 k) b s c
    | Alt r1 r2 =>
        match matcher fl fwd r1 k b s c with
        | Some res => Some res
        | None => matcher fl fwd r2 k b s c
        end
    | Group i _ body =>
        matcher fl fwd body
          (fun b' s' c' =>
             k b' s' ((i, if fwd then firstn (length s - length s') s
                          else firstn (length s' - length s) s') :: c'))
          b s c
    | Repeat mn mx greedy a =>
        repeat_min (N.to_nat mn) fwd (groups_of a) (matcher fl fwd a) mx greedy k b s c
    | Look ahead neg body =>
        match matcher fl ahead body accept b s c with
        | Some (_, c') => if neg then None else k b s c'
        | None => if neg then k b s c else None
        end
    | Backref idxs =>
        match first_cap idxs c with
        | None => k b s c
        | Some t =>
            if fwd then
              match strip_text fl t s with
              | Some s' => k (rev (firstn (length t) s) ++ b) s' c
              | None => None
              end
            else
              match strip_text fl (rev t) b with
              | Some b' => k b' (rev (firstn (length t) b) ++ s) c
              | None => None
              end
        end
    | Modified add remove body => matcher (apply_modifiers fl add remove) fwd body k b s c
    end.

(** The groups of a match by their names. *)
Definition groups_t := list (str * str).

Fixpoint lookup_group (name : str) (g : groups_t) : option str :=
  match g with
  | [] => None
  | (n, v) :: g' => if Str.eqb n name then Some v else lookup_group name g'
  end.

Definition named_groups (r : regex) (c : caps) : groups_t :=
  omap (fun e => match lookup_cap (fst e) c with
                 | Some v => Some (snd e, v)
                 | None => None
                 end) (group_names r).

(** The result of a successful [exec]: where the match starts, the
    matched text, the captures and the named groups. *)
Record match_result := { index : nat; matched : str; captures : caps; groups : groups_t }.

Fixpoint exec_from (fl : flags) (r : regex) (i : nat) (b s : str) : option match_result :=
  match matcher fl true r accept b s [] with
  | Some (s', c) =>
      Some {| index := i; matched := firstn (length s - length s') s;
              captures := c; groups := named_groups r c |}
  | None =>
      match s with
      | [] => None
      | x :: s' => exec_from fl r (S i) (x :: b) s'
      end
  end.

(** The flags of a regular expression made without [i] and [s]; [ml]
    is the flag [m]. *)
Definition flags_of (ml : bool) : flags :=
  {| ignoreCase := false; multiline := ml; dotAll := false |}.

(** [regex.exec(s)] from the start of [s]: the leftmost match. *)
Definition exec (ml : bool) (r : regex) (s : str) : option match_result :=
  exec_from (flags_of ml) r 0 [] s.

(** [regex.test(s)] *)
Definition test (ml : bool) (r : regex) (s : str) : bool :=
  match exec ml r s with Some _ => true | None => false end.

(** [s.replace(regex, repl)] without the [g] flag: the leftmost match
    is replaced.  [repl] is taken literally (no replacement string of
    the plugin it is used for contains [$]). *)
Definition replace_first (ml : bool) (r : regex) (repl s : str) : str :=
  match exec ml r s with
  | Some mr => firstn (index mr) s ++ repl ++ skipn (index mr + length (matched mr)) s
  | None => s
  end.

(** [s.replace(regex, repl)] with the [g] flag: matches are looked for
    from left to right, each after the end of the one before; after an
    empty match the search moves on by one character. *)
Fixpoint replace_all_from (fuel : nat) (ml : bool) (r : regex) (repl : str)
    (b s : str) : str :=
  match fuel with
  | 0 => s
  | S f =>
      match matcher (flags_of ml) true r accept b s [] with
      | Some (s', _) =>
          if length s' <? length s then
            repl ++ replace_all_from f ml r repl
                      (rev (firstn (length s - length s') s) ++ b) s'
          else
            repl ++ match s with
                    | [] => []
                    | x :: s1 => x :: replace_all_from f ml r repl (x :: b) s1
                    end
      | None =>
          match s with
          | [] => []
          | x :: s1 => x :: replace_all_from f ml r repl (x :: b) s1
          end
      end
  end.

Definition replace_all (ml : bool) (r : regex) (repl s : str) : str :=
  replace_all_from (S (length s)) ml r repl [] s.

End Regex.

(** ** Numbers

    The JavaScript numbers the plugin computes with are the results of
    [parseInt] on a run of digits, of [Math.max] and of [+ 1]: the
    non-negative integers a double represents, the two infinities and
    NaN.  A finite value is held as an [N]; [round_double] is rounding to
    the nearest double, ties to even. *)

Module Number.

Inductive number :=
| Int (n : N)
| Infinity
| NegInfinity
| NaN.

Definition round_double (n : N) : number :=
  if (n <? 2 ^ 53)%N then Int n
  else
    let e := (N.log2 n - 52)%N in
    let q := (n / 2 ^ e)%N in
    let r := (n mod 2 ^ e)%N in
    let half := (2 ^ (e - 1))%N in
    let q' := if (r <? half)%N then q
              else if (half <? r)%N then (q + 1)%N
              else if N.even q then q else (q + 1)%N in
    let v := (q' * 2 ^ e)%N in
    if (v <? 2 ^ 1024)%N then Int v else Infinity.

(** The value of a run of decimal digits. *)
Definition digits_value (d : str) : N :=
  match NilEmpty.uint_of_string (string_of_list_ascii d) with
  | Some u => N.of_uint u
  | None => 0%N
  end.

Fixpoint digit_prefix (s : str) : str :=
  match s with
  | c :: s' => if Str.is_digit c then c :: digit_prefix s' else []
  | [] => []
  end.

(** [parseInt(x)] for [x] a capture of a regular expression:
    [undefined] ([None]) or a string.  Of a string only its leading
    digits are read; a sign, leading blanks or a radix prefix cannot
    occur in a capture of [\d+] and are not modelled. *)
Definition parseInt (x : option str) : number :=
  match x with
  | None => NaN
  | Some s =>
      match digit_prefix s with
      | [] => NaN
      | d => round_double (digits_value d)
      end
  end.

Definition max2 (a b : number) : number :=
  match a, b with
  | NaN, _ | _, NaN => NaN
  | Infinity, _ | _, Infinity => Infinity
  | NegInfinity, x | x, NegInfinity => x
  | Int x, Int y => Int (N.max x y)
  end.

(** [Math.max(...l)] *)
Definition Math_max (l : list number) : number := fold_left max2 l NegInfinity.

(** [x + 1] *)
Definition add1 (x : number) : number :=
  match x with
  | Int n => round_double (n + 1)
  | other => other
  end.

Definition decimal (n : N) : str :=
  list_ascii_of_string (NilEmpty.string_of_uint (N.to_uint n)).

(** The shortest digit string [s] of [k] digits with
    [round_double (s * 10^e) = v], searched for [k = 1, 2, ...]; of two
    candidates of the same length the one nearer to [v]. *)
Fixpoint shortest_digits (fuel : nat) (k : N) (nd v : N) : N * N :=
  match fuel with
  | 0 => (v, 0%N)
  | S f =>
      let e := (nd - k)%N in
      let lo := (v / 10 ^ e)%N in
      let hi := (lo + 1)%N in
      let ok x := match round_double (x * 10 ^ e) with
                  | Int w => (w =? v)%N
                  | _ => false
                  end in
      let nearer_lo := (v - lo * 10 ^ e <=? hi * 10 ^ e - v)%N in
      if ok lo && (negb (ok hi) || nearer_lo) then (lo, e)
      else if ok hi then (hi, e)
      else shortest_digits f (k + 1)%N nd v
  end.

Fixpoint strip_zeros (fuel : nat) (s e : N) : N * N :=
  match fuel with
  | 0 => (s, e)
  | S f => if ((s mod 10 =? 0) && negb (s =? 0))%N then strip_zeros f (s / 10)%N (e + 1)%N else (s, e)
  end.

(** Number::toString for a finite value of at least [10^21]. *)
Definition exponential (v : N) : str :=
  let nd := N.of_nat (length (decimal v)) in
  let '(s0, e0) := shortest_digits 18 1%N nd v in
  let '(s, e) := strip_zeros 18 s0 e0 in
  let ds := decimal s in
  let n := (e + N.of_nat (length ds))%N in
  match ds with
  | [] => []
  | d :: [] => d :: lit "e+" ++ decimal (n - 1)
  | d :: more => d :: "."%char :: more ++ lit "e+" ++ decimal (n - 1)
  end.

(** The text of a number in a template literal.  Below [2^53] every
    integer is a double and the text is the decimal expansion; from
    there on it is the shortest digit string that reads back as the
    same double, padded with zeros up to [10^21] and in exponent form
    beyond. *)
Definition toString (x : number) : str :=
  match x with
  | Int n =>
      if (n <? 2 ^ 53)%N then decimal n
      else if (n <? 10 ^ 21)%N then
        let '(s, e) := shortest_digits 18 1%N (N.of_nat (length (decimal n))) n in
        decimal s ++ repeat "0"%char (N.to_nat e)
      else exponential n
  | Infinity => lit "Infinity"
  | NegInfinity => lit "-Infinity"
  | NaN => lit "NaN"
  end.

End Number.

Import Regex Number.

(** ** Helpers of [utils] that [main.ts] imports *)

Module Utils.

(** Modelled from the spec: [path.extension] of utils, which is not
    part of the sources.  "Split candidateName into (stem, extension)
    by the last [.]: extension is everything after the final dot."  A
    name without a dot is outside the contract and has no extension
    here. *)
Definition path_extension (fullpath : str) : option str :=
  match Str.last_dot fullpath with
  | Some i => Some (skipn (S i) fullpath)
  | None => None
  end.

(** Modelled from the spec: [escapeRegExp] of utils, which is not part
    of the sources.  "Regex-special characters in stem and delimiter
    are escaped before building the rule."  The characters are those
    of the same replacement written out in [replaceAllLinksInEditor],
    [/[.*+?^${}()|[\]\\]/g], each preceded by a backslash. *)
Definition escapeRegExp (s : str) : str :=
  flat_map (fun c => if is_syntax_char c then ["\"%char; c] else [c]) s.

End Utils.

Import Utils.

(** ** Data of the plugin *)

Record PluginSettings := {
  imageNamePattern : str;
  dupNumberAtStart : bool;
  dupNumberDelimiter : str;
  dupNumberAlways : bool;
  autoRename : bool;
  handleAllAttachments : bool;
  excludeExtensionPattern : str;
  disableRenameNotice : bool;
  enableCompression : bool;
  maxWidth : Z;
  maxHeight : Z;
  jpgQuality : Q;
  webpQuality : Q;
  avifQuality : Q;
  outputFormat : str;
  smartFormatSelection : bool
}.

Definition DEFAULT_SETTINGS : PluginSettings := {|
  imageNamePattern := lit "{{fileName}}";
  dupNumberAtStart := false;
  dupNumberDelimiter := lit "-";
  dupNumberAlways := false;
  autoRename := false;
  handleAllAttachments := false;
  excludeExtensionPattern := [];
  disableRenameNotice := false;
  enableCompression := true;
  maxWidth := 1920;
  maxHeight := 1080;
  jpgQuality := 85 # 100;
  webpQuality := 8 # 10;
  avifQuality := 7 # 10;
  outputFormat := lit "auto";
  smartFormatSelection := true
|}.

Definition PASTED_IMAGE_PREFIX : str := lit "Pasted image ".

(** The fields of Obsidian's [TFolder] and [TFile] that the plugin reads. *)
Module TFolder.
Record t := { path : str; name : str }.
End TFolder.

Module TFile.
Record t := {
  path : str;
  name : str;
  basename : str;
  extension : str;
  parent : TFolder.t;
  ctime : Z
}.
End TFile.

Inductive TAbstractFile :=
| AFile (f : TFile.t)
| AFolder (d : TFolder.t).

Module NameObj.
Record t := { name : str; stem : str; extension : str }.
End NameObj.

(** ** Duplicate numbers: [deduplicateNewName] *)

(** The text handed to [new RegExp] for the names that already carry a
    number.  The stem and the delimiter arrive escaped, the extension as
    it is. *)
Definition dupNameRegex_source (atStart : bool) (newNameStemEscaped delimiterEscaped newNameExt : str) : str :=
  if atStart then
    lit "^(?<number>\d+)" ++ delimiterEscaped ++ lit "(?<name>" ++ newNameStemEscaped
      ++ lit ")\." ++ newNameExt ++ lit "$"
  else
    lit "^(?<name>" ++ newNameStemEscaped ++ lit ")" ++ delimiterEscaped
      ++ lit "(?<number>\d+)\." ++ newNameExt ++ lit "$".

(** The two variables of the loop over the siblings. *)
Record scan := { dupNameNumbers : list number; isNewNameExist : bool }.

(** One turn of the loop, on a sibling already reduced to its file name. *)
Definition scan_step (dupNameRegex : regex) (newName : str) (st : scan) (sibling : str) : scan :=
  if Str.eqb sibling newName then
    {| dupNameNumbers := dupNameNumbers st; isNewNameExist := true |}
  else
    match exec false dupNameRegex sibling with
    | None => st
    | Some mr =>
        {| dupNameNumbers := dupNameNumbers st ++ [parseInt (lookup_group (lit "number") (groups mr))];
           isNewNameExist := isNewNameExist st |}
    end.

(** [newNumber]: one more than the largest number found, or 1. *)
Definition next_number (nums : list number) : number :=
  match nums with
  | [] => Int 1
  | _ :: _ => add1 (Math_max nums)
  end.

(** [deduplicateNewName(newName, file)].

    Modelled from the spec: the listing.  [siblings] is the
    SiblingListing of the spec, "file-name strings present in the target
    directory at resolution time": what [vault.adapter.list] returns for
    the parent of [file], each entry reduced to its file name by
    [path.basename] (both outside the sources).

    The result is [None] when no regular expression can be built, or
    when [newName] has no dot. *)
Definition deduplicateNewName (settings : PluginSettings) (siblings : list str) (newName : str)
    : option NameObj.t :=
  match path_extension newName with
  | None => None
  | Some newNameExt =>
      let newNameStem := firstn (length newName - length newNameExt - 1) newName in
      let newNameStemEscaped := escapeRegExp newNameStem in
      let delimiter := dupNumberDelimiter settings in
      let delimiterEscaped := escapeRegExp delimiter in
      match RegExp (dupNameRegex_source (dupNumberAtStart settings)
                      newNameStemEscaped delimiterEscaped newNameExt) with
      | None => None
      | Some dupNameRegex =>
          let st := fold_left (scan_step dupNameRegex newName) siblings
                      {| dupNameNumbers := []; isNewNameExist := false |} in
          let newName' :=
            if isNewNameExist st || dupNumberAlways settings then
              let newNumber := next_number (dupNameNumbers st) in
              if dupNumberAtStart settings then
                toString newNumber ++ delimiter ++ newNameStem ++ lit "." ++ newNameExt
              else
                newNameStem ++ delimiter ++ toString newNumber ++ lit "." ++ newNameExt
            else newName in
          Some {| NameObj.name := newName';
                  NameObj.stem := firstn (length newName' - length newNameExt - 1) newName';
                  NameObj.extension := newNameExt |}
      end
  end.

(** ** Name generation: [generateNewName] *)

Record HeadingCache := { heading : str; level : Z }.

(** The part of the metadata cache entry of the active file that is read:
    the frontmatter (a map from keys to values), the headings and the
    links of the embeds. *)
Record FileCache := {
  frontmatter : option (gmap str str);
  headings : option (list HeadingCache);
  embeds : option (list str)
}.

(** The variables handed to [renderTemplate]. *)
Record RenderContext := {
  ctx_imageNameKey : str;
  ctx_fileName : str;
  ctx_dirName : str;
  ctx_firstHeading : str
}.

Module Generated.
Record t := { stem : str; newName : str; isMeaningful : bool }.
End Generated.

Fixpoint getFirstHeading_loop (hs : list HeadingCache) : str :=
  match hs with
  | [] => []
  | h :: hs' => if (level h =? 1)%Z then heading h else getFirstHeading_loop hs'
  end.

Definition getFirstHeading (headings : option (list HeadingCache)) : str :=
  match headings with
  | Some hs => getFirstHeading_loop hs
  | None => []
  end.

(** The text of [meaninglessRegex]: the delimiter, as it is, and [\s]
    inside one character class. *)
Definition meaninglessRegex_source (delimiter : str) : str :=
  lit "[" ++ delimiter ++ lit "\s]".

Section GenerateNewName.

(** [renderTemplate] of the template module, which is not part of the
    sources: any function of the pattern, the variables and the
    frontmatter. *)
Variable renderTemplate : str -> RenderContext -> option (gmap str str) -> str.

(** [generateNewName(file, activeFile)]; [fileCache] is what
    [metadataCache.getFileCache(activeFile)] returns.  The result is
    [None] when [meaninglessRegex] cannot be built. *)
Definition generateNewName (settings : PluginSettings) (fileCache : option FileCache)
    (file activeFile : TFile.t) : option Generated.t :=
  let '(imageNameKey, firstHeading, fm) :=
    match fileCache with
    | Some fc =>
        (match frontmatter fc with
         | Some f => match f !! lit "imageNameKey" with Some v => v | None => [] end
         | None => []
         end,
         getFirstHeading (headings fc),
         frontmatter fc)
    | None => ([], [], None)
    end in
  let stem :=
    renderTemplate (imageNamePattern settings)
      {| ctx_imageNameKey := imageNameKey;
         ctx_fileName := TFile.basename activeFile;
         ctx_dirName := TFolder.name (TFile.parent activeFile);
         ctx_firstHeading := firstHeading |}
      fm in
  match RegExp (meaninglessRegex_source (dupNumberDelimiter settings)) with
  | None => None
  | Some meaninglessRegex =>
      Some {| Generated.stem := stem;
              Generated.newName := stem ++ lit "." ++ TFile.extension file;
              Generated.isMeaningful := negb (Str.eqb (replace_all true meaninglessRegex [] stem) []) |}
  end.

End GenerateNewName.

(** ** Format selection: [getOptimalDefaultFormat] *)

(** What the two capability probes answer: [supportsAvif()] and
    [supportsWebp()] ask the canvas for a data URL of the format. *)
Record Probe := { supportsAvif : bool; supportsWebp : bool }.

Definition getOptimalDefaultFormat (settings : PluginSettings) (probe : Probe)
    (originalExtension : str) : str :=
  if negb (enableCompression settings) then originalExtension
  else if negb (Str.eqb (outputFormat settings) (lit "auto")) then outputFormat settings
  else if smartFormatSelection settings then
    if supportsAvif probe && negb (Str.eqb originalExtension (lit "gif")) then lit "avif"
    else if supportsWebp probe then lit "webp"
    else lit "jpg"
  else lit "webp".

Definition getExtensionFromFormat (format : str) : str :=
  if Str.eqb format (lit "jpg") then lit "jpg"
  else if Str.eqb format (lit "webp") then lit "webp"
  else if Str.eqb format (lit "avif") then lit "avif"
  else if Str.eqb format (lit "png") then lit "png"
  else lit "jpg".

(** ** The handler of the vault's [create] event *)

Definition isPastedImage (file : TAbstractFile) : bool :=
  match file with
  | AFile f => if Str.startsWith PASTED_IMAGE_PREFIX (TFile.name f) then true else false
  | AFolder _ => false
  end.

Definition isMarkdownFile (file : TAbstractFile) : bool :=
  match file with
  | AFile f => if Str.eqb (TFile.extension f) (lit "md") then true else false
  | AFolder _ => false
  end.

(** [testExcludeExtension(file)]; [None] when [new RegExp(pattern)]
    throws. *)
Definition testExcludeExtension (settings : PluginSettings) (file : TFile.t) : option bool :=
  let pattern := excludeExtensionPattern settings in
  match pattern with
  | [] => Some false
  | _ :: _ =>
      match RegExp pattern with
      | Some re => Some (test false re (TFile.extension file))
      | None => None
      end
  end.

(** What the handler does with a created file: nothing, a call of
    [startRenameProcess], or an exception. *)
Inductive handled :=
| Ignored
| Started (file : TFile.t) (autoRename : bool)
| Thrown.

(** The callback registered with [vault.on('create', ...)]; [now] is
    [new Date().getTime()] and [isProcessingCompression] the flag of the
    plugin at that time. *)
Definition vault_on_create (settings : PluginSettings) (isProcessingCompression : bool)
    (now : Z) (file : TAbstractFile) : handled :=
  match file with
  | AFolder _ => Ignored
  | AFile f =>
      let timeGapMs := (now - TFile.ctime f)%Z in
      if (timeGapMs >? 1000)%Z then Ignored
      else if isMarkdownFile file then Ignored
      else if isProcessingCompression then Ignored
      else if isPastedImage file then Started f (autoRename settings)
      else if handleAllAttachments settings then
        match testExcludeExtension settings f with
        | None => Thrown
        | Some true => Ignored
        | Some false => Started f (autoRename settings)
        end
      else Ignored
  end.

(** ** The vault, notices and modals

    The content of a file is held as a string of bytes. *)

Inductive vault_op :=
| OpRead (path : str)
| OpDelete (path : str)
| OpCreate (path : str)
| OpRename (from to : str).

(** What can be thrown: an I/O error of the vault, the failure to compute
    a value (no regular expression, no extension) and
    [new Error('Compression failed')]. *)
Inductive error :=
| IOError (op : vault_op)
| NoValue
| CompressionFailed.

(** The notices shown to the user, by the text they are built from. *)
Inductive notice :=
| NoActiveFile                                   (* Error: No active file found. *)
| FailedToRename (newName : str) (err : error)   (* Failed to rename ${newName}: ${err} *)
| NoActiveEditor (newName : str)                 (* Failed to rename ${newName}: no active editor *)
| Renamed (originName newName : str)             (* Renamed ${originName} to ${newName} *)
| Converted (fileName finalName : str)           (* Converted ${file.name} to ${finalName} *)
| FormatConversionFailed (err : error)           (* Format conversion failed: ${error.message} *)
| NotMeaningful.                                 (* Failed to batch rename images: ... *)

(** An opened rename modal: the file, the proposed stem and the path of
    the document. *)
Record ModalRequest := { modal_file : TFile.t; modal_stem : str; modal_sourcePath : str }.

Record World := {
  files : gmap str str;
  notices : list notice;
  modals : list ModalRequest;
  isProcessingCompression : bool
}.

(** The collaborators that are only asked: the workspace, the metadata
    cache, the canvas that re-encodes an image ([compressBlob], [None]
    when it resolves to null) and the I/O errors of the vault. *)
Record Env := {
  env_activeFile : option TFile.t;
  env_hasEditor : bool;
  env_fileCache : option FileCache;
  env_linkDest : str -> option TFile.t;
  env_compressBlob : str -> str -> option str;
  env_fault : vault_op -> bool
}.

(** *** Paths of the vault *)

Module Path.

Definition dirname (p : str) : str :=
  match Str.last_index "/" p with
  | Some i => firstn i p
  | None => []
  end.

Definition filename (p : str) : str :=
  match Str.last_index "/" p with
  | Some i => skipn (S i) p
  | None => p
  end.

(** [path.join(dir, name)] of utils, for a directory and an entry of
    it. *)
Definition join (dir name : str) : str := dir ++ lit "/" ++ name.

(** The file object the vault hands out for a path. *)
Definition to_TFile (p : str) : TFile.t :=
  let n := filename p in
  {| TFile.path := p;
     TFile.name := n;
     TFile.basename := match Str.last_dot n with Some i => firstn i n | None => n end;
     TFile.extension := match Str.last_dot n with Some i => skipn (S i) n | None => [] end;
     TFile.parent := {| TFolder.path := dirname p; TFolder.name := filename (dirname p) |};
     TFile.ctime := 0 |}.

End Path.

(** *** A state and exception monad *)

Inductive result (A : Type) :=
| Ok (a : A)
| Throw (e : error).
Arguments Ok {A} a.
Arguments Throw {A} e.

Definition M (A : Type) : Type := World -> result A * World.

Definition ret {A} (a : A) : M A := fun w => (Ok a, w).

Definition bind {A B} (c : M A) (k : A -> M B) : M B :=
  fun w => match c w with
           | (Ok a, w') => k a w'
           | (Throw e, w') => (Throw e, w')
           end.

Definition throw {A} (e : error) : M A := fun w => (Throw e, w).

(** [try { c } catch (e) { h e }] *)
Definition try_catch {A} (c : M A) (h : error -> M A) : M A :=
  fun w => match c w with
           | (Ok a, w') => (Ok a, w')
           | (Throw e, w') => h e w'
           end.

(** A call whose promise is not awaited: the caller goes on when the
    call is done, whatever its outcome; an exception of the call is the
    rejection of a promise that nobody handles. *)
Definition not_awaited {A} (c : M A) : M unit :=
  fun w => (Ok tt, snd (c w)).

Declare Scope js_scope.
Delimit Scope js_scope with js.
Notation "x <- c ;; k" := (bind c (fun x => k))
  (at level 100, c at next level, right associativity) : js_scope.
Notation "c ;; k" := (bind c (fun _ => k))
  (at level 100, right associativity) : js_scope.
Open Scope js_scope.

Definition add_notice (n : notice) (w : World) : World :=
  {| files := files w; notices := notices w ++ [n]; modals := modals w;
     isProcessingCompression := isProcessingCompression w |}.

(** [new Notice(...)] *)
Definition new_Notice (n : notice) : M unit := fun w => (Ok tt, add_notice n w).

Definition set_isProcessingCompression (b : bool) : M unit :=
  fun w => (Ok tt, {| files := files w; notices := notices w; modals := modals w;
                      isProcessingCompression := b |}).

Definition push_modal (r : ModalRequest) : M unit :=
  fun w => (Ok tt, {| files := files w; notices := notices w; modals := modals w ++ [r];
                      isProcessingCompression := isProcessingCompression w |}).

Definition set_files (w : World) (fs : gmap str str) : World :=
  {| files := fs; notices := notices w; modals := modals w;
     isProcessingCompression := isProcessingCompression w |}.

(** *** The vault collaborator

    Modelled from the spec: "Vault: listSiblingNames(directory),
    rename(file, newPath) -> ok | fails(IOError), readBinary,
    writeBinary".  An operation fails when the environment injects a
    fault, when its source is missing and when its target exists. *)

Definition vault_readBinary (env : Env) (file : TFile.t) : M str :=
  fun w =>
    let op := OpRead (TFile.path file) in
    if env_fault env op then (Throw (IOError op), w)
    else match files w !! TFile.path file with
         | Some b => (Ok b, w)
         | None => (Throw (IOError op), w)
         end.

Definition vault_delete (env : Env) (file : TFile.t) : M unit :=
  fun w =>
    let op := OpDelete (TFile.path file) in
    if env_fault env op then (Throw (IOError op), w)
    else match files w !! TFile.path file with
         | Some _ => (Ok tt, set_files w (delete (TFile.path file) (files w)))
         | None => (Throw (IOError op), w)
         end.

Definition vault_createBinary (env : Env) (path : str) (data : str) : M TFile.t :=
  fun w =>
    let op := OpCreate path in
    if env_fault env op then (Throw (IOError op), w)
    else match files w !! path with
         | Some _ => (Throw (IOError op), w)
         | None => (Ok (Path.to_TFile path), set_files w (<[path := data]> (files w)))
         end.

Definition fileManager_renameFile (env : Env) (file : TFile.t) (newPath : str) : M unit :=
  fun w =>
    let op := OpRename (TFile.path file) newPath in
    if env_fault env op then (Throw (IOError op), w)
    else match files w !! TFile.path file, files w !! newPath with
         | Some b, None => (Ok tt, set_files w (<[newPath := b]> (delete (TFile.path file) (files w))))
         | _, _ => (Throw (IOError op), w)
         end.

(** The names of the files of directory [dir]. *)
Definition siblings_of (w : World) (dir : str) : list str :=
  omap (fun '(p, _) => if Str.eqb (Path.dirname p) dir then Some (Path.filename p) else None)
       (map_to_list (files w)).

Definition listSiblingNames (dir : str) : M (list str) :=
  fun w => (Ok (siblings_of w dir), w).

(** ** The rename and conversion pathways *)

(** A regular expression literal of the source. *)
Definition regex_literal (source : str) : regex :=
  match RegExp source with
  | Some r => r
  | None => Eps
  end.

(** [/\.[^.]+$/], the extension at the end of a name or path. *)
Definition extension_regex : regex := regex_literal (lit "\.[^.]+$").

(** [/jpe?g|png|gif|tiff|webp/i.exec(ext)] finds a match: one of the
    words occurs in [ext], whatever the case of its letters. *)
Definition extPatternRegex_matches (ext : str) : bool :=
  existsb (fun w => Str.contains_ci w ext)
    [lit "jpg"; lit "jpeg"; lit "png"; lit "gif"; lit "tiff"; lit "webp"].

(** A task of the batch modal. *)
Record RenameTask := { task_file : TFile.t; task_name : str }.

Section Plugin.

Variable renderTemplate : str -> RenderContext -> option (gmap str str) -> str.
Variable env : Env.
Variable settings : PluginSettings.

(** The method [deduplicateNewName(newName, file)]: the directory of
    [file] is listed and the name is computed from the listing. *)
Definition this_deduplicateNewName (newName : str) (file : TFile.t) : M NameObj.t :=
  siblings <- listSiblingNames (TFolder.path (TFile.parent file));;
  match deduplicateNewName settings siblings newName with
  | Some o => ret o
  | None => throw NoValue
  end.

(** [renameFile(file, inputNewName, sourcePath, replaceCurrentLine)].
    The text of the document is not part of the world: of the editor
    only its presence is kept. *)
Definition renameFile (file : TFile.t) (inputNewName sourcePath : str)
    (replaceCurrentLine : bool) : M unit :=
  o <- this_deduplicateNewName inputNewName file;;
  let newName := NameObj.name o in
  let originName := TFile.name file in
  let newPath := Path.join (TFolder.path (TFile.parent file)) newName in
  try_catch (fileManager_renameFile env file newPath)
    (fun err => new_Notice (FailedToRename newName err);; throw err);;
  if negb replaceCurrentLine then ret tt
  else if negb (env_hasEditor env) then new_Notice (NoActiveEditor newName)
  else if negb (disableRenameNotice settings) then new_Notice (Renamed originName newName)
  else ret tt.

(** [compressToFormat(file, targetFormat)] *)
Definition compressToFormat (file : TFile.t) (targetFormat : str) : M (option TFile.t) :=
  try_catch
    (set_isProcessingCompression true;;
     arrayBuffer <- vault_readBinary env file;;
     match env_compressBlob env arrayBuffer targetFormat with
     | None => ret None
     | Some compressedBlob =>
         let newExtension := getExtensionFromFormat targetFormat in
         let newPath := replace_first false extension_regex (lit "." ++ newExtension)
                          (TFile.path file) in
         vault_delete env file;;
         newFile <- vault_createBinary env newPath compressedBlob;;
         set_isProcessingCompression false;;
         ret (Some newFile)
     end)
    (fun error => set_isProcessingCompression false;; ret None).

(** The callback [openRenameModal] hands to the modal: what happens
    when the operator confirms [confirmedName] with [selectedFormat]. *)
Definition renameModal_confirm (file : TFile.t) (sourcePath confirmedName : str)
    (selectedFormat : option str) : M unit :=
  let convert :=
    match selectedFormat with
    | Some (c :: f) => negb (Str.eqb (c :: f) (TFile.extension file))
    | _ => false
    end in
  if convert then
    let format := match selectedFormat with Some f => f | None => [] end in
    try_catch
      (compressedFile <- compressToFormat file format;;
       match compressedFile with
       | Some cf =>
           let nameWithNewExt :=
             replace_first false extension_regex [] confirmedName ++ lit "." ++ format in
           o <- this_deduplicateNewName nameWithNewExt cf;;
           let finalName := NameObj.name o in
           let finalPath := Path.join (TFolder.path (TFile.parent cf)) finalName in
           fileManager_renameFile env cf finalPath;;
           if negb (disableRenameNotice settings)
           then new_Notice (Converted (TFile.name file) finalName)
           else ret tt
       | None => throw CompressionFailed
       end)
      (fun error =>
         new_Notice (FormatConversionFailed error);;
         renameFile file confirmedName sourcePath true)
  else renameFile file confirmedName sourcePath true.

Definition openRenameModal (file : TFile.t) (newName sourcePath : str) : M unit :=
  push_modal {| modal_file := file; modal_stem := newName; modal_sourcePath := sourcePath |}.

(** [startRenameProcess(file, autoRename)].  The last call,
    [this.renameFile(...)], is not awaited. *)
Definition startRenameProcess (file : TFile.t) (autoRename : bool) : M unit :=
  match env_activeFile env with
  | None => new_Notice NoActiveFile
  | Some activeFile =>
      match generateNewName renderTemplate settings (env_fileCache env) file activeFile with
      | None => throw NoValue
      | Some g =>
          if negb (Generated.isMeaningful g) || negb autoRename then
            openRenameModal file
              (if Generated.isMeaningful g then Generated.stem g else [])
              (TFile.path activeFile)
          else not_awaited (renameFile file (Generated.newName g) (TFile.path activeFile) true)
      end
  end.

(** [renameAll()] of the batch modal: the tasks in order, each awaited. *)
Fixpoint renameAll (renameFunc : TFile.t -> str -> M unit) (tasks : list RenameTask) : M unit :=
  match tasks with
  | [] => ret tt
  | task :: rest =>
      renameFunc (task_file task) (task_name task);;
      renameAll renameFunc rest
  end.

(** The [renameFunc] that [openBatchRenameModal] gives to the modal. *)
Definition batch_renameFunc (activeFile : TFile.t) (file : TFile.t) (name : str) : M unit :=
  renameFile file name (TFile.path activeFile) false.

(** The loop of [batchRenameAllImages] over the embeds. *)
Fixpoint batchRenameAllImages_loop (activeFile : TFile.t) (links : list str) : M unit :=
  match links with
  | [] => ret tt
  | link :: rest =>
      match env_linkDest env link with
      | None => ret tt
      | Some file =>
          if negb (extPatternRegex_matches (TFile.extension file)) then ret tt
          else
            match generateNewName renderTemplate settings (env_fileCache env) file activeFile with
            | None => throw NoValue
            | Some g =>
                if negb (Generated.isMeaningful g) then new_Notice NotMeaningful
                else
                  renameFile file (Generated.newName g) (TFile.path activeFile) false;;
                  batchRenameAllImages_loop activeFile rest
            end
      end
  end.

Definition batchRenameAllImages : M unit :=
  match env_activeFile env, env_fileCache env with
  | Some activeFile, Some fileCache =>
      match embeds fileCache with
      | Some links => batchRenameAllImages_loop activeFile links
      | None => ret tt
      end
  | _, _ => ret tt
  end.

End Plugin.

(** ** The numbering rule in the words of the spec

    "A sibling matches if, after stripping the policy's delimiter and a
    run of digits either as a prefix or suffix, the remaining literal
    stem equals [stem] exactly." *)

(** The run of digits [d] with [s = d ++ tail], if there is one. *)
Fixpoint digits_before (tail s : str) : option str :=
  if Str.eqb s tail then Some []
  else match s with
       | c :: s' =>
           if Str.is_digit c then
             match digits_before tail s' with
             | Some d => Some (c :: d)
             | None => None
             end
           else None
       | [] => None
       end.

(** The digits of a sibling that carries a number: [stem<delim>D.ext], or
    [D<delim>stem.ext] when the number comes first, [D] not empty. *)
Definition numbered_digits (atStart : bool) (stem delimiter ext sibling : str) : option str :=
  let found :=
    if atStart then digits_before (delimiter ++ stem ++ lit "." ++ ext) sibling
    else match Str.strip_prefix (stem ++ delimiter) sibling with
         | Some rest => digits_before (lit "." ++ ext) rest
         | None => None
         end in
  match found with
  | Some (c :: d) => Some (c :: d)
  | _ => None
  end.

(** The numbers of the numbered siblings, in the order of the listing. *)
Definition collected_numbers (atStart : bool) (stem delimiter ext : str) (siblings : list str)
    : list number :=
  omap (fun sibling =>
          match numbered_digits atStart stem delimiter ext sibling with
          | Some d => Some (parseInt (Some d))
          | None => None
          end) siblings.

(** The numbers of the numbered siblings as natural numbers, in the
    order of the listing. *)
Definition sibling_numbers (atStart : bool) (stem delimiter ext : str) (siblings : list str)
    : list N :=
  omap (fun sibling =>
          match numbered_digits atStart stem delimiter ext sibling with
          | Some d => Some (digits_value d)
          | None => None
          end) siblings.

(** "The next number is [max(collected) + 1] if any numbers were
    collected, else [1]", on the natural numbers. *)
Definition spec_next_number (collected : list N) : N :=
  match collected with
  | [] => 1%N
  | _ :: _ => (fold_right N.max 0 collected + 1)%N
  end.

(** The name with its number. *)
Definition numbered_name (atStart : bool) (stem delimiter ext : str) (n : number) : str :=
  if atStart then toString n ++ delimiter ++ stem ++ lit "." ++ ext
  else stem ++ delimiter ++ toString n ++ lit "." ++ ext.

(** [resolve] of the spec, steps 3 to 5, for the candidate [stem.ext]. *)
Definition resolve (atStart always : bool) (stem delimiter ext : str) (siblings : list str) : str :=
  let candidate := stem ++ lit "." ++ ext in
  if existsb (fun sibling => Str.eqb sibling candidate) siblings || always then
    numbered_name atStart stem delimiter ext
      (next_number (collected_numbers atStart stem delimiter ext siblings))
  else candidate.

(** No character of [s] has a meaning in a pattern: [s] stands for
    itself where it is put into the text of a regular expression. *)
Definition regex_plain (s : str) : Prop := forallb (fun c => negb (is_syntax_char c)) s = true.

(** The regular expression that the text of [dupNameRegex_source]
    denotes when the extension is plain. *)
Definition digits_group (index : nat) : regex :=
  Group index (Some (lit "number")) (seq_of [Repeat 1 None true (Class false [CDigit])]).

Definition literal (s : str) : list regex := map Chr s.

Definition dup_regex (atStart : bool) (stem delimiter ext : str) : regex :=
  if atStart then
    seq_of ([Bol; digits_group 1] ++ literal delimiter
            ++ [Group 2 (Some (lit "name")) (seq_of (literal stem)); Chr "."]
            ++ literal ext ++ [Eol])
  else
    seq_of ([Bol; Group 1 (Some (lit "name")) (seq_of (literal stem))] ++ literal delimiter
            ++ [digits_group 2; Chr "."] ++ literal ext ++ [Eol]).

(** ** Settings as the settings tab changes them *)

(** [this.plugin.settings.dupNumberDelimiter = ...] *)
Definition set_dupNumberDelimiter (d : str) (s : PluginSettings) : PluginSettings :=
  {| imageNamePattern := imageNamePattern s; dupNumberAtStart := dupNumberAtStart s;
     dupNumberDelimiter := d; dupNumberAlways := dupNumberAlways s;
     autoRename := autoRename s; handleAllAttachments := handleAllAttachments s;
     excludeExtensionPattern := excludeExtensionPattern s;
     disableRenameNotice := disableRenameNotice s;
     enableCompression := enableCompression s; maxWidth := maxWidth s;
     maxHeight := maxHeight s; jpgQuality := jpgQuality s; webpQuality := webpQuality s;
     avifQuality := avifQuality s; outputFormat := outputFormat s;
     smartFormatSelection := smartFormatSelection s |}.

(** [this.plugin.settings.handleAllAttachments = ...] and
    [this.plugin.settings.excludeExtensionPattern = ...] *)
Definition set_handleAllAttachments (b : bool) (pattern : str) (s : PluginSettings)
    : PluginSettings :=
  {| imageNamePattern := imageNamePattern s; dupNumberAtStart := dupNumberAtStart s;
     dupNumberDelimiter := dupNumberDelimiter s; dupNumberAlways := dupNumberAlways s;
     autoRename := autoRename s; handleAllAttachments := b;
     excludeExtensionPattern := pattern;
     disableRenameNotice := disableRenameNotice s;
     enableCompression := enableCompression s; maxWidth := maxWidth s;
     maxHeight := maxHeight s; jpgQuality := jpgQuality s; webpQuality := webpQuality s;
     avifQuality := avifQuality s; outputFormat := outputFormat s;
     smartFormatSelection := smartFormatSelection s |}.

(** [this.plugin.settings.dupNumberAtStart = ...] and
    [this.plugin.settings.dupNumberAlways = ...] *)
Definition set_dupNumber (atStart always : bool) (s : PluginSettings) : PluginSettings :=
  {| imageNamePattern := imageNamePattern s; dupNumberAtStart := atStart;
     dupNumberDelimiter := dupNumberDelimiter s; dupNumberAlways := always;
     autoRename := autoRename s; handleAllAttachments := handleAllAttachments s;
     excludeExtensionPattern := excludeExtensionPattern s;
     disableRenameNotice := disableRenameNotice s;
     enableCompression := enableCompression s; maxWidth := maxWidth s;
     maxHeight := maxHeight s; jpgQuality := jpgQuality s; webpQuality := webpQuality s;
     avifQuality := avifQuality s; outputFormat := outputFormat s;
     smartFormatSelection := smartFormatSelection s |}.

(** The name [deduplicateNewName] returns, if it returns. *)
Definition resolved_name (settings : PluginSettings) (siblings : list str) (newName : str)
    : option str :=
  match deduplicateNewName settings siblings newName with
  | Some o => Some (NameObj.name o)
  | None => None
  end.

(** ** The meaningfulness test in the words of the spec

    "The stem, after removing every occurrence of whitespace and the
    configured delimiter character." *)
Definition strip_meaningless (delimiter stem : str) : str :=
  List.filter (fun c => negb (Str.is_space c || existsb (Ascii.eqb c) delimiter)) stem.

(** A delimiter whose characters stand for themselves inside a character
    class: the default ["-"], or text without [\], [\]], [^] and [-]. *)
Definition class_plain (delimiter : str) : Prop :=
  delimiter = lit "-"
  \/ forallb (fun c => negb (existsb (Ascii.eqb c) (lit "]\^-"))) delimiter = true.

(** ** Inputs of the examples *)

Definition folder (path : str) : TFolder.t :=
  {| TFolder.path := path; TFolder.name := Path.filename path |}.

(** A document [notes/note.md] and attachments of the folder [img]. *)
Definition note_md : TFile.t := Path.to_TFile (lit "notes/note.md").
Definition foo_png : TFile.t := Path.to_TFile (lit "img/foo.png").
Definition bar_png : TFile.t := Path.to_TFile (lit "img/bar.png").

(** An environment with an active document and editor, a canvas that
    re-encodes everything to the bytes [WEBP], and the I/O faults
    [fault]. *)
Definition example_env (fault : vault_op -> bool) : Env :=
  {| env_activeFile := Some note_md;
     env_hasEditor := true;
     env_fileCache := None;
     env_linkDest := fun _ => None;
     env_compressBlob := fun _ _ => Some (lit "WEBP");
     env_fault := fault |}.

Definition no_fault : vault_op -> bool := fun _ => false.

(** A pasted image, created at time 5000. *)
Definition pasted_png : TFile.t :=
  {| TFile.path := lit "Pasted image 20240101.png"; TFile.name := lit "Pasted image 20240101.png";
     TFile.basename := lit "Pasted image 20240101"; TFile.extension := lit "png";
     TFile.parent := folder (lit "/"); TFile.ctime := 5000 |}.

(** An attachment [name] of the root folder, created at time [ctime]. *)
Definition attachment (name : str) (ctime : Z) : TFile.t :=
  {| TFile.path := name; TFile.name := name;
     TFile.basename := match Str.last_dot name with Some i => firstn i name | None => name end;
     TFile.extension := match Str.last_dot name with Some i => skipn (S i) name | None => [] end;
     TFile.parent := folder (lit "/"); TFile.ctime := ctime |}.

(** A document that was not pasted, created at time 5000. *)
Definition report_pdf : TFile.t := attachment (lit "report.pdf") 5000.

(** The two tasks of a batch: [foo.png] to [a.png], [bar.png] to [b.png]. *)
Definition two_tasks : list RenameTask :=
  [ {| task_file := foo_png; task_name := lit "a.png" |};
    {| task_file := bar_png; task_name := lit "b.png" |} ].

(** The vault rejects every rename of [img/foo.png]. *)
Definition foo_png_locked : vault_op -> bool :=
  fun op => match op with
            | OpRename from _ => Str.eqb from (lit "img/foo.png")
            | _ => false
            end.

Definition world_of (fs : gmap str str) : World :=
  {| files := fs; notices := []; modals := []; isProcessingCompression := false |}.

(** [img] holds [foo.png] and, already, a [foo.webp]. *)
Definition vault_png_and_webp : gmap str str :=
  <[lit "img/foo.png" := lit "PNG"]> (<[lit "img/foo.webp" := lit "OLD"]> ∅).

(** [img] holds [foo.png] and [bar.png]. *)
Definition vault_two_images : gmap str str :=
  <[lit "img/foo.png" := lit "FOO"]> (<[lit "img/bar.png" := lit "BAR"]> ∅).

(** ** Text replacement with a replacement string *)

(** [s.includes(w)] *)
Fixpoint includes (w s : str) : bool :=
  Str.startsWith w s
  || match s with
     | [] => false
     | _ :: s' => includes w s'
     end.

(** [c.toLowerCase()] on the code units below 256: the letters [A] to
    [Z] and the capital letters of Latin-1 (192 to 222 without the
    multiplication sign, 215) move up by 32. *)
Definition toLowerCase_char (c : ascii) : ascii :=
  let n := nat_of_ascii c in
  if ((65 <=? n) && (n <=? 90)) || ((192 <=? n) && (n <=? 222) && negb (n =? 215))
  then ascii_of_nat (n + 32) else c.

(** [s.toLowerCase()] *)
Definition toLowerCase (s : str) : str := map toLowerCase_char s.

(** No group, named or not, occurs in the regular expression. *)
Fixpoint groupless (r : regex) : bool :=
  match r with
  | Group _ _ _ => false
  | Seq a b | Alt a b => groupless a && groupless b
  | Repeat _ _ _ a | Look _ _ a | Modified _ _ a => groupless a
  | _ => true
  end.

(** What a replacement string stands for at one match of a regular
    expression without groups (GetSubstitution): [$$] is a dollar, [$&]
    the matched text, [$`] the text before the match and [$'] the text
    after it; any other dollar stands for itself, since there is no
    group that [$1] or [$<name>] could name. *)
Fixpoint expand (replacement matched before after : str) : str :=
  match replacement with
  | [] => []
  | x :: rest =>
      if Ascii.eqb x "$" then
        match rest with
        | c :: rest' =>
            if Ascii.eqb c "$" then "$"%char :: expand rest' matched before after
            else if Ascii.eqb c "&" then matched ++ expand rest' matched before after
            else if Ascii.eqb c "`" then before ++ expand rest' matched before after
            else if Ascii.eqb c "'" then after ++ expand rest' matched before after
            else "$"%char :: expand rest matched before after
        | [] => ["$"%char]
        end
      else x :: expand rest matched before after
  end.

(** [s.replace(regex, replacement)] with the [g] flag, the replacement
    string expanded at every match; [before] is the text already
    passed.  Matches are looked for from left to right, each after the
    end of the one before; after an empty match the search moves on by
    one character. *)
Fixpoint replace_pattern_from (fuel : nat) (ml : bool) (r : regex) (replacement : str)
    (before s : str) : str :=
  match fuel with
  | 0 => s
  | S f =>
      match matcher (flags_of ml) true r accept (rev before) s [] with
      | Some (s', _) =>
          let matched := firstn (length s - length s') s in
          if length s' <? length s then
            expand replacement matched before s'
              ++ replace_pattern_from f ml r replacement (before ++ matched) s'
          else
            expand replacement matched before s'
              ++ match s with
                 | [] => []
                 | x :: s1 => x :: replace_pattern_from f ml r replacement (before ++ [x]) s1
                 end
      | None =>
          match s with
          | [] => []
          | x :: s1 => x :: replace_pattern_from f ml r replacement (before ++ [x]) s1
          end
      end
  end.

(** [None] for a regular expression with a group, whose replacement
    strings are not modelled. *)
Definition replace_pattern (ml : bool) (r : regex) (replacement s : str) : option str :=
  if groupless r then Some (replace_pattern_from (S (length s)) ml r replacement [] s)
  else None.

(** ** Links of the document: [replaceAllLinksInEditor] *)

(** [/[.*+?^${}()|[\]\\]/], the characters that get a backslash. *)
Definition escape_class : regex := regex_literal (lit "[.*+?^${}()|[\]\\]").

(** [text.replace(/[.*+?^${}()|[\]\\]/g, '\\$&')] *)
Definition escape_link (text : str) : option str :=
  replace_pattern false escape_class (lit "\$&") text.

(** What is done to the editor: nothing, or [editor.setValue(content)]. *)
Inductive editor_effect :=
| Untouched
| SetValue (content : str).

(** One pass of [replaceAllLinksInEditor]:
    [updatedContent.replace(new RegExp(escape(text), 'g'), newLinkText)]. *)
Definition replace_link (text newLinkText updatedContent : str) : option str :=
  escaped ← escape_link text;
  re ← RegExp escaped;
  replace_pattern false re newLinkText updatedContent.

(** [replaceAllLinksInEditor(editor, originalLinkText, newLinkText)];
    [editor] is the text of the editor, if there is an editor.  The
    result is [None] when a [new RegExp] throws. *)
Definition replaceAllLinksInEditor (editor : option str) (originalLinkText newLinkText : str)
    : option editor_effect :=
  match editor with
  | None => Some Untouched
  | Some content =>
      if Str.eqb originalLinkText newLinkText then Some Untouched
      else
        updated1 ← replace_link originalLinkText newLinkText content;
        updated2 ←
          (if includes (lit "%20") originalLinkText then
             unescapedOriginal ←
               replace_pattern false (regex_literal (lit "%20")) (lit " ") originalLinkText;
             replace_link unescapedOriginal newLinkText updated1
           else Some updated1);
        updated3 ←
          (if includes (lit " ") originalLinkText then
             encodedOriginal ←
               replace_pattern false (regex_literal (lit " ")) (lit "%20") originalLinkText;
             replace_link encodedOriginal newLinkText updated2
           else Some updated2);
        Some (if Str.eqb content updated3 then Untouched else SetValue updated3)
  end.

(** ** The parameters of the encoder *)

Definition getQualityForFormat (settings : PluginSettings) (format : str) : Q :=
  if Str.eqb format (lit "jpg") then jpgQuality settings
  else if Str.eqb format (lit "webp") then webpQuality settings
  else if Str.eqb format (lit "avif") then avifQuality settings
  else 85 # 100.

Definition getMimeType (format : str) : str :=
  if Str.eqb format (lit "jpg") then lit "image/jpeg"
  else if Str.eqb format (lit "webp") then lit "image/webp"
  else if Str.eqb format (lit "avif") then lit "image/avif"
  else if Str.eqb format (lit "png") then lit "image/png"
  else lit "image/jpeg".

(** ** The size of the canvas: [calculateDimensions] *)

(** The integer nearest to [t], the even one of two that are equally
    near. *)
Definition nearest_even (t : Q) : Z :=
  let f := Qfloor t in
  match (t - inject_Z f ?= 1 # 2)%Q with
  | Lt => f
  | Gt => (f + 1)%Z
  | Eq => if Z.even f then f else (f + 1)%Z
  end.

(** Rounding of the exact result of an operation to a double: for a
    positive [x] the nearest number with 53 significant bits, ties to
    even.  [x] is scaled by the power of two that puts it between
    [2^52] and [2^53], rounded to an integer there and scaled back.  The
    range of the exponent is not limited: the numbers of
    [calculateDimensions] neither overflow nor are subnormal.  Zero is
    exact. *)
Definition fl (x : Q) : Q :=
  if Qle_bool x 0 then x
  else
    let e0 := (Z.log2 (Qnum x) - Z.log2 (Z.pos (Qden x)) - 52)%Z in
    let e := if Qle_bool (inject_Z (2 ^ 52)) (x * 2 ^ (- e0))%Q then e0 else (e0 - 1)%Z in
    (inject_Z (nearest_even (x * 2 ^ (- e))) * 2 ^ e)%Q.

(** A quotient or product of [calculateDimensions]: a double that is
    finite and not negative, [Infinity] or [NaN]. *)
Inductive double :=
| DFinite (q : Q)
| DInfinity
| DNaN.

(** [a / b] for integers [a, b >= 0] *)
Definition quotient (a b : Z) : double :=
  if (b =? 0)%Z then (if (a =? 0)%Z then DNaN else DInfinity)
  else DFinite (fl (a # Z.to_pos b)).

(** [Math.min(a, b)] *)
Definition Math_min (a b : double) : double :=
  match a, b with
  | DNaN, _ | _, DNaN => DNaN
  | DInfinity, x | x, DInfinity => x
  | DFinite p, DFinite q => DFinite (if Qle_bool p q then p else q)
  end.

(** [n * r] for an integer [n >= 0] *)
Definition product (n : Z) (r : double) : double :=
  match r with
  | DFinite q => DFinite (fl (inject_Z n * q))
  | DInfinity => if (n =? 0)%Z then DNaN else DInfinity
  | DNaN => DNaN
  end.

(** [Math.round(x)]: the integer nearest to [x], the greater one of two
    that are equally near. *)
Definition Math_round (x : double) : number :=
  match x with
  | DFinite q => Int (Z.to_N (Qfloor (q + (1 # 2))))
  | DInfinity => Infinity
  | DNaN => NaN
  end.

(** [calculateDimensions(originalWidth, originalHeight)], for the width
    and the height of an image, which are integers that are not
    negative.  The result is [None] outside the range of the model:
    when [maxWidth] or [maxHeight] is negative, or one of the four
    numbers is [2^53] or more. *)
Definition calculateDimensions (settings : PluginSettings) (originalWidth originalHeight : N)
    : option (number * number) :=
  let maxWidth := maxWidth settings in
  let maxHeight := maxHeight settings in
  let in_range z := ((0 <=? z) && (z <? 2 ^ 53))%Z in
  if in_range maxWidth && in_range maxHeight
     && in_range (Z.of_N originalWidth) && in_range (Z.of_N originalHeight)
  then
    if ((Z.of_N originalWidth <=? maxWidth) && (Z.of_N originalHeight <=? maxHeight))%Z
    then Some (Int originalWidth, Int originalHeight)
    else
      let widthRatio := quotient maxWidth (Z.of_N originalWidth) in
      let heightRatio := quotient maxHeight (Z.of_N originalHeight) in
      let ratio := Math_min widthRatio heightRatio in
      Some (Math_round (product (Z.of_N originalWidth) ratio),
            Math_round (product (Z.of_N originalHeight) ratio))
  else None.

(** ** The rename modal *)

(** [doRename] of the rename modal, for the stem in the input field, the
    format of the dropdown and the extension of the file: the name and
    the format handed to [renameFunc] ([None] for [undefined]). *)
Definition doRename (stem selectedFormat ext : str) : str * option str :=
  let finalName := stem ++ lit "." ++ match selectedFormat with
                                      | [] => ext
                                      | _ :: _ => selectedFormat
                                      end in
  (finalName, if negb (Str.eqb selectedFormat ext) then Some selectedFormat else None).

(** ** Batch conversion: [batchConvertAllImages] *)

(** [/jpe?g|png|gif|tiff|webp|avif/i.exec(ext)] finds a match: one of
    the words occurs in [ext], whatever the case of its letters. *)
Definition imageExtensionRegex_matches (ext : str) : bool :=
  existsb (fun w => Str.contains_ci w ext)
    [lit "jpg"; lit "jpeg"; lit "png"; lit "gif"; lit "tiff"; lit "webp"; lit "avif"].

Section Conversion.

Variable renderTemplate : str -> RenderContext -> option (gmap str str) -> str.
Variable env : Env.
Variable settings : PluginSettings.
Variable probe : Probe.

(** What is done with the file [compressToFormat] returned: a name is
    generated for it, deduplicated, and the file is renamed to it.  The
    links of the document are rewritten afterwards by
    [replaceAllLinksInEditor]; the text of the document is not part of
    the world. *)
Definition rename_converted (compressedFile activeFile : TFile.t) : M str :=
  match generateNewName renderTemplate settings (env_fileCache env) compressedFile activeFile with
  | None => throw NoValue
  | Some g =>
      o <- this_deduplicateNewName settings (Generated.newName g) compressedFile;;
      let finalName := NameObj.stem o ++ lit "." ++ NameObj.extension o in
      let finalPath := TFolder.path (TFile.parent compressedFile) ++ lit "/" ++ finalName in
      fileManager_renameFile env compressedFile finalPath;;
      ret finalName
  end.

(** The loop of [batchConvertAllImages] over the embeds; the result is
    [convertedCount]. *)
Fixpoint batchConvertAllImages_loop (activeFile : TFile.t) (links : list str)
    (convertedCount : N) : M N :=
  match links with
  | [] => ret convertedCount
  | link :: rest =>
      match env_linkDest env link with
      | None => batchConvertAllImages_loop activeFile rest convertedCount
      | Some file =>
          if negb (imageExtensionRegex_matches (TFile.extension file))
          then batchConvertAllImages_loop activeFile rest convertedCount
          else
            let optimalFormat := getOptimalDefaultFormat settings probe (TFile.extension file) in
            if Str.eqb (toLowerCase (TFile.extension file)) (toLowerCase optimalFormat)
            then batchConvertAllImages_loop activeFile rest convertedCount
            else
              compressedFile <- compressToFormat env file optimalFormat;;
              match compressedFile with
              | Some cf =>
                  rename_converted cf activeFile;;
                  batchConvertAllImages_loop activeFile rest (convertedCount + 1)
              | None => batchConvertAllImages_loop activeFile rest convertedCount
              end
      end
  end.

(** [batchConvertAllImages()]: [Some n] when the closing notice
    [Batch conversion complete: n images converted to optimal format] is
    shown, [None] when the method returns before the loop. *)
Definition batchConvertAllImages : M (option N) :=
  match env_activeFile env, env_fileCache env with
  | Some activeFile, Some fileCache =>
      match embeds fileCache with
      | Some links =>
          convertedCount <- batchConvertAllImages_loop activeFile links 0;;
          ret (Some convertedCount)
      | None => ret None
      end
  | _, _ => ret None
  end.

End Conversion.

(** ** The batch conversion modal: [matchImageNames] *)

Record ConversionTask := { conv_file : TFile.t; conv_targetFormat : str }.

Record ConversionState := {
  cs_namePattern : str;
  cs_extPattern : str;
  cs_targetFormat : str;
  cs_conversionTasks : list ConversionTask
}.

(** The body of the [forEach] of [matchImageNames]: the task of one
    embed, if it gets one. *)
Definition conversion_task (env : Env) (state : ConversionState)
    (namePatternRegex extPatternRegex : regex) (link : str) : option ConversionTask :=
  match env_linkDest env link with
  | None => None
  | Some file =>
      if negb (imageExtensionRegex_matches (TFile.extension file)) then None
      else if negb (is_nil (cs_extPattern state))
              && negb (test false extPatternRegex (TFile.extension file)) then None
      else if negb (test false namePatternRegex (TFile.basename file)) then None
      else if Str.eqb (toLowerCase (TFile.extension file)) (toLowerCase (cs_targetFormat state))
      then None
      else Some {| conv_file := file; conv_targetFormat := cs_targetFormat state |}
  end.

(** [matchImageNames(tbodyEl)] of the batch conversion modal, on the
    state of the modal: the state afterwards, [None] when a
    [new RegExp] throws.  The pattern of the name is matched from the
    start of the stem ([lastIndex] is reset before every [exec]). *)
Definition matchImageNames (env : Env) (state : ConversionState) : option ConversionState :=
  match env_fileCache env with
  | None => Some state
  | Some fileCache =>
      match embeds fileCache with
      | None => Some state
      | Some links =>
          namePatternRegex ← RegExp (cs_namePattern state);
          extPatternRegex ← RegExp (cs_extPattern state);
          Some {| cs_namePattern := cs_namePattern state;
                  cs_extPattern := cs_extPattern state;
                  cs_targetFormat := cs_targetFormat state;
                  cs_conversionTasks :=
                    omap (conversion_task env state namePatternRegex extPatternRegex) links |}
      end
  end.

(** [this.plugin.settings.enableCompression = ...] *)
Definition set_enableCompression (b : bool) (s : PluginSettings) : PluginSettings :=
  {| imageNamePattern := imageNamePattern s; dupNumberAtStart := dupNumberAtStart s;
     dupNumberDelimiter := dupNumberDelimiter s; dupNumberAlways := dupNumberAlways s;
     autoRename := autoRename s; handleAllAttachments := handleAllAttachments s;
     excludeExtensionPattern := excludeExtensionPattern s;
     disableRenameNotice := disableRenameNotice s;
     enableCompression := b; maxWidth := maxWidth s;
     maxHeight := maxHeight s; jpgQuality := jpgQuality s; webpQuality := webpQuality s;
     avifQuality := avifQuality s; outputFormat := outputFormat s;
     smartFormatSelection := smartFormatSelection s |}.

(** ** Inputs of further examples *)

(** An environment like [example_env], without faults, whose canvas
    produces nothing: [compressBlob] resolves to null. *)
Definition null_encoder_env : Env :=
  {| env_activeFile := Some note_md;
     env_hasEditor := true;
     env_fileCache := None;
     env_linkDest := fun _ => None;
     env_compressBlob := fun _ _ => None;
     env_fault := no_fault |}.

(** A document with three embeds: [foo.png], a manual that is not an
    image, and [bar.png]. *)
Definition manual_pdf : TFile.t := Path.to_TFile (lit "img/manual.pdf").

Definition album_links : list str := [lit "foo.png"; lit "manual.pdf"; lit "bar.png"].

Definition album_env : Env :=
  {| env_activeFile := Some note_md;
     env_hasEditor := true;
     env_fileCache := Some {| frontmatter := None; headings := None;
                              embeds := Some album_links |};
     env_linkDest := fun link =>
                       if Str.eqb link (lit "foo.png") then Some foo_png
                       else if Str.eqb link (lit "bar.png") then Some bar_png
                       else if Str.eqb link (lit "manual.pdf") then Some manual_pdf
                       else None;
     env_compressBlob := fun _ _ => Some (lit "WEBP");
     env_fault := no_fault |}.

(** [renderTemplate] for the pattern [{{fileName}}] alone: the name of
    the document. *)
Definition render_fileName (pattern : str) (ctx : RenderContext) (fm : option (gmap str str))
    : str := ctx_fileName ctx.

(** [img] holds [foo.png], [manual.pdf] and [bar.png]. *)
Definition vault_album : gmap str str :=
  <[lit "img/foo.png" := lit "FOO"]>
    (<[lit "img/manual.pdf" := lit "PDF"]> (<[lit "img/bar.png" := lit "BAR"]> ∅)).

(** ** Plain descriptions of what the text operations compute *)

(** The text [s] with every occurrence of [old] replaced by [new], from
    left to right, an occurrence that starts inside a replaced one left
    out; [skip] characters of a replaced occurrence are still to be
    passed.  An empty [old] occurs before every character and at the
    end. *)
Fixpoint substitute_go (old new : str) (skip : nat) (s : str) : str :=
  match s with
  | [] => if is_nil old then new else []
  | x :: s' =>
      match skip with
      | S k => substitute_go old new k s'
      | 0 =>
          if Str.startsWith old s then
            new ++ match length old with
                   | 0 => x :: substitute_go old new 0 s'
                   | S k => substitute_go old new k s'
                   end
          else x :: substitute_go old new 0 s'
      end
  end.

Definition substitute (old new s : str) : str := substitute_go old new 0 s.

(** The text [s] with what follows its last dot, and that dot, replaced
    by [repl], when something follows the last dot. *)
Definition replace_extension (repl s : str) : str :=
  match Str.last_dot s with
  | Some i => if S i <? length s then firstn i s ++ repl else s
  | None => s
  end.

(** A character other than the dot: the class [[^.]]. *)
Definition not_dot (x : ascii) : bool := negb (Ascii.eqb x ".").

(** No dollar occurs in a replacement string: it stands for itself. *)
Definition dollar_free (s : str) : Prop := ~ In "$"%char s.

(** The unit roundoff of doubles, [2^-53]: the relative error of one
    rounding is at most this. *)
Definition unit_roundoff : Q := 1 # 9007199254740992.
(** ** Auxiliary definitions of the proofs *)

(** What one sibling adds to [dupNameNumbers] in the loop. *)
Definition contribution (dupNameRegex : regex) (newName sibling : str) : option number :=
  if Str.eqb sibling newName then None
  else match exec false dupNameRegex sibling with
       | Some mr => Some (parseInt (lookup_group (lit "number") (groups mr)))
       | None => None
       end.

(** A continuation that accepts exactly the rest [tail]. *)
Definition accepts_only (tail : str) (f : caps -> caps) (k : cont) : Prop :=
  forall b s c, k b s c = if Str.eqb s tail then Some ([], f c) else None.

(** The captures of a match of the numbering pattern, and its named
    groups. *)
Definition dup_caps (atStart : bool) (stem d : str) : caps :=
  if atStart then [(2, stem); (1, d)] else [(2, d); (1, stem)].

Definition dup_groups (atStart : bool) (stem d : str) : groups_t :=
  if atStart then [(lit "number", d); (lit "name", stem)]
  else [(lit "name", stem); (lit "number", d)].

(** What a text leaves for a quantifier that follows it. *)
Definition after_text (s : str) (lst : last) : last :=
  match s with [] => lst | _ :: _ => LAtom end.

Abbreviation digit_class := (Class false [CDigit]).


(** [new RegExp(pattern).exec(s)] for the examples: [None] when the
    pattern is rejected; otherwise [Some None] when nothing matches and
    else the index of the match, the matched text and what the groups
    [1], [2], ... captured. *)
Definition exec_pattern (ml : bool) (pattern s : str)
    : option (option (nat * str * list (option str))) :=
  match RegExp pattern with
  | None => None
  | Some r =>
      Some match exec ml r s with
           | None => None
           | Some m =>
               Some (index m, matched m,
                     map (fun i => lookup_cap i (captures m))
                       (seq 1 (length (prescan 0 false pattern))))
           end
  end.
(* ================================================================== *)
(** * Part II. Lemmas and theorems                                     *)
(* ================================================================== *)

(** ** Strings *)

Lemma Str_eqb_eq (a b : str) : Str.eqb a b = true <-> a = b.
Proof.
  revert b; induction a as [|x a IH]; intros [|y b]; simpl; split; try congruence; try easy.
  - intros H. apply andb_true_iff in H as [H1 H2].
    apply Ascii.eqb_eq in H1. apply IH in H2. congruence.
  - intros H. injection H as -> ->. rewrite Ascii.eqb_refl. simpl. now apply IH.
Qed.

Lemma Str_eqb_refl (a : str) : Str.eqb a a = true.
Proof. now apply Str_eqb_eq. Qed.

Lemma Str_eqb_neq (a b : str) : Str.eqb a b = false <-> a <> b.
Proof.
  split.
  - intros H E. apply Str_eqb_eq in E. congruence.
  - intros H. destruct (Str.eqb a b) eqn:E; [|reflexivity].
    apply Str_eqb_eq in E. contradiction.
Qed.

Lemma strip_prefix_app (p s : str) : Str.strip_prefix p (p ++ s) = Some s.
Proof. induction p as [|a p IH]; simpl; [reflexivity|]. now rewrite Ascii.eqb_refl. Qed.

Lemma strip_prefix_Some (p s r : str) : Str.strip_prefix p s = Some r -> s = p ++ r.
Proof.
  revert s; induction p as [|a p IH]; intros [|b s]; simpl; try congruence.
  destruct (Ascii.eqb a b) eqn:E; [|congruence].
  apply Ascii.eqb_eq in E. subst b. intros H. f_equal. now apply IH.
Qed.
(** ** The parser on plain and on escaped text *)

Lemma parse_go_skip g l stack alts cur lst n p :
  parse_go g (length l) stack alts cur lst n (l ++ p) = parse_go g 0 stack alts cur lst n p.
Proof. induction l as [|x l IH]; [reflexivity|]. exact IH. Qed.

Lemma not_syntax_char c :
  is_syntax_char c = false ->
  Ascii.eqb c "\" = false /\ Ascii.eqb c "(" = false /\ Ascii.eqb c ")" = false
  /\ Ascii.eqb c "|" = false /\ Ascii.eqb c "*" = false /\ Ascii.eqb c "+" = false
  /\ Ascii.eqb c "?" = false /\ Ascii.eqb c "{" = false /\ Ascii.eqb c "^" = false
  /\ Ascii.eqb c "$" = false /\ Ascii.eqb c "." = false /\ Ascii.eqb c "[" = false
  /\ Ascii.eqb c "]" = false /\ Ascii.eqb c "}" = false.
Proof.
  intros H. unfold is_syntax_char in H. cbn in H.
  repeat (apply orb_false_iff in H as [? H]).
  repeat split; assumption.
Qed.

Lemma parse_plain_char g stack alts cur lst n c p :
  is_syntax_char c = false ->
  parse_go g 0 stack alts cur lst n (c :: p) = parse_go g 0 stack alts (Chr c :: cur) LAtom n p.
Proof.
  intros H. apply not_syntax_char in H.
  destruct H as (H1 & H2 & H3 & H4 & H5 & H6 & H7 & H8 & H9 & H10 & H11 & H12 & _).
  cbn [parse_go].
  now rewrite H1, H2, H3, H4, H5, H6, H7, H8, H9, H10, H11, H12.
Qed.

Lemma is_syntax_char_cases c :
  is_syntax_char c = true -> In c (lit ".*+?^${}()|[]\").
Proof.
  intros H. unfold is_syntax_char, syntax_chars in H.
  apply existsb_exists in H as (x & Hin & Hx).
  apply Ascii.eqb_eq in Hx. now subst x.
Qed.

Lemma atom_escape_syntax g c p :
  is_syntax_char c = true -> atom_escape g (c :: p) = Some (Chr c, LAtom, 1).
Proof.
  intros H. apply is_syntax_char_cases in H. cbn in H.
  repeat (destruct H as [<-|H]; [reflexivity|]).
  destruct H.
Qed.

Lemma parse_escaped_char g stack alts cur lst n c p :
  is_syntax_char c = true ->
  parse_go g 0 stack alts cur lst n ("\"%char :: c :: p)
  = parse_go g 0 stack alts (Chr c :: cur) LAtom n p.
Proof.
  intros H. cbn [parse_go]. cbn [Ascii.eqb Bool.eqb andb].
  now rewrite (atom_escape_syntax g c p H).
Qed.

Lemma parse_escapeRegExp g stack alts cur lst n s p :
  parse_go g 0 stack alts cur lst n (escapeRegExp s ++ p)
  = parse_go g 0 stack alts (rev (literal s) ++ cur) (after_text s lst) n p.
Proof.
  revert cur lst; induction s as [|c s IH]; intros cur lst; [reflexivity|].
  unfold escapeRegExp in *. cbn [flat_map literal map rev after_text].
  rewrite <- !app_assoc. cbn [app].
  assert (Hstep : parse_go g 0 stack alts cur lst n
                    ((if is_syntax_char c then ["\"%char; c] else [c])
                     ++ flat_map (fun c => if is_syntax_char c then ["\"%char; c] else [c]) s ++ p)
                  = parse_go g 0 stack alts (Chr c :: cur) LAtom n
                      (flat_map (fun c => if is_syntax_char c then ["\"%char; c] else [c]) s ++ p)).
  { destruct (is_syntax_char c) eqn:E; cbn [app].
    - now apply parse_escaped_char.
    - now apply parse_plain_char. }
  rewrite Hstep, IH. now destruct s.
Qed.

Lemma parse_plain g stack alts cur lst n s p :
  regex_plain s ->
  parse_go g 0 stack alts cur lst n (s ++ p)
  = parse_go g 0 stack alts (rev (literal s) ++ cur) (after_text s lst) n p.
Proof.
  unfold regex_plain.
  revert cur lst; induction s as [|c s IH]; intros cur lst H; [reflexivity|].
  cbn in H. apply andb_true_iff in H as [Hc Hs]. apply negb_true_iff in Hc.
  cbn [app literal map rev after_text]. rewrite parse_plain_char by assumption.
  rewrite <- app_assoc. cbn [app].
  rewrite IH by assumption. now destruct s.
Qed.

(** ** The groups of a pattern text *)

Lemma prescan_plain_char c p :
  is_syntax_char c = false -> prescan 0 false (c :: p) = prescan 0 false p.
Proof.
  intros H. apply not_syntax_char in H.
  destruct H as (H1 & H2 & _ & _ & _ & _ & _ & _ & _ & _ & _ & H12 & _).
  cbn [prescan]. now rewrite H1, H12, H2.
Qed.

Lemma prescan_escapeRegExp s p :
  prescan 0 false (escapeRegExp s ++ p) = prescan 0 false p.
Proof.
  induction s as [|c s IH]; [reflexivity|].
  unfold escapeRegExp in *. cbn [flat_map]. rewrite <- app_assoc.
  destruct (is_syntax_char c) eqn:E; cbn [app].
  - cbn [prescan Ascii.eqb Bool.eqb andb]. exact IH.
  - rewrite prescan_plain_char by assumption. exact IH.
Qed.

Lemma prescan_plain s p :
  regex_plain s -> prescan 0 false (s ++ p) = prescan 0 false p.
Proof.
  unfold regex_plain. induction s as [|c s IH]; intros H; [reflexivity|].
  cbn in H. apply andb_true_iff in H as [Hc Hs]. apply negb_true_iff in Hc.
  cbn [app]. rewrite prescan_plain_char by assumption. now apply IH.
Qed.

(** ** Groups of a sequence of literal characters *)

Lemma group_names_literal l rest :
  group_names (seq_of (literal l ++ rest)) = group_names (seq_of rest).
Proof. induction l as [|a l IH]; [reflexivity|]. exact IH. Qed.

Lemma names_ok_literal l rest :
  names_ok (seq_of (literal l ++ rest)) = names_ok (seq_of rest).
Proof.
  induction l as [|a l IH]; [reflexivity|].
  change (names_ok (Seq (Chr a) (seq_of (literal l ++ rest))) = names_ok (seq_of rest)).
  cbn [names_ok group_names existsb andb negb]. now rewrite andb_true_r.
Qed.

Lemma groups_of_literal l rest :
  groups_of (seq_of (literal l ++ rest)) = groups_of (seq_of rest).
Proof. induction l as [|a l IH]; [reflexivity|]. exact IH. Qed.

(** ** The pattern of the numbered names *)

Lemma prescan_dupNameRegex atStart stem delimiter ext :
  regex_plain ext ->
  prescan 0 false
    (dupNameRegex_source atStart (escapeRegExp stem) (escapeRegExp delimiter) ext)
  = if atStart then [Some (lit "number"); Some (lit "name")]
    else [Some (lit "name"); Some (lit "number")].
Proof.
  intros Hext. unfold dupNameRegex_source. destruct atStart.
  - cbn -[escapeRegExp]. rewrite prescan_escapeRegExp.
    cbn -[escapeRegExp]. rewrite prescan_escapeRegExp.
    cbn. rewrite prescan_plain by assumption. reflexivity.
  - cbn -[escapeRegExp]. rewrite prescan_escapeRegExp.
    cbn -[escapeRegExp]. rewrite prescan_escapeRegExp.
    cbn. rewrite prescan_plain by assumption. reflexivity.
Qed.

Lemma group_names_cons a l :
  group_names (seq_of (a :: l)) = group_names a ++ group_names (seq_of l).
Proof. reflexivity. Qed.

Lemma names_ok_cons a l :
  names_ok (seq_of (a :: l))
  = names_ok a && names_ok (seq_of l)
    && negb (existsb (fun e => has_name (snd e) (group_names (seq_of l))) (group_names a)).
Proof. reflexivity. Qed.

Lemma group_names_literal_only l : group_names (seq_of (literal l)) = [].
Proof. rewrite <- (app_nil_r (literal l)). now rewrite group_names_literal. Qed.

Lemma names_ok_literal_only l : names_ok (seq_of (literal l)) = true.
Proof. rewrite <- (app_nil_r (literal l)). now rewrite names_ok_literal. Qed.

Lemma names_ok_dup_regex atStart stem delimiter ext :
  names_ok (dup_regex atStart stem delimiter ext) = true.
Proof.
  unfold dup_regex, digits_group. destruct atStart; cbn [app].
  - rewrite !names_ok_cons, !group_names_cons, !names_ok_literal, !group_names_literal.
    rewrite !names_ok_cons, !group_names_cons, !names_ok_literal, !group_names_literal.
    cbn [names_ok group_names]. rewrite names_ok_literal_only, group_names_literal_only.
    reflexivity.
  - rewrite !names_ok_cons, !group_names_cons, !names_ok_literal, !group_names_literal.
    rewrite !names_ok_cons, !group_names_cons, !names_ok_literal, !group_names_literal.
    cbn [names_ok group_names]. rewrite names_ok_literal_only, group_names_literal_only.
    reflexivity.
Qed.

(** The pieces of the pattern text that are written out in the
    source. *)
Lemma parse_Bol g stack alts cur lst n p :
  parse_go g 0 stack alts cur lst n (lit "^" ++ p) = parse_go g 0 stack alts (Bol :: cur) LNone n p.
Proof. reflexivity. Qed.

Lemma parse_Eol_end g alts cur lst n :
  parse_go g 0 [] alts cur lst n (lit "$") = Some (alt_of alts (Eol :: cur)).
Proof. reflexivity. Qed.

Lemma parse_open_name g stack alts cur lst n p :
  parse_go g 0 stack alts cur lst n (lit "(?<name>" ++ p)
  = parse_go g 0
      ({| f_kind := KCapture (S n) (Some (lit "name")); f_alts := alts; f_cur := cur |} :: stack)
      [] [] LNone (S n) p.
Proof. reflexivity. Qed.

Lemma parse_close g fr stack alts cur lst n p :
  parse_go g 0 (fr :: stack) alts cur lst n (lit ")" ++ p)
  = parse_go g 0 stack (f_alts fr) (fst (close (f_kind fr) (alt_of alts cur)) :: f_cur fr)
      (snd (close (f_kind fr) (alt_of alts cur))) n p.
Proof. reflexivity. Qed.

Lemma parse_number_group g stack alts cur lst n p :
  parse_go g 0 stack alts cur lst n (lit "(?<number>\d+)" ++ p)
  = parse_go g 0 stack alts (digits_group (S n) :: cur) LAtom (S n) p.
Proof. reflexivity. Qed.

Lemma parse_dot g stack alts cur lst n p :
  parse_go g 0 stack alts cur lst n (lit "\." ++ p)
  = parse_go g 0 stack alts (Chr "." :: cur) LAtom n p.
Proof. reflexivity. Qed.

(** Rewrite with a lemma stated on [lit "..." ++ p], the text written
    out. *)
Ltac rw_lit L :=
  let H := fresh in
  pose proof L as H; cbn [lit list_ascii_of_string app] in H; rewrite H; clear H.

Lemma RegExp_dupNameRegex atStart stem delimiter ext :
  regex_plain ext ->
  RegExp (dupNameRegex_source atStart (escapeRegExp stem) (escapeRegExp delimiter) ext)
  = Some (dup_regex atStart stem delimiter ext).
Proof.
  intros Hext.
  assert (Hparse : parse_go (if atStart then [Some (lit "number"); Some (lit "name")]
                             else [Some (lit "name"); Some (lit "number")])
                     0 [] [] [] LNone 0
                     (dupNameRegex_source atStart (escapeRegExp stem) (escapeRegExp delimiter) ext)
                   = Some (dup_regex atStart stem delimiter ext)).
  { unfold dupNameRegex_source, dup_regex. destruct atStart.
    - cbn [lit list_ascii_of_string app].
      rw_lit parse_Bol. rw_lit parse_number_group. rewrite parse_escapeRegExp.
      rw_lit parse_open_name. rewrite parse_escapeRegExp.
      rw_lit parse_close. rw_lit parse_dot. rewrite parse_plain by assumption.
      rw_lit parse_Eol_end.
      f_equal. unfold alt_of. cbn [fold_left close fst snd f_kind f_cur f_alts].
      cbn [rev app]. rewrite !rev_app_distr. cbn [rev app]. rewrite !rev_app_distr.
      rewrite !rev_involutive. cbn [rev app]. rewrite ?app_nil_r, <- ?app_assoc. cbn [app]. rewrite <- ?app_assoc. reflexivity.
    - cbn [lit list_ascii_of_string app].
      rw_lit parse_Bol. rw_lit parse_open_name. rewrite parse_escapeRegExp.
      rw_lit parse_close. rewrite parse_escapeRegExp.
      rw_lit parse_number_group. rw_lit parse_dot. rewrite parse_plain by assumption.
      rw_lit parse_Eol_end.
      f_equal. unfold alt_of. cbn [fold_left close fst snd f_kind f_cur f_alts].
      cbn [rev app]. rewrite !rev_app_distr. cbn [rev app]. rewrite !rev_app_distr.
      rewrite !rev_involutive. cbn [rev app]. rewrite ?app_nil_r, <- ?app_assoc. cbn [app]. rewrite <- ?app_assoc. reflexivity. }
  unfold RegExp. rewrite prescan_dupNameRegex by assumption.
  rewrite Hparse. now rewrite names_ok_dup_regex.
Qed.
(** ** The matcher on the pieces of the numbering pattern *)

Lemma matcher_literal ml l rest k b s c :
  matcher (flags_of ml) true (seq_of (literal l ++ rest)) k b s c
  = match Str.strip_prefix l s with
    | Some s' => matcher (flags_of ml) true (seq_of rest) k (rev l ++ b) s' c
    | None => None
    end.
Proof.
  revert b s; induction l as [|a l IH]; intros b s; [reflexivity|].
  cbn [literal map app seq_of fold_right matcher Str.strip_prefix char_eq flags_of ignoreCase].
  destruct s as [|x s]; [reflexivity|].
  rewrite (Ascii.eqb_sym x a). destruct (Ascii.eqb a x) eqn:E; [|reflexivity].
  apply Ascii.eqb_eq in E. subst x.
  cbn [rev]. rewrite <- app_assoc. apply IH.
Qed.

Lemma strip_prefix_length p s r : Str.strip_prefix p s = Some r -> length s = length p + length r.
Proof. intros H. apply strip_prefix_Some in H. subst s. apply length_app. Qed.

Lemma firstn_strip_prefix p s r :
  Str.strip_prefix p s = Some r -> firstn (length s - length r) s = p.
Proof.
  intros H. apply strip_prefix_Some in H. subst s.
  rewrite length_app. replace (length p + length r - length r) with (length p) by lia.
  rewrite firstn_app, Nat.sub_diag, firstn_all. cbn. apply app_nil_r.
Qed.

Lemma matcher_group_literal ml i n l k b s c :
  matcher (flags_of ml) true (Group i n (seq_of (literal l))) k b s c
  = match Str.strip_prefix l s with
    | Some s' => k (rev l ++ b) s' ((i, l) :: c)
    | None => None
    end.
Proof.
  cbn [matcher]. rewrite <- (app_nil_r (literal l)). rewrite matcher_literal.
  destruct (Str.strip_prefix l s) as [s'|] eqn:E; [|reflexivity].
  cbn [seq_of fold_right matcher]. now rewrite (firstn_strip_prefix _ _ _ E).
Qed.

Lemma strip_prefix_nil_iff t s : Str.strip_prefix t s = Some [] <-> s = t.
Proof.
  split.
  - intros H. apply strip_prefix_Some in H. now rewrite app_nil_r in H.
  - intros ->. rewrite <- (app_nil_r t) at 2. apply strip_prefix_app.
Qed.

Lemma accepts_only_literal_end t :
  accepts_only t (fun c => c) (matcher (flags_of false) true (seq_of (literal t ++ [Eol])) accept).
Proof.
  intros p s c. rewrite matcher_literal.
  destruct (Str.strip_prefix t s) as [s'|] eqn:E.
  - cbn. destruct s' as [|x s'].
    + apply strip_prefix_nil_iff in E. subst s. now rewrite Str_eqb_refl.
    + destruct (Str.eqb s t) eqn:E2; [|reflexivity].
      apply Str_eqb_eq in E2. subst s.
      apply strip_prefix_length in E. cbn in E. lia.
  - destruct (Str.eqb s t) eqn:E2; [|reflexivity].
    apply Str_eqb_eq in E2. subst s.
    rewrite <- (app_nil_r t) in E at 2. rewrite strip_prefix_app in E. discriminate.
Qed.

Lemma accepts_only_literal ml l rest t f k :
  accepts_only t f (matcher (flags_of ml) true (seq_of rest) k) ->
  accepts_only (l ++ t) f (matcher (flags_of ml) true (seq_of (literal l ++ rest)) k).
Proof.
  intros Hk p s c. rewrite matcher_literal.
  destruct (Str.strip_prefix l s) as [s'|] eqn:E.
  - rewrite Hk. apply strip_prefix_Some in E. subst s.
    destruct (Str.eqb s' t) eqn:E1.
    + apply Str_eqb_eq in E1. subst. now rewrite Str_eqb_refl.
    + apply Str_eqb_neq in E1.
      destruct (Str.eqb (l ++ s') (l ++ t)) eqn:E2; [|reflexivity].
      apply Str_eqb_eq in E2. apply app_inv_head in E2. contradiction.
  - destruct (Str.eqb s (l ++ t)) eqn:E2; [|reflexivity].
    apply Str_eqb_eq in E2. subst s. rewrite strip_prefix_app in E. discriminate.
Qed.

Lemma accepts_only_group ml i n l t f k :
  accepts_only t f k ->
  accepts_only (l ++ t) (fun c => f ((i, l) :: c))
    (matcher (flags_of ml) true (Group i n (seq_of (literal l))) k).
Proof.
  intros Hk p s c. rewrite matcher_group_literal.
  destruct (Str.strip_prefix l s) as [s'|] eqn:E.
  - rewrite Hk. apply strip_prefix_Some in E. subst s.
    destruct (Str.eqb s' t) eqn:E1.
    + apply Str_eqb_eq in E1. subst. now rewrite Str_eqb_refl.
    + apply Str_eqb_neq in E1.
      destruct (Str.eqb (l ++ s') (l ++ t)) eqn:E2; [|reflexivity].
      apply Str_eqb_eq in E2. apply app_inv_head in E2. contradiction.
  - destruct (Str.eqb s (l ++ t)) eqn:E2; [|reflexivity].
    apply Str_eqb_eq in E2. subst s. rewrite strip_prefix_app in E. discriminate.
Qed.

(** ** Runs of digits *)

Lemma digits_before_Some tail s d :
  digits_before tail s = Some d -> s = d ++ tail /\ forallb Str.is_digit d = true.
Proof.
  revert d; induction s as [|x s IH]; intros d; cbn [digits_before].
  - destruct (Str.eqb [] tail) eqn:E; [|discriminate].
    apply Str_eqb_eq in E. intros [= <-]. now subst.
  - destruct (Str.eqb (x :: s) tail) eqn:E.
    + apply Str_eqb_eq in E. intros [= <-]. now subst.
    + destruct (Str.is_digit x) eqn:Hx; [|discriminate].
      destruct (digits_before tail s) as [d'|]; [|discriminate].
      intros [= <-]. destruct (IH d' eq_refl) as [-> Hd]. cbn. now rewrite Hx.
Qed.

Lemma digits_before_app tail d :
  forallb Str.is_digit d = true -> digits_before tail (d ++ tail) = Some d.
Proof.
  induction d as [|x d IH]; intros H.
  - destruct tail; cbn [app digits_before]; now rewrite Str_eqb_refl.
  - cbn in H. apply andb_true_iff in H as [Hx Hd].
    cbn [app digits_before].
    destruct (Str.eqb (x :: d ++ tail) tail) eqn:E.
    + apply Str_eqb_eq in E. apply (f_equal (@length ascii)) in E.
      cbn in E. rewrite length_app in E. lia.
    + now rewrite Hx, IH.
Qed.

Lemma digits_before_tail tail s :
  digits_before tail s = Some [] -> s = tail.
Proof. intros H. now apply digits_before_Some in H as [-> _]. Qed.

Lemma length_neq_cons {A} (x : A) (s : list A) : (length s =? length (x :: s)) = false.
Proof. apply Nat.eqb_neq. cbn. lia. Qed.

(** The greedy repetition of [\d] in front of a continuation that
    accepts one rest only. *)
Lemma star_digits ml fuel tail f k b s c :
  accepts_only tail f k -> length s <= fuel ->
  repeat_loop fuel [] (matcher (flags_of ml) true digit_class) None true k b s c
  = match digits_before tail s with
    | Some _ => Some ([], f c)
    | None => None
    end.
Proof.
  intros Hk. revert b s; induction fuel as [|fuel IH]; intros b s Hlen.
  - destruct s; [|cbn in Hlen; lia].
    cbn [repeat_loop digits_before]. rewrite Hk. now destruct (Str.eqb [] tail).
  - cbn [repeat_loop matcher clear]. destruct s as [|x s].
    + cbn [digits_before]. rewrite Hk. now destruct (Str.eqb [] tail).
    + cbn [char_in flags_of ignoreCase]. unfold in_class.
      cbn [existsb in_item xorb]. rewrite orb_false_r.
      cbn [digits_before]. rewrite Hk.
      destruct (Str.is_digit x) eqn:Hx.
      * rewrite length_neq_cons. cbn [option_map].
        rewrite IH by (cbn in Hlen; lia).
        destruct (digits_before tail s) as [d|] eqn:Ed.
        -- now destruct (Str.eqb (x :: s) tail).
        -- now destruct (Str.eqb (x :: s) tail).
      * now destruct (Str.eqb (x :: s) tail).
Qed.

Lemma matcher_digits_group ml i tail f k b s c :
  accepts_only tail f k ->
  matcher (flags_of ml) true (digits_group i) k b s c
  = match digits_before tail s with
    | Some (x :: d) => Some ([], f ((i, x :: d) :: c))
    | _ => None
    end.
Proof.
  intros Hk. unfold digits_group. cbn [matcher seq_of fold_right groups_of].
  change (N.to_nat 1) with 1. cbn [repeat_min matcher clear option_map].
  destruct s as [|x s].
  - cbn [digits_before]. now destruct (Str.eqb [] tail).
  - cbn [char_in flags_of ignoreCase]. unfold in_class.
    cbn [existsb in_item xorb]. rewrite orb_false_r.
    cbn [digits_before].
    destruct (Str.eqb (x :: s) tail) eqn:E0.
    + (* the rest is the tail itself: no digit can be taken *)
      apply Str_eqb_eq in E0.
      destruct (Str.is_digit x) eqn:Hx; [|reflexivity].
      rewrite (star_digits ml (length s) tail
                 (fun c' => f ((i, firstn (length (x :: s) - length tail) (x :: s)) :: c'))).
      * destruct (digits_before tail s) as [d|] eqn:Ed; [|reflexivity].
        apply digits_before_Some in Ed as [Ed _]. apply (f_equal (@length ascii)) in Ed.
        rewrite <- E0 in Ed. rewrite length_app in Ed. cbn in Ed. lia.
      * intros p s' c'. rewrite Hk. destruct (Str.eqb s' tail) eqn:E1; [|reflexivity].
        apply Str_eqb_eq in E1. now subst s'.
      * lia.
    + destruct (Str.is_digit x) eqn:Hx; [|reflexivity].
      rewrite (star_digits ml (length s) tail
                 (fun c' => f ((i, firstn (length (x :: s) - length tail) (x :: s)) :: c'))).
      * destruct (digits_before tail s) as [d|] eqn:Ed; [|reflexivity].
        apply digits_before_Some in Ed as [Ed _]. subst s.
        replace (length (x :: d ++ tail) - length tail) with (length (x :: d))
          by (cbn; rewrite length_app; lia).
        change (x :: d ++ tail) with ((x :: d) ++ tail).
        rewrite firstn_app, Nat.sub_diag, firstn_all. cbn [firstn]. now rewrite app_nil_r.
      * intros p s' c'. rewrite Hk. destruct (Str.eqb s' tail) eqn:E1; [|reflexivity].
        apply Str_eqb_eq in E1. now subst s'.
      * lia.
Qed.

(** ** The numbering pattern on a sibling *)

Lemma matcher_seq_cons fl a l k b s c :
  matcher fl true (seq_of (a :: l)) k b s c = matcher fl true a (matcher fl true (seq_of l) k) b s c.
Proof. reflexivity. Qed.

Lemma accepts_only_dot_ext ext :
  accepts_only (lit "." ++ ext) (fun c => c)
    (matcher (flags_of false) true (seq_of ([Chr "."] ++ literal ext ++ [Eol])) accept).
Proof. apply (accepts_only_literal_end (lit "." ++ ext)). Qed.

Lemma strip_prefix_app_l p q s :
  Str.strip_prefix (p ++ q) s
  = match Str.strip_prefix p s with
    | Some r => Str.strip_prefix q r
    | None => None
    end.
Proof.
  revert s; induction p as [|a p IH]; intros s; [reflexivity|].
  destruct s as [|b s]; [reflexivity|]. cbn. now destruct (Ascii.eqb a b).
Qed.

Lemma matcher_dup_regex atStart stem delimiter ext s :
  matcher (flags_of false) true (dup_regex atStart stem delimiter ext) accept [] s []
  = match numbered_digits atStart stem delimiter ext s with
    | Some d => Some ([], dup_caps atStart stem d)
    | None => None
    end.
Proof.
  unfold dup_regex, numbered_digits, dup_caps. destruct atStart.
  - cbn [app]. rewrite matcher_seq_cons. cbn [matcher]. rewrite matcher_seq_cons.
    rewrite (matcher_digits_group false 1 (delimiter ++ stem ++ lit "." ++ ext)
               (fun c => (2, stem) :: c)).
    + destruct (digits_before _ s) as [[|x d]|]; reflexivity.
    + apply accepts_only_literal. intros p s' c. cbn [app]. rewrite matcher_seq_cons.
      apply (accepts_only_group false 2 (Some (lit "name")) stem (lit "." ++ ext) (fun c => c)).
      apply accepts_only_dot_ext.
  - cbn [app]. rewrite matcher_seq_cons. cbn [matcher]. rewrite matcher_seq_cons.
    rewrite matcher_group_literal, strip_prefix_app_l.
    destruct (Str.strip_prefix stem s) as [s1|]; [|reflexivity].
    rewrite matcher_literal.
    destruct (Str.strip_prefix delimiter s1) as [s2|]; [|reflexivity].
    cbn [app]. rewrite matcher_seq_cons.
    rewrite (matcher_digits_group false 2 (lit "." ++ ext) (fun c => c)).
    + destruct (digits_before _ s2) as [[|x d]|]; reflexivity.
    + apply accepts_only_dot_ext.
Qed.

Lemma exec_from_Bol r i x b s :
  exec_from (flags_of false) (Seq Bol r) i (x :: b) s = None.
Proof.
  revert i x b; induction s as [|y s IH]; intros i x b;
    cbn [exec_from matcher andb flags_of multiline]; [reflexivity|].
  apply IH.
Qed.

Lemma dup_regex_Bol atStart stem delimiter ext :
  exists r, dup_regex atStart stem delimiter ext = Seq Bol r.
Proof. destruct atStart; eexists; reflexivity. Qed.

Lemma group_names_dup_regex atStart stem delimiter ext :
  group_names (dup_regex atStart stem delimiter ext)
  = if atStart then [(1, lit "number"); (2, lit "name")]
    else [(1, lit "name"); (2, lit "number")].
Proof.
  unfold dup_regex, digits_group. destruct atStart; cbn [app].
  - rewrite !group_names_cons, !group_names_literal.
    rewrite !group_names_cons, !group_names_literal.
    cbn [group_names]. now rewrite group_names_literal_only.
  - rewrite !group_names_cons, !group_names_literal.
    rewrite !group_names_cons, !group_names_literal.
    cbn [group_names]. now rewrite group_names_literal_only.
Qed.

Lemma named_groups_dup_regex atStart stem delimiter ext d :
  named_groups (dup_regex atStart stem delimiter ext) (dup_caps atStart stem d)
  = dup_groups atStart stem d.
Proof.
  unfold named_groups. rewrite group_names_dup_regex. now destruct atStart.
Qed.

(** [dupNameRegex.exec(sibling)] finds the numbered siblings and reads
    their digits. *)
Lemma exec_dup_regex atStart stem delimiter ext s :
  exec false (dup_regex atStart stem delimiter ext) s
  = match numbered_digits atStart stem delimiter ext s with
    | Some d => Some {| index := 0; matched := s; captures := dup_caps atStart stem d;
                        groups := dup_groups atStart stem d |}
    | None => None
    end.
Proof.
  unfold exec. destruct s as [|x s]; cbn [exec_from].
  - rewrite matcher_dup_regex.
    destruct (numbered_digits atStart stem delimiter ext []); [|reflexivity].
    now rewrite named_groups_dup_regex.
  - rewrite matcher_dup_regex.
    destruct (numbered_digits atStart stem delimiter ext (x :: s)) as [d|].
    + change (length (@nil ascii)) with 0.
      now rewrite Nat.sub_0_r, firstn_all, named_groups_dup_regex.
    + destruct (dup_regex_Bol atStart stem delimiter ext) as [r ->]. apply exec_from_Bol.
Qed.

Lemma lookup_number_dup_groups atStart stem d :
  lookup_group (lit "number") (dup_groups atStart stem d) = Some d.
Proof. destruct atStart; reflexivity. Qed.

(** ** The regular expressions of the language

    The parser and the matcher on patterns the plugin is never given by
    its own code but may be given by a setting, an extension or a file
    name: the examples of the language definition (22.2.2) and the
    corner cases of Annex B.1.2. *)

(** Texts that [new RegExp] accepts. *)
Example RegExp_accepts :
  forallb (fun p => is_some (RegExp (lit p)))
    [ "png|jpe?g"; "docx?|xlsx?|pptx?|zip|rar"; "\w+\.tmp"; "(?:a|b)*?"; "a{2,3}"; "a{2,}?";
      "(?<year>\d{4})-\k<year>"; "(?=a)*"; "(?<=a)b"; "(?<!a)b";
      "[\d-x]"; "[a-\d]"; "[]"; "[^]"; "[[]"; "a{"; "a{1"; "a{,5}"; "{"; "}"; "]";
      "\c"; "\k"; "\k<a"; "\8"; "(a)\2"; "\x4"; "\u{41}"; "[\b]"; "\-"; "\/"; ""; "|"; "()" ]%string
  = true.
Proof. vm_compute. reflexivity. Qed.

(** Texts that [new RegExp] rejects with a SyntaxError. *)
Example RegExp_rejects :
  forallb (fun p => negb (is_some (RegExp (lit p))))
    [ "("; ")"; "a)"; "(?"; "(?:"; "["; "[z-a]"; "[\]"; "\"; "*"; "+a"; "a**"; "a*??"; "a|*"; "(*)";
      "{1}"; "a{2,1}"; "a{1}{2}"; "^*"; "$+"; "\b*"; "(?<=a)*";
      "(?<n>a)(?<n>b)"; "(?<a>(?<a>b))"; "(?<a>x)\k"; "(?<a>x)\k<b>";
      "(?<1a>x)"; "(?<>x)"; "(?<a"; "(?i)"; "(?x:a)" ]%string
  = true.
Proof. vm_compute. reflexivity. Qed.

(** Of the 2025 edition: a group with modifiers, and one name for
    groups of different alternatives. *)
Example RegExp_edition_2025 :
  forallb (fun p => is_some (RegExp (lit p)))
    [ "(?i:png)"; "(?i-m:a)"; "(?-s:.)"; "(?<n>a)|(?<n>b)" ]%string = true
  /\ forallb (fun p => negb (is_some (RegExp (lit p))))
       [ "(?ii:a)"; "(?i-i:a)"; "(?-:a)"; "(?:(?<n>a)|b)(?<n>c)" ]%string = true
  /\ exec_pattern false (lit "(?i:png)") (lit "a.PNG") = Some (Some (2, lit "PNG", []))
  /\ exec_pattern false (lit "(?:(?<n>a)|(?<n>b))\k<n>") (lit "abb")
     = Some (Some (1, lit "bb", [None; Some (lit "b")])).
Proof. repeat split; vm_compute; reflexivity. Qed.

(** A disjunction tries its alternatives from left to right. *)
Example exec_alternatives :
  exec_pattern false (lit "a|ab") (lit "abc") = Some (Some (0, lit "a", []))
  /\ exec_pattern false (lit "((a)|(ab))((c)|(bc))") (lit "abc")
     = Some (Some (0, lit "abc",
                   [Some (lit "a"); Some (lit "a"); None; Some (lit "bc"); None; Some (lit "bc")])).
Proof. split; vm_compute; reflexivity. Qed.

(** Greedy and lazy repetition. *)
Example exec_quantifiers :
  exec_pattern false (lit "a[a-z]{2,4}") (lit "abcdefghi") = Some (Some (0, lit "abcde", []))
  /\ exec_pattern false (lit "a[a-z]{2,4}?") (lit "abcdefghi") = Some (Some (0, lit "abc", []))
  /\ exec_pattern false (lit "(aa|aabaac|ba|b|c)*") (lit "aabaac")
     = Some (Some (0, lit "aaba", [Some (lit "ba")])).
Proof. repeat split; vm_compute; reflexivity. Qed.

(** Every repetition starts without the captures of the groups inside
    it, and a repetition that matches nothing is not taken. *)
Example exec_repeat_captures :
  exec_pattern false (lit "(z)((a+)?(b+)?(c))*") (lit "zaacbbbcac")
  = Some (Some (0, lit "zaacbbbcac",
                [Some (lit "z"); Some (lit "ac"); Some (lit "a"); None; Some (lit "c")]))
  /\ exec_pattern false (lit "(a*)*") (lit "b") = Some (Some (0, [], [None]))
  /\ exec_pattern false (lit "(a*)b\1+") (lit "baaaac") = Some (Some (0, lit "b", [Some []])).
Proof. repeat split; vm_compute; reflexivity. Qed.

(** Look-ahead keeps its captures and is not re-entered; a negative
    one leaves none. *)
Example exec_lookahead :
  exec_pattern false (lit "(?=(a+))a*b\1") (lit "baaabac")
  = Some (Some (3, lit "aba", [Some (lit "a")]))
  /\ exec_pattern false (lit "(.*?)a(?!(a+)b\2c)\2(.*)") (lit "baaabaac")
     = Some (Some (0, lit "baaabaac", [Some (lit "ba"); None; Some (lit "abaac")])).
Proof. split; vm_compute; reflexivity. Qed.

(** Look-behind matches from right to left. *)
Example exec_lookbehind :
  exec_pattern false (lit "(?<=(\d+)(\d+))$") (lit "1053")
  = Some (Some (4, [], [Some (lit "1"); Some (lit "053")]))
  /\ exec_pattern false (lit "(?<!a)b") (lit "abcb") = Some (Some (3, lit "b", [])).
Proof. split; vm_compute; reflexivity. Qed.

(** Braces that are no quantifier, and escapes that are none, stand for
    themselves; [\2] without a second group is an octal escape. *)
Example exec_annex_B :
  exec_pattern false (lit "a{,5}") (lit "xa{,5}") = Some (Some (1, lit "a{,5}", []))
  /\ exec_pattern false (lit "\x4") (lit "x4") = Some (Some (0, lit "x4", []))
  /\ exec_pattern false (lit "\c1") (lit "\c1") = Some (Some (0, lit "\c1", []))
  /\ exec_pattern false (lit "\k<a") (lit "k<a") = Some (Some (0, lit "k<a", []))
  /\ exec_pattern false (lit "\101") (lit "A") = Some (Some (0, lit "A", []))
  /\ exec_pattern false (lit "[\d-x]+") (lit "1-xy") = Some (Some (0, lit "1-x", [])).
Proof. repeat split; vm_compute; reflexivity. Qed.

(** The flag [m] lets [^] and [$] match at line breaks. *)
Example exec_multiline :
  exec_pattern true (lit "^b$") ("a" :: "010" :: "b" :: "010" :: "c" :: nil)%char
  = Some (Some (2, lit "b", []))
  /\ exec_pattern false (lit "^b$") ("a" :: "010" :: "b" :: "010" :: "c" :: nil)%char
     = Some None.
Proof. split; vm_compute; reflexivity. Qed.
(** ** Numbers and their digits *)

Lemma uint_digits (u : Decimal.uint) :
  forallb Str.is_digit (list_ascii_of_string (NilEmpty.string_of_uint u)) = true.
Proof. induction u; cbn; auto. Qed.

Lemma decimal_digits n : forallb Str.is_digit (decimal n) = true.
Proof. apply uint_digits. Qed.

Lemma digits_value_decimal n : digits_value (decimal n) = n.
Proof.
  unfold digits_value, decimal.
  rewrite string_of_list_ascii_of_string, NilEmpty.usu.
  apply Unsigned.of_to.
Qed.

Lemma decimal_nonempty n : decimal n <> [].
Proof.
  intros H. pose proof (digits_value_decimal n) as E. rewrite H in E.
  cbn in E. subst n. discriminate H.
Qed.

Lemma digit_prefix_all d : forallb Str.is_digit d = true -> digit_prefix d = d.
Proof.
  induction d as [|x d IH]; [reflexivity|]. cbn. intros H.
  apply andb_true_iff in H as [-> Hd]. now rewrite IH.
Qed.

Lemma round_double_small n : (n < 2 ^ 53)%N -> round_double n = Int n.
Proof. intros H. unfold round_double. apply N.ltb_lt in H. now rewrite H. Qed.

Lemma parseInt_digits d :
  d <> [] -> forallb Str.is_digit d = true -> parseInt (Some d) = round_double (digits_value d).
Proof.
  intros Hne Hd. unfold parseInt. rewrite digit_prefix_all by assumption.
  destruct d; [contradiction|reflexivity].
Qed.

Lemma toString_small n : (n < 2 ^ 53)%N -> toString (Int n) = decimal n.
Proof. intros H. unfold toString. apply N.ltb_lt in H. now rewrite H. Qed.

(** [Math.max] of a list of integers. *)
Lemma fold_max2_Int (vs : list N) (a : N) :
  exists mx, fold_left max2 (map Int vs) (Int a) = Int mx
             /\ (a <= mx)%N /\ (forall v, In v vs -> (v <= mx)%N)
             /\ (mx = a \/ In mx vs).
Proof.
  revert a; induction vs as [|v vs IH]; intros a; cbn [map fold_left].
  - exists a. repeat split; [lia | intros v [] | now left].
  - cbn [max2]. destruct (IH (N.max a v)) as (mx & E & Ha & Hall & Hin).
    exists mx. repeat split; [exact E | lia | | ].
    + intros w [<-|Hw]; [lia | now apply Hall].
    + destruct Hin as [->|Hin]; [|right; now right].
      destruct (N.max_spec a v) as [[_ ->]|[_ ->]]; [right; now left | now left].
Qed.

Lemma Math_max_Int (v : N) (vs : list N) :
  exists mx, Math_max (map Int (v :: vs)) = Int mx
             /\ (forall w, In w (v :: vs) -> (w <= mx)%N) /\ In mx (v :: vs).
Proof.
  unfold Math_max. cbn [map fold_left max2].
  destruct (fold_max2_Int vs v) as (mx & E & Ha & Hall & Hin).
  exists mx. repeat split; [exact E | | ].
  - intros w [<-|Hw]; [exact Ha | now apply Hall].
  - destruct Hin as [->|Hin]; [now left | now right].
Qed.

(** ** Splitting a candidate at its last dot *)

Lemma last_index_None x s : ~ In x s -> Str.last_index x s = None.
Proof.
  induction s as [|c s IH]; [reflexivity|]. intros H. cbn.
  rewrite IH by (intros ?; apply H; now right).
  destruct (Ascii.eqb c x) eqn:E; [|reflexivity].
  apply Ascii.eqb_eq in E. subst c. exfalso. apply H. now left.
Qed.

Lemma last_index_app x s t :
  ~ In x t -> Str.last_index x (s ++ x :: t) = Some (length s).
Proof.
  intros H. induction s as [|c s IH]; cbn.
  - now rewrite (last_index_None x t H), Ascii.eqb_refl.
  - now rewrite IH.
Qed.

Lemma regex_plain_no_dot ext : regex_plain ext -> ~ In "."%char ext.
Proof.
  unfold regex_plain. intros H Hin.
  rewrite forallb_forall in H. apply H in Hin. discriminate Hin.
Qed.

Lemma path_extension_app stem ext :
  ~ In "."%char ext -> path_extension (stem ++ lit "." ++ ext) = Some ext.
Proof.
  intros H. unfold path_extension, Str.last_dot. cbn [lit list_ascii_of_string app].
  rewrite last_index_app by assumption.
  f_equal. clear H. induction stem as [|c stem IH]; [reflexivity|exact IH].
Qed.

Lemma stem_of_candidate stem tail :
  firstn (length (stem ++ lit "." ++ tail) - length tail - 1) (stem ++ lit "." ++ tail) = stem.
Proof.
  rewrite !length_app. cbn [lit list_ascii_of_string length].
  replace (length stem + (1 + length tail) - length tail - 1) with (length stem) by lia.
  now rewrite firstn_app, Nat.sub_diag, firstn_all, app_nil_r.
Qed.

(** ** The loop of [deduplicateNewName] *)

Lemma scan_loop re newName siblings st :
  fold_left (scan_step re newName) siblings st
  = {| dupNameNumbers := dupNameNumbers st ++ omap (contribution re newName) siblings;
       isNewNameExist := isNewNameExist st
                         || existsb (fun sibling => Str.eqb sibling newName) siblings |}.
Proof.
  revert st; induction siblings as [|sib siblings IH]; intros st.
  - cbn. rewrite app_nil_r, orb_false_r. now destruct st.
  - cbn [fold_left]. rewrite IH. clear IH.
    change (omap ?f (sib :: siblings))
      with (match f sib with Some y => y :: omap f siblings | None => omap f siblings end).
    cbn [existsb]. unfold scan_step, contribution.
    destruct (Str.eqb sib newName); cbn [dupNameNumbers isNewNameExist orb].
    + now rewrite orb_true_r.
    + destruct (exec false re sib); cbn [dupNameNumbers isNewNameExist orb].
      * now rewrite <- app_assoc.
      * reflexivity.
Qed.

(** The candidate itself never looks like one of its numbered names. *)
Lemma numbered_digits_candidate atStart stem delimiter ext :
  numbered_digits atStart stem delimiter ext (stem ++ lit "." ++ ext) = None.
Proof.
  unfold numbered_digits. destruct atStart.
  - destruct (digits_before _ _) as [[|x d]|] eqn:E; try reflexivity.
    apply digits_before_Some in E as [E _]. apply (f_equal (@length ascii)) in E.
    cbn in E. rewrite ?length_app in E. cbn in E. rewrite ?length_app in E. cbn in E. lia.
  - rewrite strip_prefix_app_l, strip_prefix_app.
    destruct (Str.strip_prefix delimiter (lit "." ++ ext)) as [r|] eqn:E0; [|reflexivity].
    destruct (digits_before _ r) as [[|x d]|] eqn:E; try reflexivity.
    apply digits_before_Some in E as [E _]. apply strip_prefix_length in E0.
    apply (f_equal (@length ascii)) in E. cbn in E0, E. rewrite ?length_app in E.
    cbn in E. lia.
Qed.

Lemma contribution_dup_regex atStart stem delimiter ext sibling :
  contribution (dup_regex atStart stem delimiter ext) (stem ++ lit "." ++ ext) sibling
  = match numbered_digits atStart stem delimiter ext sibling with
    | Some d => Some (parseInt (Some d))
    | None => None
    end.
Proof.
  unfold contribution. destruct (Str.eqb sibling (stem ++ lit "." ++ ext)) eqn:E.
  - apply Str_eqb_eq in E. subst sibling. now rewrite numbered_digits_candidate.
  - rewrite exec_dup_regex.
    destruct (numbered_digits atStart stem delimiter ext sibling) as [d|]; [|reflexivity].
    cbn [groups]. now rewrite lookup_number_dup_groups.
Qed.

Lemma omap_contribution atStart stem delimiter ext siblings :
  omap (contribution (dup_regex atStart stem delimiter ext) (stem ++ lit "." ++ ext)) siblings
  = collected_numbers atStart stem delimiter ext siblings.
Proof.
  unfold collected_numbers. induction siblings as [|sib siblings IH]; [reflexivity|].
  change (omap ?f (sib :: siblings))
    with (match f sib with Some y => y :: omap f siblings | None => omap f siblings end).
  now rewrite contribution_dup_regex, IH.
Qed.

(** [deduplicateNewName] on a candidate [stem.ext] whose extension is
    plain: the name is the one [resolve] describes. *)
Lemma deduplicateNewName_plain settings siblings stem ext :
  regex_plain ext ->
  deduplicateNewName settings siblings (stem ++ lit "." ++ ext)
  = let name := resolve (dupNumberAtStart settings) (dupNumberAlways settings)
                  stem (dupNumberDelimiter settings) ext siblings in
    Some {| NameObj.name := name;
            NameObj.stem := firstn (length name - length ext - 1) name;
            NameObj.extension := ext |}.
Proof.
  intros Hext. unfold deduplicateNewName.
  rewrite path_extension_app by now apply regex_plain_no_dot.
  rewrite stem_of_candidate.
  rewrite RegExp_dupNameRegex by assumption.
  rewrite scan_loop. cbn [dupNameNumbers isNewNameExist app orb].
  rewrite omap_contribution. reflexivity.
Qed.

(** ** The numbered names, in terms of strings *)

Lemma numbered_digits_spec atStart stem delimiter ext sibling d :
  numbered_digits atStart stem delimiter ext sibling = Some d
  <-> d <> [] /\ forallb Str.is_digit d = true
      /\ sibling = if atStart then d ++ delimiter ++ stem ++ lit "." ++ ext
                   else stem ++ delimiter ++ d ++ lit "." ++ ext.
Proof.
  unfold numbered_digits. split.
  - destruct atStart.
    + destruct (digits_before _ sibling) as [[|x r]|] eqn:E; try discriminate.
      intros [= <-]. apply digits_before_Some in E as [-> Hd]. now repeat split.
    + destruct (Str.strip_prefix (stem ++ delimiter) sibling) as [rest|] eqn:E0; [|discriminate].
      destruct (digits_before _ rest) as [[|x r]|] eqn:E; try discriminate.
      intros [= <-]. apply digits_before_Some in E as [-> Hd].
      apply strip_prefix_Some in E0. subst sibling. rewrite <- app_assoc. now repeat split.
  - intros (Hne & Hd & ->). destruct atStart.
    + rewrite digits_before_app by assumption. now destruct d.
    + rewrite (app_assoc stem), strip_prefix_app, digits_before_app by assumption.
      now destruct d.
Qed.

(** ** The numbers of the listing *)

Lemma fold_right_max_greatest (vs : list N) (mx : N) :
  (forall w, In w vs -> (w <= mx)%N) -> In mx vs -> fold_right N.max 0%N vs = mx.
Proof.
  induction vs as [|v vs IH]; intros Hall Hin; [destruct Hin|].
  cbn [fold_right].
  assert (Hle : (fold_right N.max 0 vs <= mx)%N).
  { clear IH Hin. induction vs as [|w vs IH]; cbn [fold_right]; [lia|].
    assert (w <= mx)%N by (apply Hall; right; now left).
    assert (fold_right N.max 0 vs <= mx)%N.
    { apply IH. intros u [<-|Hu]; apply Hall; [now left | right; now right]. }
    lia. }
  assert (Hv : (v <= mx)%N) by (apply Hall; now left).
  destruct Hin as [<-|Hin]; [lia|].
  rewrite IH; [lia | | exact Hin].
  intros w Hw. apply Hall. now right.
Qed.

(** Below [2^53 - 1] the numbers the loop works with are the natural
    numbers, and [Math.max(...) + 1] is their greatest plus one. *)
Lemma next_number_spec (vs : list N) :
  (forall v, In v vs -> (v < 2 ^ 53 - 1)%N) ->
  next_number (map Int vs) = Int (spec_next_number vs)
  /\ (spec_next_number vs < 2 ^ 53)%N.
Proof.
  intros Hlt. destruct vs as [|v vs]; [split; reflexivity|].
  destruct (Math_max_Int v vs) as (mx & E & Hall & Hin).
  unfold next_number, spec_next_number. cbn [map]. cbn [map] in E. rewrite E.
  rewrite (fold_right_max_greatest (v :: vs) mx Hall Hin).
  pose proof (Hlt mx Hin) as Hmx. cbn [add1].
  rewrite round_double_small by lia. split; [reflexivity | lia].
Qed.

Lemma collected_numbers_values atStart stem delimiter ext siblings :
  (forall v, In v (sibling_numbers atStart stem delimiter ext siblings) -> (v < 2 ^ 53 - 1)%N) ->
  collected_numbers atStart stem delimiter ext siblings
  = map Int (sibling_numbers atStart stem delimiter ext siblings).
Proof.
  unfold collected_numbers, sibling_numbers.
  induction siblings as [|sib siblings IH]; intros Hsafe; [reflexivity|].
  change (omap ?f (sib :: siblings))
    with (match f sib with Some y => y :: omap f siblings | None => omap f siblings end) in *.
  cbv beta in *.
  destruct (numbered_digits atStart stem delimiter ext sib) as [D|] eqn:ED.
  - cbn [map]. rewrite IH by (intros v Hv; apply Hsafe; now right).
    f_equal. apply numbered_digits_spec in ED as (Hne & Hd & _).
    rewrite parseInt_digits by assumption.
    apply round_double_small.
    assert (digits_value D < 2 ^ 53 - 1)%N by (apply Hsafe; now left). lia.
  - now apply IH.
Qed.

Lemma sibling_numbers_In atStart stem delimiter ext siblings v :
  In v (sibling_numbers atStart stem delimiter ext siblings)
  <-> exists sibling D,
        In sibling siblings /\ D <> [] /\ forallb Str.is_digit D = true
        /\ sibling = (if atStart then D ++ delimiter ++ stem ++ lit "." ++ ext
                      else stem ++ delimiter ++ D ++ lit "." ++ ext)
        /\ v = digits_value D.
Proof.
  unfold sibling_numbers. rewrite <- list_elem_of_In, list_elem_of_omap. split.
  - intros (sibling & Hin & Hv). apply list_elem_of_In in Hin.
    destruct (numbered_digits atStart stem delimiter ext sibling) as [D|] eqn:ED; [|discriminate].
    injection Hv as <-. apply numbered_digits_spec in ED as (Hne & Hd & Hs).
    exists sibling, D. now repeat split.
  - intros (sibling & D & Hin & Hne & Hd & Hs & ->).
    exists sibling. split; [now apply list_elem_of_In|].
    assert (E : numbered_digits atStart stem delimiter ext sibling = Some D)
      by (apply numbered_digits_spec; now repeat split).
    now rewrite E.
Qed.

Lemma existsb_eqb_In (candidate : str) (siblings : list str) :
  existsb (fun sibling => Str.eqb sibling candidate) siblings = true <-> In candidate siblings.
Proof.
  rewrite existsb_exists. split.
  - intros (x & Hin & Hx). apply Str_eqb_eq in Hx. now subst x.
  - intros Hin. exists candidate. split; [exact Hin | apply Str_eqb_refl].
Qed.

(** ** Claims on [deduplicateNewName] *)

(** C2, as amended.  For every candidate [stem.ext] whose extension has
    no character with a meaning in a pattern, every policy, and every
    listing in which the numbers of the numbered siblings
    ([stem<delim>D.ext], or [D<delim>stem.ext] when the number comes
    first, [D] a non-empty run of digits) are below [2^53 - 1]:
    [deduplicateNewName] returns; if the candidate is in the listing or
    [dupNumberAlways] is set the name is the candidate with the number
    [N] after the stem (before it when [dupNumberAtStart] is set), where
    [N] is the greatest of those numbers plus one, or [1] when there is
    none; otherwise the name is the candidate unchanged. *)
Theorem C2_next_number settings siblings stem ext :
  regex_plain ext ->
  let candidate := stem ++ lit "." ++ ext in
  let atStart := dupNumberAtStart settings in
  let delimiter := dupNumberDelimiter settings in
  let collected := sibling_numbers atStart stem delimiter ext siblings in
  let N := match collected with
           | [] => 1%N
           | _ :: _ => (fold_right N.max 0 collected + 1)%N
           end in
  (forall v, In v collected -> (v < 2 ^ 53 - 1)%N) ->
  (forall v, In v collected
     <-> exists sibling D,
           In sibling siblings /\ D <> [] /\ forallb Str.is_digit D = true
           /\ sibling = (if atStart then D ++ delimiter ++ stem ++ lit "." ++ ext
                         else stem ++ delimiter ++ D ++ lit "." ++ ext)
           /\ v = digits_value D)
  /\ exists r,
       deduplicateNewName settings siblings candidate = Some r
       /\ (In candidate siblings \/ dupNumberAlways settings = true ->
           NameObj.name r
           = if atStart then decimal N ++ delimiter ++ stem ++ lit "." ++ ext
             else stem ++ delimiter ++ decimal N ++ lit "." ++ ext)
       /\ (~ In candidate siblings -> dupNumberAlways settings = false ->
           NameObj.name r = candidate).
Proof.
  intros Hext candidate atStart delimiter collected N Hsafe.
  split; [intros v; apply sibling_numbers_In|].
  unfold candidate at 1. rewrite deduplicateNewName_plain by assumption.
  eexists. split; [reflexivity|]. cbn [NameObj.name]. unfold resolve.
  fold candidate atStart delimiter.
  rewrite collected_numbers_values by exact Hsafe. fold collected.
  destruct (next_number_spec collected Hsafe) as [En Hn].
  split.
  - intros Hyes.
    assert (E : existsb (fun sibling => Str.eqb sibling candidate) siblings
                || dupNumberAlways settings = true).
    { destruct Hyes as [Hin | ->]; [|apply orb_true_r].
      apply existsb_eqb_In in Hin. now rewrite Hin. }
    rewrite E, En. unfold numbered_name. rewrite toString_small by exact Hn.
    reflexivity.
  - intros Hno Halways.
    assert (E : existsb (fun sibling => Str.eqb sibling candidate) siblings = false).
    { destruct (existsb _ siblings) eqn:Ex; [|reflexivity].
      apply existsb_eqb_In in Ex. contradiction. }
    now rewrite E, Halways.
Qed.

Lemma C2_witness :
  exists r, deduplicateNewName DEFAULT_SETTINGS [lit "foo-1.png"; lit "foo.png"; lit "foo-2.png"]
              (lit "foo" ++ lit "." ++ lit "png") = Some r
            /\ NameObj.name r = lit "foo-3.png".
Proof.
  destruct (C2_next_number DEFAULT_SETTINGS
              [lit "foo-1.png"; lit "foo.png"; lit "foo-2.png"] (lit "foo") (lit "png") eq_refl)
    as [_ (r & Hr & Hyes & _)].
  - intros v Hv. vm_compute in Hv. destruct Hv as [<-|[<-|[]]]; reflexivity.
  - exists r. split; [exact Hr|]. rewrite Hyes; [reflexivity|].
    left. right. left. reflexivity.
Defined.

(** C2, as stated, fails: with [foo.png] and [foo-9007199254740992.png]
    in the listing the only number collected is [2^53], and the name
    returned carries [2^53] again, not [2^53 + 1]: the sum is rounded to
    a double. *)
Lemma C2_counterexample :
  sibling_numbers false (lit "foo") (lit "-") (lit "png")
    [lit "foo.png"; lit "foo-9007199254740992.png"] = [9007199254740992%N]
  /\ exists r,
       deduplicateNewName DEFAULT_SETTINGS
         [lit "foo.png"; lit "foo-9007199254740992.png"] (lit "foo.png") = Some r
       /\ NameObj.name r = lit "foo-" ++ decimal 9007199254740992 ++ lit ".png"
       /\ NameObj.name r <> lit "foo-" ++ decimal (9007199254740992 + 1) ++ lit ".png".
Proof.
  split; [vm_compute; reflexivity|].
  eexists. split; [vm_compute; reflexivity|].
  split; [vm_compute; reflexivity|].
  vm_compute. discriminate.
Qed.








Lemma collected_numbers_safe atStart stem delimiter ext siblings :
  (forall sibling D, In sibling siblings ->
     numbered_digits atStart stem delimiter ext sibling = Some D ->
     (digits_value D < 2 ^ 53 - 1)%N) ->
  exists vs, collected_numbers atStart stem delimiter ext siblings = map Int vs
             /\ (forall v, In v vs -> (v < 2 ^ 53 - 1)%N)
             /\ (forall sibling D, In sibling siblings ->
                   numbered_digits atStart stem delimiter ext sibling = Some D ->
                   In (digits_value D) vs).
Proof.
  unfold collected_numbers. induction siblings as [|sib siblings IH]; intros Hsafe.
  - exists []. repeat split; [intros v [] | intros s D []].
  - destruct IH as (vs & E & Hlt & Hin).
    { intros s D Hs. apply Hsafe. now right. }
    change (omap ?f (sib :: siblings))
      with (match f sib with Some y => y :: omap f siblings | None => omap f siblings end).
    cbv beta.
    destruct (numbered_digits atStart stem delimiter ext sib) as [D|] eqn:ED.
    + pose proof (Hsafe sib D (or_introl eq_refl) ED) as HD.
      apply numbered_digits_spec in ED as (Hne & Hd & Hs).
      exists (digits_value D :: vs). repeat split.
      * rewrite E, parseInt_digits by assumption.
        rewrite round_double_small by lia. reflexivity.
      * intros v [<-|Hv]; [exact HD | now apply Hlt].
      * intros s D' [<-|Hs'] ED'.
        -- assert (E' : numbered_digits atStart stem delimiter ext sib = Some D)
             by (apply numbered_digits_spec; now repeat split).
           rewrite E' in ED'. injection ED' as <-. now left.
        -- right. now apply (Hin s).
    + exists vs. repeat split; [exact E | exact Hlt |].
      intros s D' [<-|Hs'] ED'; [congruence | now apply (Hin s)].
Qed.

Lemma next_number_safe (vs : list N) :
  (forall v, In v vs -> (v < 2 ^ 53 - 1)%N) ->
  exists n, next_number (map Int vs) = Int n /\ (n < 2 ^ 53)%N /\ ~ In n vs.
Proof.
  intros Hlt. destruct vs as [|v vs].
  - exists 1%N. split; [reflexivity|]. split; [reflexivity | intros []].
  - destruct (Math_max_Int v vs) as (mx & E & Hall & Hin).
    exists (mx + 1)%N. unfold next_number. cbn [map]. cbn [map] in E. rewrite E.
    pose proof (Hlt mx Hin) as Hmx. cbn [add1].
    rewrite round_double_small by lia. split; [reflexivity|]. split; [lia|].
    intros Hc. apply Hall in Hc. lia.
Qed.

(** C1, as amended.  For every candidate [stem.ext] whose extension has
    no character with a meaning in a pattern, every listing in which the
    numbers of the numbered siblings stay below [2^53 - 1], and every
    policy, [deduplicateNewName] returns a name, and that name is not in
    the listing. *)
Theorem C1_no_collision_plain_extension settings siblings stem ext :
  regex_plain ext ->
  (forall D, forallb Str.is_digit D = true ->
     In (if dupNumberAtStart settings
         then D ++ dupNumberDelimiter settings ++ stem ++ lit "." ++ ext
         else stem ++ dupNumberDelimiter settings ++ D ++ lit "." ++ ext) siblings ->
     (digits_value D < 2 ^ 53 - 1)%N) ->
  exists r, deduplicateNewName settings siblings (stem ++ lit "." ++ ext) = Some r
            /\ ~ In (NameObj.name r) siblings.
Proof.
  intros Hext Hsafe. rewrite deduplicateNewName_plain by assumption.
  eexists. split; [reflexivity|]. cbn [NameObj.name]. unfold resolve.
  set (atStart := dupNumberAtStart settings) in *.
  set (delimiter := dupNumberDelimiter settings) in *.
  destruct (existsb _ siblings || dupNumberAlways settings) eqn:Ebranch.
  - destruct (collected_numbers_safe atStart stem delimiter ext siblings) as (vs & E & Hlt & Hin).
    { intros sibling D Hs ED. apply numbered_digits_spec in ED as (_ & Hd & ->).
      now apply Hsafe. }
    destruct (next_number_safe vs Hlt) as (n & En & Hn & Hfresh).
    rewrite E, En. unfold numbered_name. rewrite toString_small by assumption.
    intros Hc. apply Hfresh.
    rewrite <- (digits_value_decimal n). apply (Hin _ _ Hc).
    apply numbered_digits_spec. repeat split; [apply decimal_nonempty | apply decimal_digits].
  - apply orb_false_iff in Ebranch as [Ebranch _]. intros Hc.
    assert (Ht : existsb (fun sibling => Str.eqb sibling (stem ++ lit "." ++ ext)) siblings = true).
    { apply existsb_exists. eexists. split; [exact Hc | apply Str_eqb_refl]. }
    congruence.
Qed.

Lemma C1_witness :
  exists r, deduplicateNewName DEFAULT_SETTINGS
              [lit "foo.png"; lit "foo-1.png"; lit "foo-07.png"; lit "bar-9.png"]
              (lit "foo" ++ lit "." ++ lit "png") = Some r
            /\ ~ In (NameObj.name r) [lit "foo.png"; lit "foo-1.png"; lit "foo-07.png"; lit "bar-9.png"].
Proof.
  apply (C1_no_collision_plain_extension DEFAULT_SETTINGS
           [lit "foo.png"; lit "foo-1.png"; lit "foo-07.png"; lit "bar-9.png"] (lit "foo") (lit "png")).
  - reflexivity.
  - intros D _ H. cbn in H.
    destruct H as [H|[H|[H|[H|[]]]]]; try discriminate H.
    + injection H as H. apply (app_inv_tail (lit ".png") (lit "1") D) in H. subst D.
      vm_compute. reflexivity.
    + injection H as H. apply (app_inv_tail (lit ".png") (lit "07") D) in H. subst D.
      vm_compute. reflexivity.
Defined.

(** C1, as stated, fails: with [foo.png] and [foo-9007199254740992.png]
    in the listing the name returned for [foo.png] is
    [foo-9007199254740992.png] again, because [2^53 + 1] is not a
    double. *)
Lemma C1_counterexample :
  exists r, deduplicateNewName DEFAULT_SETTINGS
              [lit "foo.png"; lit "foo-9007199254740992.png"] (lit "foo.png") = Some r
            /\ In (NameObj.name r) [lit "foo.png"; lit "foo-9007199254740992.png"].
Proof.
  eexists. split; [vm_compute; reflexivity|]. right. left. reflexivity.
Qed.

(** The extension goes into the pattern as it is.  With [foo.a+b] and
    [foo-1.a+b] in the listing, [+] is read as a quantifier, the numbered
    sibling is not recognised, and the name returned is [foo-1.a+b]
    again. *)
Example deduplicateNewName_unescaped_extension :
  exists r, deduplicateNewName DEFAULT_SETTINGS
              [lit "foo.a+b"; lit "foo-1.a+b"] (lit "foo.a+b") = Some r
            /\ NameObj.name r = lit "foo-1.a+b".
Proof. eexists. split; vm_compute; reflexivity. Qed.

Lemma last_index_None_inv x s : Str.last_index x s = None -> ~ In x s.
Proof.
  induction s as [|c s IH]; [intros _ []|]. cbn.
  destruct (Str.last_index x s); [discriminate|].
  destruct (Ascii.eqb c x) eqn:E; [discriminate|]. intros _ [->|H].
  - now rewrite Ascii.eqb_refl in E.
  - now apply IH.
Qed.

Lemma last_index_Some x s i :
  Str.last_index x s = Some i ->
  s = firstn i s ++ x :: skipn (S i) s /\ ~ In x (skipn (S i) s).
Proof.
  revert i; induction s as [|c s IH]; intros i; [discriminate|]. cbn [Str.last_index].
  destruct (Str.last_index x s) as [j|] eqn:E.
  - intros [= <-]. destruct (IH j eq_refl) as [Hs Hn]. split; [|exact Hn].
    change (firstn (S j) (c :: s)) with (c :: firstn j s).
    change (skipn (S (S j)) (c :: s)) with (skipn (S j) s).
    cbn [app]. f_equal. exact Hs.
  - destruct (Ascii.eqb c x) eqn:Ec; [|discriminate]. intros [= <-].
    apply Ascii.eqb_eq in Ec. subst c. split; [reflexivity|].
    now apply last_index_None_inv.
Qed.

Lemma has_dot_last_index newName :
  Str.has_dot newName = true -> exists i, Str.last_index "." newName = Some i.
Proof.
  unfold Str.has_dot. induction newName as [|c s IH]; [discriminate|].
  cbn [existsb Str.last_index]. intros H.
  destruct (Str.last_index "." s) as [i|]; [now exists (S i)|].
  destruct (Ascii.eqb "." c) eqn:E.
  - rewrite Ascii.eqb_sym, E. now exists 0.
  - cbn in H. now apply IH in H as [i Hi].
Qed.

(** C9. Every candidate with a dot is [before.ext] with [ext] what
    follows its last dot, and every result of [deduplicateNewName] for
    it has that [ext] as its extension and
    [name = stem + '.' + extension].  There is a result exactly when
    [new RegExp] accepts the pattern text built with [ext], which it does
    when [ext] has no character with a meaning in a pattern, and for many
    an extension that has; where [new RegExp] throws, the function
    throws and there is no result. *)
Theorem C9_result_keeps_extension settings siblings newName :
  Str.has_dot newName = true ->
  exists before ext,
    newName = before ++ lit "." ++ ext
    /\ ~ In "."%char ext
    /\ (forall r, deduplicateNewName settings siblings newName = Some r ->
          NameObj.extension r = ext
          /\ NameObj.name r = NameObj.stem r ++ lit "." ++ NameObj.extension r)
    /\ ((exists r, deduplicateNewName settings siblings newName = Some r)
        <-> exists dupNameRegex,
              RegExp (dupNameRegex_source (dupNumberAtStart settings) (escapeRegExp before)
                        (escapeRegExp (dupNumberDelimiter settings)) ext) = Some dupNameRegex)
    /\ (regex_plain ext -> exists r, deduplicateNewName settings siblings newName = Some r).
Proof.
  intros Hdot. apply has_dot_last_index in Hdot as [i Ei].
  pose proof Ei as Ei'. apply last_index_Some in Ei' as [Hsplit Hnodot].
  set (ext := skipn (S i) newName) in *.
  set (before := firstn i newName) in *.
  assert (Hstem : firstn (length newName - length ext - 1) newName = before).
  { rewrite Hsplit at 1 2. apply (stem_of_candidate before ext). }
  assert (Hunfold :
    deduplicateNewName settings siblings newName
    = match RegExp (dupNameRegex_source (dupNumberAtStart settings) (escapeRegExp before)
                      (escapeRegExp (dupNumberDelimiter settings)) ext) with
      | None => None
      | Some dupNameRegex =>
          let st := fold_left (scan_step dupNameRegex newName) siblings
                      {| dupNameNumbers := []; isNewNameExist := false |} in
          let newName' :=
            if isNewNameExist st || dupNumberAlways settings then
              let newNumber := next_number (dupNameNumbers st) in
              if dupNumberAtStart settings then
                toString newNumber ++ dupNumberDelimiter settings ++ before ++ lit "." ++ ext
              else
                before ++ dupNumberDelimiter settings ++ toString newNumber ++ lit "." ++ ext
            else newName in
          Some {| NameObj.name := newName';
                  NameObj.stem := firstn (length newName' - length ext - 1) newName';
                  NameObj.extension := ext |}
      end).
  { unfold deduplicateNewName, path_extension, Str.last_dot. rewrite Ei.
    fold ext. cbv zeta. now rewrite Hstem. }
  exists before, ext. split; [exact Hsplit|]. split; [exact Hnodot|].
  split; [|split].
  - intros r. rewrite Hunfold.
    destruct (RegExp _) as [re|]; [|discriminate].
    cbv zeta. intros [= <-]. cbn [NameObj.name NameObj.stem NameObj.extension].
    split; [reflexivity|].
    destruct (_ || _).
    + destruct (dupNumberAtStart settings).
      * rewrite !(app_assoc _ _ (lit "." ++ ext)).
        now rewrite (stem_of_candidate _ ext).
      * rewrite !(app_assoc _ _ (lit "." ++ ext)).
        now rewrite (stem_of_candidate _ ext).
    + rewrite Hstem. exact Hsplit.
  - rewrite Hunfold. destruct (RegExp _) as [re|].
    + split; intros _; eexists; reflexivity.
    + split; intros [x Hx]; discriminate Hx.
  - intros Hext.
    pose proof (deduplicateNewName_plain settings siblings before ext Hext) as E.
    eexists. etransitivity; [|exact E]. f_equal. exact Hsplit.
Qed.

Lemma C9_witness :
  exists r, deduplicateNewName DEFAULT_SETTINGS [lit "a.b.{tmp}"] (lit "a.b.{tmp}") = Some r
            /\ NameObj.name r = NameObj.stem r ++ lit "." ++ NameObj.extension r
            /\ NameObj.extension r = lit "{tmp}"
            /\ NameObj.name r = lit "a.b-1.{tmp}".
Proof.
  destruct (C9_result_keeps_extension DEFAULT_SETTINGS [lit "a.b.{tmp}"] (lit "a.b.{tmp}") eq_refl)
    as (before & ext & Hsplit & Hnodot & Hres & Htotal & _).
  assert (Hr : exists r, deduplicateNewName DEFAULT_SETTINGS [lit "a.b.{tmp}"] (lit "a.b.{tmp}")
                         = Some r).
  { eexists. vm_compute. reflexivity. }
  destruct Hr as [r Hr]. exists r. split; [exact Hr|].
  destruct (Hres r Hr) as [_ Hname]. split; [exact Hname|].
  vm_compute in Hr. injection Hr as <-. split; reflexivity.
Defined.

(** The extension goes into the pattern as it is.  For [foo.a|b] and
    for [foo.[ab]{2}] there is a result; for [foo.(] the pattern text
    ends in an open group, [new RegExp] throws and there is none. *)
Example deduplicateNewName_extension_read_as_pattern :
  (exists r, deduplicateNewName DEFAULT_SETTINGS [lit "foo.a|b"] (lit "foo.a|b") = Some r
             /\ NameObj.name r = lit "foo-1.a|b")
  /\ (exists r, deduplicateNewName DEFAULT_SETTINGS [] (lit "foo.[ab]{2}") = Some r
                /\ NameObj.name r = lit "foo.[ab]{2}")
  /\ deduplicateNewName DEFAULT_SETTINGS [] (lit "foo.(") = None.
Proof.
  split; [|split].
  - eexists. split; vm_compute; reflexivity.
  - eexists. split; vm_compute; reflexivity.
  - vm_compute. reflexivity.
Qed.

(** ** The meaningfulness test for a delimiter that is plain in a class *)

Lemma class_plain_char c :
  negb (existsb (Ascii.eqb c) (lit "]\^-")) = true ->
  Ascii.eqb c "]" = false /\ Ascii.eqb c "\" = false /\ Ascii.eqb c "^" = false
  /\ Ascii.eqb c "-" = false.
Proof.
  intros Hc. apply negb_true_iff in Hc. cbn [existsb lit list_ascii_of_string] in Hc.
  repeat (apply orb_false_iff in Hc as [? Hc]). now repeat split.
Qed.

(** The members of a class written as plain characters and [\s]. *)
Lemma class_go_plain named st items len d rest :
  match st with R2 _ => False | _ => True end ->
  forallb (fun c => negb (existsb (Ascii.eqb c) (lit "]\^-"))) d = true ->
  class_go named 0 st items len (d ++ lit "\s]" ++ rest)
  = Some (rev (flush st items) ++ map CChar d ++ [CSpace], len + length d + 3).
Proof.
  revert st items len; induction d as [|c d IH]; intros st items len Hst H.
  - cbn [app lit list_ascii_of_string class_go Ascii.eqb Bool.eqb andb class_atom_at
         class_escape map length].
    rewrite Nat.add_0_r.
    destruct st as [|a|a]; [| |destruct Hst]; cbn [flush rev];
      (replace (len + 3) with (S (S (S len))) by lia); reflexivity.
  - cbn [forallb] in H. apply andb_true_iff in H as [Hc Hd].
    apply class_plain_char in Hc as (H1 & H2 & H3 & H4).
    cbn [app class_go]. rewrite H1.
    assert (Hstep : class_go named 0 st items len (c :: d ++ lit "\s]" ++ rest)
                    = class_go named 0 (R1 (AChar c)) (flush st items) (S len)
                        (d ++ lit "\s]" ++ rest)).
    { cbn [class_go]. rewrite H1, H4.
      unfold class_atom_at. rewrite H2.
      destruct st as [|a|a]; [reflexivity | reflexivity | destruct Hst]. }
    cbn [class_go] in Hstep. rewrite H1 in Hstep. rewrite Hstep.
    rewrite IH by (exact I || exact Hd).
    cbn [flush rev item_of map length]. rewrite <- !app_assoc. cbn [app].
    do 2 f_equal. lia.
Qed.

Lemma prescan_class_plain d rest :
  forallb (fun c => negb (existsb (Ascii.eqb c) (lit "]\^-"))) d = true ->
  prescan 0 true (d ++ rest) = prescan 0 true rest.
Proof.
  induction d as [|c d IH]; intros H; [reflexivity|].
  cbn [forallb] in H. apply andb_true_iff in H as [Hc Hd].
  apply class_plain_char in Hc as (H1 & H2 & _ & _).
  cbn [app prescan]. rewrite H2, H1. cbn [negb]. now apply IH.
Qed.

Lemma RegExp_meaninglessRegex delimiter :
  class_plain delimiter ->
  RegExp (meaninglessRegex_source delimiter)
  = Some (seq_of [Class false (map CChar delimiter ++ [CSpace])]).
Proof.
  intros [->|H]; [reflexivity|].
  unfold RegExp, meaninglessRegex_source.
  assert (Hscan : prescan 0 false (lit "[" ++ delimiter ++ lit "\s]") = []).
  { change (prescan 0 false (lit "[" ++ delimiter ++ lit "\s]"))
      with (prescan 0 true (delimiter ++ lit "\s]")).
    now rewrite prescan_class_plain. }
  rewrite Hscan.
  assert (Hclass : parse_class false (delimiter ++ lit "\s]")
                   = Some (Class false (map CChar delimiter ++ [CSpace]), length delimiter + 3)).
  { unfold parse_class.
    pose proof (class_go_plain false R0 [] 0 delimiter [] I H) as E.
    rewrite app_nil_r in E. cbn [flush rev app Nat.add] in E.
    destruct delimiter as [|c d].
    - reflexivity.
    - cbn [forallb] in H. apply andb_true_iff in H as [Hc _].
      apply class_plain_char in Hc as (_ & _ & H3 & _).
      cbn [app]. rewrite H3. cbn [app] in E. now rewrite E. }
  change (parse_go [] 0 [] [] [] LNone 0 (lit "[" ++ delimiter ++ lit "\s]"))
    with (match parse_class false (delimiter ++ lit "\s]") with
          | Some (a, n) => parse_go [] n [] [] [a] LAtom 0 (delimiter ++ lit "\s]")
          | None => None
          end).
  rewrite Hclass.
  replace (length delimiter + 3) with (length (delimiter ++ lit "\s]"))
    by (rewrite length_app; reflexivity).
  rewrite <- (app_nil_r (delimiter ++ lit "\s]")) at 2.
  rewrite parse_go_skip. reflexivity.
Qed.

Lemma replace_all_class fuel ml neg items b s :
  length s < fuel ->
  replace_all_from fuel ml (seq_of [Class neg items]) [] b s
  = List.filter (fun c => negb (in_class neg items c)) s.
Proof.
  revert b s; induction fuel as [|fuel IH]; intros b s Hlen; [lia|].
  destruct s as [|x s]; [reflexivity|].
  cbn [replace_all_from seq_of fold_right matcher List.filter accept length
       char_in flags_of ignoreCase].
  unfold accept. destruct (in_class neg items x); cbn [negb].
  - assert (Hlt : (length s <? S (length s)) = true) by (apply Nat.ltb_lt; lia).
    rewrite Hlt. cbn [app]. apply IH. cbn in Hlen. lia.
  - f_equal. apply IH. cbn in Hlen. lia.
Qed.

Lemma in_class_delimiter delimiter c :
  in_class false (map CChar delimiter ++ [CSpace]) c
  = Str.is_space c || existsb (Ascii.eqb c) delimiter.
Proof.
  unfold in_class. cbn [xorb]. rewrite existsb_app. cbn [existsb in_item].
  rewrite orb_false_r, orb_comm. f_equal.
  induction delimiter as [|a d IH]; [reflexivity|]. cbn. now rewrite IH.
Qed.

(** For a delimiter that is plain in a class, [isMeaningful] is what the
    spec says: the stem without its whitespace and without the
    characters of the delimiter is not empty. *)
Lemma isMeaningful_class_plain
    (renderTemplate : str -> RenderContext -> option (gmap str str) -> str)
    settings fileCache file activeFile :
  class_plain (dupNumberDelimiter settings) ->
  exists g, generateNewName renderTemplate settings fileCache file activeFile = Some g
            /\ Generated.isMeaningful g
               = negb (Str.eqb (strip_meaningless (dupNumberDelimiter settings) (Generated.stem g)) []).
Proof.
  intros Hd. unfold generateNewName.
  destruct (match fileCache with Some _ => _ | None => _ end) as [[imageNameKey firstHeading] fm].
  rewrite RegExp_meaninglessRegex by assumption.
  eexists. split; [reflexivity|]. cbn [Generated.isMeaningful Generated.stem].
  unfold replace_all. rewrite replace_all_class by lia.
  unfold strip_meaningless. do 2 f_equal.
  apply filter_ext. intros c. now rewrite in_class_delimiter.
Qed.

(** An empty stem is never meaningful, whatever the delimiter. *)
Lemma isMeaningful_empty_stem
    (renderTemplate : str -> RenderContext -> option (gmap str str) -> str)
    settings fileCache file activeFile g :
  generateNewName renderTemplate settings fileCache file activeFile = Some g ->
  Generated.stem g = [] -> Generated.isMeaningful g = false.
Proof.
  unfold generateNewName.
  destruct (match fileCache with Some _ => _ | None => _ end) as [[imageNameKey firstHeading] fm].
  destruct (RegExp _) as [re|]; [|discriminate].
  intros [= <-]. cbn [Generated.isMeaningful Generated.stem]. intros ->.
  unfold replace_all. cbn [length replace_all_from].
  destruct (matcher (flags_of true) true re accept [] [] []) as [[s' c]|]; [|reflexivity].
  destruct (length s' <? length (@nil ascii)) eqn:E; [|reflexivity].
  apply Nat.ltb_lt in E. cbn in E. lia.
Qed.


(** ** Claims on [generateNewName] *)

(** C8. Whatever [renderTemplate] does, the name [generateNewName]
    returns is the rendered stem, a dot and the extension of the
    attachment; the extension of that name is the attachment's own, and
    is not empty when the attachment's is not (the extension of a file
    holds no dot).  A name is returned whenever the delimiter is plain
    in a class. *)
Theorem C8_newName_keeps_extension
    (renderTemplate : str -> RenderContext -> option (gmap str str) -> str)
    settings fileCache file activeFile :
  (forall g, generateNewName renderTemplate settings fileCache file activeFile = Some g ->
     (exists ctx fm, Generated.stem g = renderTemplate (imageNamePattern settings) ctx fm)
     /\ Generated.newName g = Generated.stem g ++ lit "." ++ TFile.extension file
     /\ (~ In "."%char (TFile.extension file) ->
         path_extension (Generated.newName g) = Some (TFile.extension file)
         /\ (TFile.extension file <> [] ->
             forall e, path_extension (Generated.newName g) = Some e -> e <> [])))
  /\ (class_plain (dupNumberDelimiter settings) ->
      exists g, generateNewName renderTemplate settings fileCache file activeFile = Some g).
Proof.
  split.
  - intros g. unfold generateNewName.
    destruct (match fileCache with Some _ => _ | None => _ end) as [[imageNameKey firstHeading] fm].
    destruct (RegExp _) as [re|]; [|discriminate].
    intros [= <-]. cbn [Generated.stem Generated.newName].
    split; [eexists; eexists; reflexivity|]. split; [reflexivity|].
    intros Hdot.
    change (?a ++ "."%char :: TFile.extension file) with (a ++ lit "." ++ TFile.extension file).
    rewrite path_extension_app by assumption. split; [reflexivity|].
    intros Hne e [= <-]. exact Hne.
  - intros Hd.
    destruct (isMeaningful_class_plain renderTemplate settings fileCache file activeFile Hd)
      as (g & Hg & _).
    now exists g.
Qed.

Lemma C8_witness :
  exists g, generateNewName (fun pattern _ _ => pattern) DEFAULT_SETTINGS None foo_png note_md = Some g
            /\ Generated.newName g = lit "{{fileName}}.png"
            /\ path_extension (Generated.newName g) = Some (lit "png").
Proof.
  destruct (C8_newName_keeps_extension (fun pattern _ _ => pattern) DEFAULT_SETTINGS None
              foo_png note_md) as [Hres Htotal].
  destruct (Htotal (or_introl eq_refl)) as [g Hg].
  exists g. split; [exact Hg|].
  destruct (Hres g Hg) as (_ & Hname & Hext).
  split.
  - rewrite Hname. vm_compute in Hg. injection Hg as <-. reflexivity.
  - apply Hext. intros [H|[H|[H|[]]]]; discriminate H.
Defined.

(** C4. With the delimiter ["a-z"] the class of [meaninglessRegex] is
    the range from [a] to [z]: the stem [photo] is emptied and
    [isMeaningful] is false, although removing whitespace and the
    characters of the delimiter from [photo] leaves [photo]. *)
Theorem C4_delimiter_read_as_range fileCache file activeFile :
  exists g,
    generateNewName (fun _ _ _ => lit "photo")
      (set_dupNumberDelimiter (lit "a-z") DEFAULT_SETTINGS) fileCache file activeFile = Some g
    /\ Generated.stem g = lit "photo"
    /\ Generated.isMeaningful g = false
    /\ strip_meaningless (lit "a-z") (lit "photo") = lit "photo".
Proof.
  eexists. split; [|split; [|split]].
  - unfold generateNewName.
    destruct (match fileCache with Some _ => _ | None => _ end) as [[imageNameKey firstHeading] fm].
    reflexivity.
  - reflexivity.
  - reflexivity.
  - reflexivity.
Qed.

(** ** Claim on [getOptimalDefaultFormat] *)



(** ** Claim on the [create] handler *)

(** C10. When the handler starts the rename process for a created file,
    the file is not a markdown file, was created at most 1000 ms ago,
    and either its name starts with ["Pasted image "] or
    [handleAllAttachments] is set and the exclude pattern does not match
    its extension: the pattern is empty, or it is a regular expression
    that finds no match in the extension.  So it never starts for a
    markdown file, for a file older than 1000 ms, or for a file that is
    neither. *)
Theorem C10_create_handler_guards settings isProcessingCompression now file f auto :
  vault_on_create settings isProcessingCompression now file = Started f auto ->
  file = AFile f
  /\ isMarkdownFile file = false
  /\ (now - TFile.ctime f <= 1000)%Z
  /\ (isPastedImage file = true
      \/ (handleAllAttachments settings = true
          /\ testExcludeExtension settings f = Some false
          /\ (excludeExtensionPattern settings = []
              \/ exists re, RegExp (excludeExtensionPattern settings) = Some re
                            /\ test false re (TFile.extension f) = false))).
Proof.
  unfold vault_on_create. destruct file as [f0|d]; [|discriminate].
  destruct (now - TFile.ctime f0 >? 1000)%Z eqn:Egap; [discriminate|].
  destruct (isMarkdownFile (AFile f0)) eqn:Emd; [discriminate|].
  destruct isProcessingCompression; [discriminate|].
  destruct (isPastedImage (AFile f0)) eqn:Epasted.
  - intros [= <- <-]. repeat split; [lia | now left].
  - destruct (handleAllAttachments settings) eqn:Eall; [|discriminate].
    destruct (testExcludeExtension settings f0) as [[|]|] eqn:Etest; try discriminate.
    intros [= <- <-]. repeat split; [lia | right; split; [reflexivity | split; [exact Etest|]]].
    unfold testExcludeExtension in Etest.
    destruct (excludeExtensionPattern settings) as [|c p] eqn:Ep; [now left|].
    right. destruct (RegExp (c :: p)) as [re|]; [|discriminate].
    exists re. split; [reflexivity|]. now injection Etest.
Qed.

Lemma C10_witness :
  vault_on_create (set_handleAllAttachments true (lit "png|jpe?g") DEFAULT_SETTINGS)
    false 5400 (AFile report_pdf) = Started report_pdf false
  /\ isMarkdownFile (AFile report_pdf) = false
  /\ (5400 - TFile.ctime report_pdf <= 1000)%Z
  /\ isPastedImage (AFile report_pdf) = false
  /\ testExcludeExtension (set_handleAllAttachments true (lit "png|jpe?g") DEFAULT_SETTINGS)
       report_pdf = Some false.
Proof.
  assert (Hstart : vault_on_create (set_handleAllAttachments true (lit "png|jpe?g") DEFAULT_SETTINGS)
                     false 5400 (AFile report_pdf) = Started report_pdf false)
    by (vm_compute; reflexivity).
  split; [exact Hstart|].
  destruct (C10_create_handler_guards _ _ _ _ _ _ Hstart) as (_ & Hmd & Hgap & Hwhy).
  split; [exact Hmd|]. split; [exact Hgap|]. split; [reflexivity|].
  destruct Hwhy as [Hp | (_ & Htest & _)]; [discriminate Hp | exact Htest].
Defined.

(** The handler on the exclude pattern of the settings tab's
    placeholder: a spreadsheet is passed over, a PDF starts the rename
    process, and with a pattern that is no regular expression the
    handler throws. *)
Example vault_on_create_exclude_pattern :
  vault_on_create (set_handleAllAttachments true (lit "docx?|xlsx?|pptx?|zip|rar") DEFAULT_SETTINGS)
    false 5400 (AFile (attachment (lit "table.xlsx") 5000)) = Ignored
  /\ vault_on_create (set_handleAllAttachments true (lit "docx?|xlsx?|pptx?|zip|rar") DEFAULT_SETTINGS)
       false 5400 (AFile report_pdf) = Started report_pdf false
  /\ vault_on_create (set_handleAllAttachments true (lit "(png") DEFAULT_SETTINGS)
       false 5400 (AFile report_pdf) = Thrown.
Proof. repeat split; vm_compute; reflexivity. Qed.

(** ** The rename pathway and the batch loops *)

Lemma renameFile_unfold env settings file inputNewName sourcePath replaceCurrentLine w o :
  deduplicateNewName settings (siblings_of w (TFolder.path (TFile.parent file))) inputNewName
    = Some o ->
  renameFile env settings file inputNewName sourcePath replaceCurrentLine w
  = match fileManager_renameFile env file
            (Path.join (TFolder.path (TFile.parent file)) (NameObj.name o)) w with
    | (Ok _, w') =>
        if negb replaceCurrentLine then (Ok tt, w')
        else if negb (env_hasEditor env) then (Ok tt, add_notice (NoActiveEditor (NameObj.name o)) w')
        else if negb (disableRenameNotice settings)
             then (Ok tt, add_notice (Renamed (TFile.name file) (NameObj.name o)) w')
             else (Ok tt, w')
    | (Throw e, w') => (Throw e, add_notice (FailedToRename (NameObj.name o) e) w')
    end.
Proof.
  intros Ho. unfold renameFile, this_deduplicateNewName, bind, listSiblingNames, try_catch.
  rewrite Ho. unfold ret.
  destruct (fileManager_renameFile env file _ w) as [[[]|e] w']; cbn.
  - destruct replaceCurrentLine; cbn; [|reflexivity].
    destruct (env_hasEditor env); cbn; [|reflexivity].
    now destruct (disableRenameNotice settings).
  - reflexivity.
Qed.

(** A failed rename of the vault becomes a notice and is thrown again. *)
Lemma renameFile_io_error env settings file inputNewName sourcePath replaceCurrentLine w o e w' :
  deduplicateNewName settings (siblings_of w (TFolder.path (TFile.parent file))) inputNewName
    = Some o ->
  fileManager_renameFile env file
    (Path.join (TFolder.path (TFile.parent file)) (NameObj.name o)) w = (Throw e, w') ->
  renameFile env settings file inputNewName sourcePath replaceCurrentLine w
  = (Throw e, add_notice (FailedToRename (NameObj.name o) e) w').
Proof. intros Ho He. rewrite (renameFile_unfold _ _ _ _ _ _ _ o Ho). now rewrite He. Qed.

(** A loop of awaited calls stops at the first one that throws. *)
Lemma renameAll_stops renameFunc tasks1 task tasks2 w w1 e w2 :
  renameAll renameFunc tasks1 w = (Ok tt, w1) ->
  renameFunc (task_file task) (task_name task) w1 = (Throw e, w2) ->
  renameAll renameFunc (tasks1 ++ task :: tasks2) w = (Throw e, w2).
Proof.
  revert w; induction tasks1 as [|t tasks1 IH]; intros w.
  - cbn [renameAll app]. unfold ret, bind. intros [= <-] H. now rewrite H.
  - cbn [renameAll app]. unfold bind.
    destruct (renameFunc (task_file t) (task_name t) w) as [[[]|e0] w0]; [|discriminate].
    intros H1 H2. now apply IH.
Qed.

(** C7, as amended.  When the rename of a task fails with an I/O error
    of the vault, [renameFile] shows a notice and throws the error
    again; the loop of the batch ([renameAll] of the batch modal,
    [batchRenameAllImages]) ends with that error in the world the
    failure left, so no later task is attempted, and the renames made
    before stay. *)
Theorem C7_batch_stops_at_failed_rename env settings :
  (forall activeFile tasks1 task tasks2 w w1 o e w2,
     renameAll (batch_renameFunc env settings activeFile) tasks1 w = (Ok tt, w1) ->
     deduplicateNewName settings
       (siblings_of w1 (TFolder.path (TFile.parent (task_file task)))) (task_name task) = Some o ->
     fileManager_renameFile env (task_file task)
       (Path.join (TFolder.path (TFile.parent (task_file task))) (NameObj.name o)) w1
       = (Throw e, w2) ->
     renameAll (batch_renameFunc env settings activeFile) (tasks1 ++ task :: tasks2) w
     = (Throw e, add_notice (FailedToRename (NameObj.name o) e) w2))
  /\ (forall renderTemplate activeFile link rest file g w o e w2,
        env_linkDest env link = Some file ->
        extPatternRegex_matches (TFile.extension file) = true ->
        generateNewName renderTemplate settings (env_fileCache env) file activeFile = Some g ->
        Generated.isMeaningful g = true ->
        deduplicateNewName settings
          (siblings_of w (TFolder.path (TFile.parent file))) (Generated.newName g) = Some o ->
        fileManager_renameFile env file
          (Path.join (TFolder.path (TFile.parent file)) (NameObj.name o)) w = (Throw e, w2) ->
        batchRenameAllImages_loop renderTemplate env settings activeFile (link :: rest) w
        = (Throw e, add_notice (FailedToRename (NameObj.name o) e) w2)).
Proof.
  split.
  - intros activeFile tasks1 task tasks2 w w1 o e w2 Hbefore Ho He.
    apply (renameAll_stops _ _ _ _ _ w1); [exact Hbefore|].
    unfold batch_renameFunc. now apply renameFile_io_error.
  - intros renderTemplate activeFile link rest file g w o e w2 Hlink Hext Hg Hm Ho He.
    cbn [batchRenameAllImages_loop]. rewrite Hlink, Hext, Hg, Hm. cbn [negb]. unfold bind.
    now rewrite (renameFile_io_error _ _ _ _ _ _ _ o e w2 Ho He).
Qed.

Lemma C7_witness :
  renameAll (batch_renameFunc (example_env foo_png_locked) DEFAULT_SETTINGS note_md)
    ([] ++ {| task_file := foo_png; task_name := lit "a.png" |}
        :: [ {| task_file := bar_png; task_name := lit "b.png" |} ])
    (world_of vault_two_images)
  = (Throw (IOError (OpRename (lit "img/foo.png") (lit "img/a.png"))),
     add_notice (FailedToRename (lit "a.png")
                   (IOError (OpRename (lit "img/foo.png") (lit "img/a.png"))))
       (world_of vault_two_images)).
Proof.
  destruct (C7_batch_stops_at_failed_rename (example_env foo_png_locked) DEFAULT_SETTINGS)
    as [H _].
  apply (H note_md [] {| task_file := foo_png; task_name := lit "a.png" |}
           [ {| task_file := bar_png; task_name := lit "b.png" |} ]
           (world_of vault_two_images) (world_of vault_two_images)
           {| NameObj.name := lit "a.png"; NameObj.stem := lit "a"; NameObj.extension := lit "png" |}).
  - reflexivity.
  - vm_compute. reflexivity.
  - reflexivity.
Defined.

(** C7, as stated, fails: the vault rejects the rename of [foo.png],
    the first of two tasks; the batch ends with the error, one notice is
    shown, and [bar.png], the second task, is never renamed to
    [b.png]. *)
Lemma C7_counterexample :
  exists e w',
    renameAll (batch_renameFunc (example_env foo_png_locked) DEFAULT_SETTINGS note_md)
      two_tasks (world_of vault_two_images) = (Throw e, w')
    /\ notices w' = [FailedToRename (lit "a.png") e]
    /\ files w' !! lit "img/bar.png" = Some (lit "BAR")
    /\ files w' !! lit "img/b.png" = None.
Proof.
  eexists. eexists. split; [vm_compute; reflexivity|].
  split; [reflexivity|]. split; vm_compute; reflexivity.
Qed.

(** Without the fault both tasks are carried out. *)
Example renameAll_two_tasks :
  exists w',
    renameAll (batch_renameFunc (example_env no_fault) DEFAULT_SETTINGS note_md)
      two_tasks (world_of vault_two_images) = (Ok tt, w')
    /\ files w' !! lit "img/a.png" = Some (lit "FOO")
    /\ files w' !! lit "img/b.png" = Some (lit "BAR").
Proof.
  eexists. split; [vm_compute; reflexivity|]. split; vm_compute; reflexivity.
Qed.

(** ** Format conversion *)

(** C6. [img] holds [foo.png] and a [foo.webp]; the operator confirms
    the conversion of [foo.png] to webp.  [compressToFormat] deletes
    [foo.png] and then fails to create [foo.webp], which exists; the
    fall-back rename finds no file to rename.  The original is deleted
    and its bytes are nowhere in the vault. *)
Theorem C6_original_deleted_before_write :
  exists e w',
    renameModal_confirm (example_env no_fault) DEFAULT_SETTINGS foo_png
      (lit "notes/note.md") (lit "foo.webp") (Some (lit "webp")) (world_of vault_png_and_webp)
    = (Throw e, w')
    /\ files (world_of vault_png_and_webp) !! lit "img/foo.png" = Some (lit "PNG")
    /\ files w' !! lit "img/foo.png" = None
    /\ map_to_list (files w') = [(lit "img/foo.webp", lit "OLD")]
    /\ notices w' = [FormatConversionFailed CompressionFailed; FailedToRename (lit "foo-1.webp") e].
Proof.
  eexists. eexists. split; [vm_compute; reflexivity|].
  repeat split; vm_compute; reflexivity.
Qed.

(** The same in general: once the original is read and re-encoded, it is
    deleted before the new file is created, and a failure to create it
    leaves the vault without the original. *)
Lemma compressToFormat_write_failure env file targetFormat w original compressed :
  env_fault env (OpRead (TFile.path file)) = false ->
  env_fault env (OpDelete (TFile.path file)) = false ->
  files w !! TFile.path file = Some original ->
  env_compressBlob env original targetFormat = Some compressed ->
  let newPath := replace_first false extension_regex
                   (lit "." ++ getExtensionFromFormat targetFormat) (TFile.path file) in
  (env_fault env (OpCreate newPath) = true
   \/ is_Some (delete (TFile.path file) (files w) !! newPath)) ->
  exists w', compressToFormat env file targetFormat w = (Ok None, w')
             /\ files w' = delete (TFile.path file) (files w).
Proof.
  intros Hread Hdel Hfile Hblob newPath Hfail.
  unfold compressToFormat, try_catch, bind, set_isProcessingCompression,
    vault_readBinary, vault_delete, vault_createBinary, ret.
  cbn [files]. rewrite Hread, Hfile, Hblob. cbn [files]. rewrite Hdel, Hfile.
  fold newPath. unfold set_files. cbn [files].
  destruct (env_fault env (OpCreate newPath)) eqn:Ec.
  - eexists. split; reflexivity.
  - destruct Hfail as [Hfail|[x Hx]]; [discriminate|].
    rewrite Hx. eexists. split; reflexivity.
Qed.

(** When the image cannot be re-encoded nothing is deleted, and the
    confirmation falls back to the plain rename of the original. *)
Lemma renameModal_confirm_reencode_failure env settings file sourcePath confirmedName format w original :
  format <> [] -> format <> TFile.extension file ->
  env_fault env (OpRead (TFile.path file)) = false ->
  files w !! TFile.path file = Some original ->
  env_compressBlob env original format = None ->
  let w1 := {| files := files w; notices := notices w ++ [FormatConversionFailed CompressionFailed];
               modals := modals w; isProcessingCompression := true |} in
  renameModal_confirm env settings file sourcePath confirmedName (Some format) w
  = renameFile env settings file confirmedName sourcePath true w1.
Proof.
  intros Hne Hext Hread Hfile Hblob w1.
  unfold renameModal_confirm. destruct format as [|c f]; [contradiction|].
  apply Str_eqb_neq in Hext. rewrite Hext. cbn [negb].
  unfold try_catch at 1. unfold bind at 1.
  unfold compressToFormat, try_catch, bind, set_isProcessingCompression, vault_readBinary, ret.
  cbn [files]. rewrite Hread, Hfile, Hblob. unfold throw, new_Notice, add_notice. cbn.
  reflexivity.
Qed.

(** A name that is not meaningful is never applied by itself: the modal
    is opened with an empty proposal and the vault is left as it is. *)
Lemma startRenameProcess_not_meaningful
    (renderTemplate : str -> RenderContext -> option (gmap str str) -> str)
    env settings file autoRename activeFile g w :
  env_activeFile env = Some activeFile ->
  generateNewName renderTemplate settings (env_fileCache env) file activeFile = Some g ->
  Generated.isMeaningful g = false ->
  startRenameProcess renderTemplate env settings file autoRename w
  = (Ok tt, {| files := files w; notices := notices w;
               modals := modals w ++ [{| modal_file := file; modal_stem := [];
                                         modal_sourcePath := TFile.path activeFile |}];
               isProcessingCompression := isProcessingCompression w |}).
Proof.
  intros Ha Hg Hm. unfold startRenameProcess. rewrite Ha, Hg, Hm. reflexivity.
Qed.

(** The rename that [startRenameProcess] starts is not awaited: when
    the vault rejects it, the notice of the failure is shown and
    [startRenameProcess] itself ends without an exception, the file where
    it was. *)
Example startRenameProcess_rename_not_awaited :
  exists w',
    startRenameProcess render_fileName (example_env foo_png_locked) DEFAULT_SETTINGS foo_png true
      (world_of vault_two_images) = (Ok tt, w')
    /\ notices w'
       = [FailedToRename (lit "note.png")
            (IOError (OpRename (lit "img/foo.png") (lit "img/note.png")))]
    /\ files w' = vault_two_images.
Proof. eexists. split; [vm_compute; reflexivity|]. split; reflexivity. Qed.

(** With the delimiter []{] the text of [meaninglessRegex] is
    [[]{\s]]: an empty class, then three characters.  It is a regular
    expression, which matches nothing, and a stem that is one space is
    meaningful. *)
Example generateNewName_delimiter_closes_class :
  exists g,
    generateNewName (fun _ _ _ => lit " ")
      (set_dupNumberDelimiter (lit "]{") DEFAULT_SETTINGS) None foo_png note_md = Some g
    /\ Generated.isMeaningful g = true.
Proof. eexists. split; vm_compute; reflexivity. Qed.

(** ** Scenarios of the spec *)

(** Numbering goes on from the largest number found. *)
Example scenario_numbering_monotone :
  resolved_name DEFAULT_SETTINGS [lit "foo-1.png"; lit "foo-2.png"; lit "foo.png"] (lit "foo.png")
  = Some (lit "foo-3.png").
Proof. vm_compute. reflexivity. Qed.

(** A gap is not filled: with [-1] and [-3] the next is [-4]. *)
Example scenario_gap_not_reused :
  resolved_name DEFAULT_SETTINGS [lit "foo.png"; lit "foo-1.png"; lit "foo-3.png"] (lit "foo.png")
  = Some (lit "foo-4.png").
Proof. vm_compute. reflexivity. Qed.

(** Prefix mode. *)
Example scenario_prefix_mode :
  resolved_name (set_dupNumber true false DEFAULT_SETTINGS)
    [lit "1-foo.png"; lit "2-foo.png"; lit "foo.png"] (lit "foo.png")
  = Some (lit "3-foo.png").
Proof. vm_compute. reflexivity. Qed.

(** [dupNumberAlways] numbers a name that collides with nothing. *)
Example scenario_always_numbered :
  resolved_name (set_dupNumber false true DEFAULT_SETTINGS) [] (lit "bar.png")
  = Some (lit "bar-1.png").
Proof. vm_compute. reflexivity. Qed.

(** Two pastes in a row: the first keeps the name, the second, which
    sees the first in the listing, gets [-1]. *)
Example scenario_double_paste :
  resolved_name DEFAULT_SETTINGS [] (lit "foo.png") = Some (lit "foo.png")
  /\ resolved_name DEFAULT_SETTINGS [lit "foo.png"] (lit "foo.png") = Some (lit "foo-1.png").
Proof. split; vm_compute; reflexivity. Qed.

(** A stem with characters that mean something in a pattern is matched
    as it is written. *)
Example scenario_special_stem :
  resolved_name DEFAULT_SETTINGS
    [lit "a+b (1).png"; lit "a+b (1)-1.png"; lit "aab (1)-7.png"] (lit "a+b (1).png")
  = Some (lit "a+b (1)-2.png").
Proof. vm_compute. reflexivity. Qed.

(* ================================================================== *)
(** * Part III. Further properties of the code                         *)
(* ================================================================== *)

(** ** Text replacement *)

Lemma expand_dollar_free replacement matched before after :
  dollar_free replacement -> expand replacement matched before after = replacement.
Proof.
  unfold dollar_free. induction replacement as [|x rest IH]; intros H; [reflexivity|].
  cbn [expand]. destruct (Ascii.eqb x "$") eqn:E.
  - apply Ascii.eqb_eq in E. subst x. exfalso. apply H. now left.
  - f_equal. apply IH. intros Hin. apply H. now right.
Qed.

Lemma matcher_literal_accept ml l b s c :
  matcher (flags_of ml) true (seq_of (literal l)) accept b s c
  = match Str.strip_prefix l s with
    | Some s' => Some (s', c)
    | None => None
    end.
Proof.
  rewrite <- (app_nil_r (literal l)). rewrite matcher_literal.
  now destruct (Str.strip_prefix l s).
Qed.

Lemma startsWith_strip_prefix p s :
  Str.startsWith p s = match Str.strip_prefix p s with Some _ => true | None => false end.
Proof.
  revert s; induction p as [|a p IH]; intros [|b s]; cbn; try reflexivity.
  destruct (Ascii.eqb a b); [apply IH | reflexivity].
Qed.

Lemma groupless_literal l : groupless (seq_of (literal l)) = true.
Proof. induction l as [|a l IH]; [reflexivity|exact IH]. Qed.

(** The escaped form of a text is the pattern of that text. *)
Lemma RegExp_escapeRegExp text : RegExp (escapeRegExp text) = Some (seq_of (literal text)).
Proof.
  unfold RegExp.
  rewrite <- (app_nil_r (escapeRegExp text)), prescan_escapeRegExp, parse_escapeRegExp.
  cbn [parse_go prescan]. unfold alt_of. cbn [fold_left].
  now rewrite !app_nil_r, rev_involutive, names_ok_literal_only.
Qed.

Lemma RegExp_plain text : regex_plain text -> RegExp text = Some (seq_of (literal text)).
Proof.
  intros H. unfold RegExp.
  rewrite <- (app_nil_r text), prescan_plain, parse_plain by assumption.
  cbn [parse_go prescan]. unfold alt_of. cbn [fold_left].
  now rewrite !app_nil_r, rev_involutive, names_ok_literal_only.
Qed.

(** A pattern of plain text finds the text wherever it occurs. *)
Lemma exec_from_literal_includes l i b s :
  match exec_from (flags_of false) (seq_of (literal l)) i b s with
  | Some _ => true
  | None => false
  end = includes l s.
Proof.
  revert i b; induction s as [|x s IH]; intros i b.
  - cbn [exec_from includes]. rewrite matcher_literal_accept, startsWith_strip_prefix.
    destruct (Str.strip_prefix l []); reflexivity.
  - cbn [exec_from includes]. rewrite matcher_literal_accept, startsWith_strip_prefix.
    destruct (Str.strip_prefix l (x :: s)); [reflexivity|]. cbn [orb]. apply IH.
Qed.

Lemma test_literal l s : test false (seq_of (literal l)) s = includes l s.
Proof. unfold test, exec. apply exec_from_literal_includes. Qed.

(** *** The escape of [replaceAllLinksInEditor] *)

Lemma escape_class_eq : escape_class = seq_of [Class false (map CChar syntax_chars)].
Proof. reflexivity. Qed.

Lemma in_class_chars l c : in_class false (map CChar l) c = existsb (Ascii.eqb c) l.
Proof.
  unfold in_class. cbn [xorb]. induction l as [|a l IH]; [reflexivity|].
  cbn [map existsb in_item]. now rewrite IH.
Qed.

Lemma replace_pattern_from_escape fuel before s :
  length s < fuel ->
  replace_pattern_from fuel false escape_class (lit "\$&") before s = escapeRegExp s.
Proof.
  rewrite escape_class_eq.
  revert before s; induction fuel as [|fuel IH]; intros before s Hlen; [lia|].
  destruct s as [|x s]; [reflexivity|].
  cbn [replace_pattern_from seq_of fold_right matcher char_in flags_of ignoreCase].
  rewrite in_class_chars.
  unfold escapeRegExp. cbn [flat_map]. fold (is_syntax_char x).
  destruct (is_syntax_char x).
  - unfold accept.
    assert (Hlt : (length s <? length (x :: s)) = true) by (apply Nat.ltb_lt; cbn; lia).
    rewrite Hlt.
    replace (length (x :: s) - length s) with 1 by (cbn; lia).
    cbn [firstn expand lit list_ascii_of_string Ascii.eqb Bool.eqb andb app].
    do 2 f_equal. apply IH. cbn in Hlen. lia.
  - cbn [app]. f_equal. apply IH. cbn in Hlen. lia.
Qed.

Lemma escape_link_eq text : escape_link text = Some (escapeRegExp text).
Proof.
  unfold escape_link, replace_pattern.
  change (groupless escape_class) with true. cbv iota.
  f_equal. apply replace_pattern_from_escape. lia.
Qed.

(** *** Replacing a literal text *)

Lemma substitute_go_skip old new l s :
  old <> [] -> substitute_go old new (length l) (l ++ s) = substitute_go old new 0 s.
Proof.
  intros Hold. induction l as [|a l IH]; [reflexivity|].
  cbn [length app substitute_go]. exact IH.
Qed.

Lemma replace_pattern_from_literal fuel old new before s :
  dollar_free new -> length s < fuel ->
  replace_pattern_from fuel false (seq_of (literal old)) new before s = substitute old new s.
Proof.
  intros Hnew. unfold substitute.
  revert before s; induction fuel as [|fuel IH]; intros before s Hlen; [lia|].
  cbn [replace_pattern_from]. rewrite matcher_literal_accept.
  destruct (Str.strip_prefix old s) as [s'|] eqn:E.
  - rewrite expand_dollar_free by assumption.
    pose proof (strip_prefix_Some _ _ _ E) as Hs.
    destruct old as [|a old].
    + cbn in E. injection E as <-. rewrite Nat.ltb_irrefl.
      destruct s as [|x s]; [cbn; now rewrite app_nil_r|].
      cbn [substitute_go Str.startsWith length]. do 2 f_equal. apply IH. cbn in Hlen. lia.
    + subst s. cbn [app].
      assert (Hlt : (length s' <? length (a :: old ++ s')) = true).
      { apply Nat.ltb_lt. cbn. rewrite length_app. lia. }
      rewrite Hlt. cbn [substitute_go].
      rewrite startsWith_strip_prefix.
      change (Str.strip_prefix (a :: old) (a :: old ++ s'))
        with (Str.strip_prefix (a :: old) ((a :: old) ++ s')).
      rewrite E. cbn [length].
      f_equal. rewrite substitute_go_skip by discriminate.
      apply IH. cbn in Hlen. rewrite length_app in Hlen. lia.
  - destruct s as [|x s].
    + destruct old; [discriminate E | reflexivity].
    + cbn [substitute_go]. rewrite startsWith_strip_prefix, E. f_equal.
      apply IH. cbn in Hlen. lia.
Qed.

Lemma replace_pattern_literal old new s :
  dollar_free new ->
  replace_pattern false (seq_of (literal old)) new s = Some (substitute old new s).
Proof.
  intros Hnew. unfold replace_pattern. rewrite groupless_literal. f_equal.
  apply replace_pattern_from_literal; [assumption | lia].
Qed.

Lemma replace_link_eq text new content :
  dollar_free new -> replace_link text new content = Some (substitute text new content).
Proof.
  intros Hnew. unfold replace_link. rewrite escape_link_eq. cbn.
  rewrite RegExp_escapeRegExp. cbn. now apply replace_pattern_literal.
Qed.

Lemma replace_link_total text new content : is_Some (replace_link text new content).
Proof.
  unfold replace_link. rewrite escape_link_eq. cbn. rewrite RegExp_escapeRegExp. cbn.
  unfold replace_pattern. rewrite groupless_literal. eexists. reflexivity.
Qed.

(** Where the text does not occur nothing is replaced, whatever the
    replacement string. *)
Lemma replace_pattern_from_absent fuel old new before s :
  includes old s = false -> length s < fuel ->
  replace_pattern_from fuel false (seq_of (literal old)) new before s = s.
Proof.
  revert before s; induction fuel as [|fuel IH]; intros before s Habs Hlen; [lia|].
  cbn [replace_pattern_from]. rewrite matcher_literal_accept.
  destruct s as [|x s].
  - cbn in Habs. rewrite orb_false_r, startsWith_strip_prefix in Habs.
    destruct (Str.strip_prefix old []); [discriminate|reflexivity].
  - cbn [includes] in Habs. apply orb_false_iff in Habs as [H1 H2].
    rewrite startsWith_strip_prefix in H1.
    destruct (Str.strip_prefix old (x :: s)); [discriminate|].
    f_equal. apply IH; [assumption | cbn in Hlen; lia].
Qed.

Lemma replace_link_absent text new content :
  includes text content = false -> replace_link text new content = Some content.
Proof.
  intros Habs. unfold replace_link. rewrite escape_link_eq. cbn.
  rewrite RegExp_escapeRegExp. cbn. unfold replace_pattern. rewrite groupless_literal.
  f_equal. apply replace_pattern_from_absent; [assumption | lia].
Qed.

Lemma dollar_free_lit_space : dollar_free (lit " ").
Proof. intros [H|[]]; discriminate H. Qed.

Lemma dollar_free_lit_percent20 : dollar_free (lit "%20").
Proof. intros [H|[H|[H|[]]]]; discriminate H. Qed.

Lemma decode_spaces_eq text :
  replace_pattern false (regex_literal (lit "%20")) (lit " ") text
  = Some (substitute (lit "%20") (lit " ") text).
Proof. apply (replace_pattern_literal (lit "%20")), dollar_free_lit_space. Qed.

Lemma encode_spaces_eq text :
  replace_pattern false (regex_literal (lit " ")) (lit "%20") text
  = Some (substitute (lit " ") (lit "%20") text).
Proof. apply (replace_pattern_literal (lit " ")), dollar_free_lit_percent20. Qed.

(** ** Properties of [replaceAllLinksInEditor] *)

(** X1. The escape written out in [replaceAllLinksInEditor] puts one
    backslash before each of the characters [. * + ? ^ $ { } ( ) | [ ] \]
    of a link text and leaves every other character as it is; the
    result is always a pattern, and that pattern finds the link text
    exactly where the text occurs. *)
Theorem X1_escaped_link_is_literal text :
  exists escaped re,
    escape_link text = Some escaped
    /\ escaped = flat_map (fun c => if existsb (Ascii.eqb c) (lit ".*+?^${}()|[]\")
                                    then ["\"%char; c] else [c]) text
    /\ RegExp escaped = Some re
    /\ forall t, test false re t = includes text t.
Proof.
  exists (escapeRegExp text), (seq_of (literal text)).
  split; [apply escape_link_eq|]. split; [reflexivity|].
  split; [apply RegExp_escapeRegExp|]. intros t. apply test_literal.
Qed.

(** X2. [replaceAllLinksInEditor] never throws, whatever the link
    texts.  When the new link text holds no dollar and differs from the
    original one, the text it computes is the content with every
    occurrence of the original link text replaced by the new one, then,
    if the original holds [%20], every occurrence of the original with
    its [%20] turned into blanks, then, if the original holds a blank,
    every occurrence of the original with its blanks turned into [%20];
    the editor is set to that text unless it is the content it had. *)
Theorem X2_links_replaced_as_text content originalLinkText newLinkText :
  (exists effect, replaceAllLinksInEditor (Some content) originalLinkText newLinkText = Some effect)
  /\ (dollar_free newLinkText -> originalLinkText <> newLinkText ->
      let updated1 := substitute originalLinkText newLinkText content in
      let updated2 :=
        if includes (lit "%20") originalLinkText
        then substitute (substitute (lit "%20") (lit " ") originalLinkText) newLinkText updated1
        else updated1 in
      let updated3 :=
        if includes (lit " ") originalLinkText
        then substitute (substitute (lit " ") (lit "%20") originalLinkText) newLinkText updated2
        else updated2 in
      replaceAllLinksInEditor (Some content) originalLinkText newLinkText
      = Some (if Str.eqb content updated3 then Untouched else SetValue updated3)).
Proof.
  split.
  - unfold replaceAllLinksInEditor.
    destruct (Str.eqb originalLinkText newLinkText); [eexists; reflexivity|].
    destruct (replace_link_total originalLinkText newLinkText content) as [u1 ->]. cbn [mbind option_bind].
    assert (H2 : exists u2,
               (if includes (lit "%20") originalLinkText
                then unescapedOriginal ←
                       replace_pattern false (regex_literal (lit "%20")) (lit " ") originalLinkText;
                     replace_link unescapedOriginal newLinkText u1
                else Some u1) = Some u2).
    { destruct (includes (lit "%20") originalLinkText); [|eexists; reflexivity].
      rewrite decode_spaces_eq. cbn [mbind option_bind]. apply replace_link_total. }
    destruct H2 as [u2 ->]. cbn [mbind option_bind].
    assert (H3 : exists u3,
               (if includes (lit " ") originalLinkText
                then encodedOriginal ←
                       replace_pattern false (regex_literal (lit " ")) (lit "%20") originalLinkText;
                     replace_link encodedOriginal newLinkText u2
                else Some u2) = Some u3).
    { destruct (includes (lit " ") originalLinkText); [|eexists; reflexivity].
      rewrite encode_spaces_eq. cbn [mbind option_bind]. apply replace_link_total. }
    destruct H3 as [u3 ->]. cbn [mbind option_bind]. eexists. reflexivity.
  - intros Hnew Hne updated1 updated2 updated3.
    unfold replaceAllLinksInEditor.
    apply Str_eqb_neq in Hne. rewrite Hne.
    rewrite replace_link_eq by assumption. cbn [mbind option_bind]. fold updated1.
    assert (H2 : (if includes (lit "%20") originalLinkText
                  then unescapedOriginal ←
                         replace_pattern false (regex_literal (lit "%20")) (lit " ") originalLinkText;
                       replace_link unescapedOriginal newLinkText updated1
                  else Some updated1) = Some updated2).
    { unfold updated2. destruct (includes (lit "%20") originalLinkText); [|reflexivity].
      rewrite decode_spaces_eq. cbn [mbind option_bind]. now apply replace_link_eq. }
    rewrite H2. cbn [mbind option_bind].
    assert (H3 : (if includes (lit " ") originalLinkText
                  then encodedOriginal ←
                         replace_pattern false (regex_literal (lit " ")) (lit "%20") originalLinkText;
                       replace_link encodedOriginal newLinkText updated2
                  else Some updated2) = Some updated3).
    { unfold updated3. destruct (includes (lit " ") originalLinkText); [|reflexivity].
      rewrite encode_spaces_eq. cbn [mbind option_bind]. now apply replace_link_eq. }
    rewrite H3. reflexivity.
Qed.

Lemma X2_witness :
  replaceAllLinksInEditor (Some (lit "![[a b.png]] and ![](a%20b.png)"))
    (lit "a b.png") (lit "c.webp")
  = Some (SetValue (lit "![[c.webp]] and ![](c.webp)")).
Proof.
  assert (Hnew : dollar_free (lit "c.webp")).
  { intros H. cbn in H. repeat destruct H as [H|H]; try discriminate H. exact H. }
  assert (Hne : lit "a b.png" <> lit "c.webp") by discriminate.
  destruct (X2_links_replaced_as_text (lit "![[a b.png]] and ![](a%20b.png)")
              (lit "a b.png") (lit "c.webp")) as [_ H].
  rewrite (H Hnew Hne). reflexivity.
Defined.

Lemma substitute_absent old new s : includes old s = false -> substitute old new s = s.
Proof.
  unfold substitute. induction s as [|x s IH]; intros H.
  - cbn in H. rewrite orb_false_r in H. destruct old; [discriminate H | reflexivity].
  - cbn [includes] in H. apply orb_false_iff in H as [H1 H2].
    cbn [substitute_go]. rewrite H1. f_equal. now apply IH.
Qed.

(** X3. When the content of the editor holds neither the original link
    text, nor the original with its [%20] turned into blanks, nor the
    original with its blanks turned into [%20], [replaceAllLinksInEditor]
    leaves the editor untouched, whatever the new link text is. *)
Theorem X3_links_absent_editor_untouched content originalLinkText newLinkText :
  includes originalLinkText content = false ->
  includes (substitute (lit "%20") (lit " ") originalLinkText) content = false ->
  includes (substitute (lit " ") (lit "%20") originalLinkText) content = false ->
  replaceAllLinksInEditor (Some content) originalLinkText newLinkText = Some Untouched.
Proof.
  intros H1 H2 H3. unfold replaceAllLinksInEditor.
  destruct (Str.eqb originalLinkText newLinkText); [reflexivity|].
  rewrite replace_link_absent by assumption. cbn [mbind option_bind].
  assert (E2 : (if includes (lit "%20") originalLinkText
                then unescapedOriginal ←
                       replace_pattern false (regex_literal (lit "%20")) (lit " ") originalLinkText;
                     replace_link unescapedOriginal newLinkText content
                else Some content) = Some content).
  { destruct (includes (lit "%20") originalLinkText); [|reflexivity].
    rewrite decode_spaces_eq. cbn [mbind option_bind]. now apply replace_link_absent. }
  rewrite E2. cbn [mbind option_bind].
  assert (E3 : (if includes (lit " ") originalLinkText
                then encodedOriginal ←
                       replace_pattern false (regex_literal (lit " ")) (lit "%20") originalLinkText;
                     replace_link encodedOriginal newLinkText content
                else Some content) = Some content).
  { destruct (includes (lit " ") originalLinkText); [|reflexivity].
    rewrite encode_spaces_eq. cbn [mbind option_bind]. now apply replace_link_absent. }
  rewrite E3. cbn [mbind option_bind]. now rewrite Str_eqb_refl.
Qed.

Lemma X3_witness :
  replaceAllLinksInEditor (Some (lit "no image here")) (lit "![[a b.png]]") (lit "![[$&.webp]]")
  = Some Untouched.
Proof.
  apply (X3_links_absent_editor_untouched (lit "no image here") (lit "![[a b.png]]")
           (lit "![[$&.webp]]")); reflexivity.
Defined.

(** A dollar of the new link text is read as in any replacement
    string: [$&] brings the original link text back. *)
Example replaceAllLinksInEditor_dollar :
  replaceAllLinksInEditor (Some (lit "![[a.png]]")) (lit "a.png") (lit "US$&.webp")
  = Some (SetValue (lit "![[USa.png.webp]]")).
Proof. reflexivity. Qed.

(** ** The pattern of an extension, [/\.[^.]+$/] *)

Lemma extension_regex_eq :
  extension_regex = seq_of [Chr "."; Repeat 1 None true (Class true [CChar "."]); Eol].
Proof. reflexivity. Qed.

Lemma in_class_not_dot x : in_class true [CChar "."] x = not_dot x.
Proof. unfold in_class, not_dot. cbn. now rewrite orb_false_r. Qed.

Lemma star_not_dot fuel b s c :
  length s <= fuel ->
  repeat_loop fuel [] (matcher (flags_of false) true (Class true [CChar "."])) None true
    (matcher (flags_of false) true (seq_of [Eol]) accept) b s c
  = if forallb not_dot s then Some ([], c) else None.
Proof.
  revert b s; induction fuel as [|fuel IH]; intros b s Hlen.
  - destruct s; [reflexivity | cbn in Hlen; lia].
  - cbn [repeat_loop matcher clear char_in flags_of ignoreCase].
    destruct s as [|x s]; [reflexivity|].
    rewrite in_class_not_dot. cbn [forallb].
    destruct (not_dot x); [|reflexivity].
    rewrite length_neq_cons. cbn [option_map]. rewrite IH by (cbn in Hlen; lia).
    cbn [andb]. destruct (forallb not_dot s); reflexivity.
Qed.

Lemma matcher_extension b s :
  matcher (flags_of false) true extension_regex accept b s []
  = match s with
    | c :: x :: t => if Ascii.eqb c "." && forallb not_dot (x :: t) then Some ([], []) else None
    | _ => None
    end.
Proof.
  rewrite extension_regex_eq. rewrite matcher_seq_cons.
  cbn [matcher char_eq flags_of ignoreCase].
  destruct s as [|c s]; [reflexivity|].
  destruct (Ascii.eqb c ".") eqn:Ec; [|now destruct s].
  rewrite matcher_seq_cons. cbn [matcher andb groups_of].
  change (N.to_nat 1) with 1. cbn [repeat_min matcher clear option_map char_in flags_of ignoreCase].
  destruct s as [|x t]; [reflexivity|].
  rewrite in_class_not_dot. cbn [forallb].
  destruct (not_dot x); [|reflexivity].
  rewrite star_not_dot by lia. reflexivity.
Qed.

Lemma forallb_not_dot_last_index t :
  forallb not_dot t = true <-> Str.last_index "." t = None.
Proof.
  induction t as [|x t IH]; [easy|]. cbn [forallb Str.last_index]. unfold not_dot at 1.
  split.
  - intros H. apply andb_true_iff in H as [Hx Ht]. apply IH in Ht. rewrite Ht.
    apply negb_true_iff in Hx. now rewrite Hx.
  - destruct (Str.last_index "." t); [discriminate|].
    destruct (Ascii.eqb x "."); [discriminate|]. intros _. now apply IH.
Qed.

(** The leftmost match of the pattern is at the last dot, when
    something follows that dot. *)
Lemma exec_from_extension i b s :
  exec_from (flags_of false) extension_regex i b s
  = match Str.last_index "." s with
    | Some j =>
        if S j <? length s
        then Some {| index := i + j; matched := skipn j s; captures := []; groups := [] |}
        else None
    | None => None
    end.
Proof.
  revert i b; induction s as [|c s IH]; intros i b; [reflexivity|].
  cbn [exec_from]. rewrite matcher_extension. cbn [Str.last_index].
  destruct s as [|x t].
  - cbn. destruct (Ascii.eqb c "."); reflexivity.
  - destruct (Ascii.eqb c "." && forallb not_dot (x :: t)) eqn:E.
    + apply andb_true_iff in E as [Ec Ht]. apply forallb_not_dot_last_index in Ht.
      rewrite Ht, Ec. cbn [length Nat.ltb Nat.leb].
      rewrite Nat.add_0_r, Nat.sub_0_r. cbn [skipn].
      change (S (S (length t))) with (length (c :: x :: t)). now rewrite firstn_all.
    + rewrite IH. destruct (Str.last_index "." (x :: t)) as [j|] eqn:Ej.
      * change (S (S j) <? length (c :: x :: t)) with (S j <? length (x :: t)).
        destruct (S j <? length (x :: t)); [|reflexivity].
        cbn [skipn]. do 2 f_equal. lia.
      * apply forallb_not_dot_last_index in Ej. rewrite Ej, andb_true_r in E. now rewrite E.
Qed.

Lemma replace_first_extension repl s :
  replace_first false extension_regex repl s = replace_extension repl s.
Proof.
  unfold replace_first, exec, replace_extension, Str.last_dot. rewrite exec_from_extension.
  destruct (Str.last_index "." s) as [j|] eqn:Ej; [|reflexivity].
  destruct (S j <? length s) eqn:Elt; [|reflexivity].
  cbn [index matched]. apply Nat.ltb_lt in Elt.
  rewrite length_skipn. cbn [Nat.add].
  replace (j + (length s - j)) with (length s) by lia.
  now rewrite skipn_all, app_nil_r.
Qed.

Lemma replace_extension_app repl base ext :
  ext <> [] -> ~ In "."%char ext ->
  replace_extension repl (base ++ lit "." ++ ext) = base ++ repl.
Proof.
  intros Hne Hdot. unfold replace_extension, Str.last_dot.
  cbn [lit list_ascii_of_string app]. rewrite last_index_app by assumption.
  assert (Hlt : (S (length base) <? length (base ++ "."%char :: ext)) = true).
  { apply Nat.ltb_lt. rewrite length_app. cbn. destruct ext; [contradiction|cbn; lia]. }
  rewrite Hlt. now rewrite firstn_app, Nat.sub_diag, firstn_all, app_nil_r.
Qed.

(** X4. [text.replace(/\.[^.]+$/, repl)], which [compressToFormat]
    applies to the path of the file and the rename modal to the
    confirmed name, replaces the last dot of the text and what follows
    it, when something follows it: [base.ext] becomes [base] and
    [repl] for an extension that is not empty and has no dot.  A text
    without a dot, and a text that ends in a dot, is returned as it is.
    The dot is looked for in the whole text: the path of a file
    without an extension is cut at a dot of its folder. *)
Theorem X4_extension_replaced repl :
  (forall s, replace_first false extension_regex repl s = replace_extension repl s)
  /\ (forall base ext, ext <> [] -> ~ In "."%char ext ->
        replace_first false extension_regex repl (base ++ lit "." ++ ext) = base ++ repl)
  /\ (forall s, ~ In "."%char s -> replace_first false extension_regex repl s = s)
  /\ (forall base, replace_first false extension_regex repl (base ++ lit ".") = base ++ lit ".")
  /\ (forall parent tail name, ~ In "."%char tail -> ~ In "."%char name ->
        replace_first false extension_regex repl (parent ++ lit "." ++ tail ++ lit "/" ++ name)
        = parent ++ repl).
Proof.
  split; [apply replace_first_extension|]. split; [|split; [|split]].
  - intros base ext Hne Hdot. rewrite replace_first_extension. now apply replace_extension_app.
  - intros s Hdot. rewrite replace_first_extension. unfold replace_extension, Str.last_dot.
    now rewrite last_index_None.
  - intros base. rewrite replace_first_extension. unfold replace_extension, Str.last_dot.
    cbn [lit list_ascii_of_string]. rewrite last_index_app by (intros []).
    rewrite length_app. cbn [length]. replace (length base + 1) with (S (length base)) by lia.
    now rewrite Nat.ltb_irrefl.
  - intros parent tail name Ht Hn. rewrite replace_first_extension.
    apply replace_extension_app.
    + destruct tail; discriminate.
    + intros Hin. apply in_app_or in Hin as [Hin|Hin]; [now apply Ht|].
      cbn in Hin. destruct Hin as [Hin|Hin]; [discriminate Hin | now apply Hn].
Qed.

Lemma X4_witness :
  replace_first false extension_regex (lit ".webp") (lit "img/my photo" ++ lit "." ++ lit "png")
    = lit "img/my photo" ++ lit ".webp"
  /\ replace_first false extension_regex (lit ".webp")
       (lit "notes" ++ lit "." ++ lit "v2" ++ lit "/" ++ lit "scan")
     = lit "notes" ++ lit ".webp".
Proof.
  destruct (X4_extension_replaced (lit ".webp")) as (_ & Hext & _ & _ & Hdir).
  split.
  - apply Hext; [discriminate|]. intros [H|[H|[H|[]]]]; discriminate H.
  - apply Hdir.
    + intros [H|[H|[]]]; discriminate H.
    + intros [H|[H|[H|[H|[]]]]]; discriminate H.
Defined.

(** X5. The name the rename modal hands over with a format is the
    name the conversion branch of [openRenameModal] goes on with: for a
    format without a dot, taking the extension off the confirmed name
    and putting the format after it gives the confirmed name back,
    whatever the stem typed, dots included. *)
Theorem X5_confirmed_name_kept stem selectedFormat ext finalName format :
  doRename stem selectedFormat ext = (finalName, Some format) ->
  format <> [] -> ~ In "."%char format ->
  finalName = stem ++ lit "." ++ format
  /\ format <> ext
  /\ replace_first false extension_regex [] finalName ++ lit "." ++ format = finalName.
Proof.
  unfold doRename. destruct (Str.eqb selectedFormat ext) eqn:E; [discriminate|].
  cbn [negb]. destruct selectedFormat as [|c f].
  - intros [= <- <-] Hne. contradiction.
  - intros [= <- <-] Hne Hdot.
    split; [reflexivity|]. split; [now apply Str_eqb_neq|].
    rewrite replace_first_extension.
    change (stem ++ "."%char :: c :: f) with (stem ++ lit "." ++ (c :: f)).
    rewrite replace_extension_app by assumption.
    now rewrite app_nil_r.
Qed.

Lemma X5_witness :
  replace_first false extension_regex [] (lit "my.photo.webp") ++ lit "." ++ lit "webp"
  = lit "my.photo.webp".
Proof.
  assert (Hdot : ~ In "."%char (lit "webp")) by (intros [H|[H|[H|[H|[]]]]]; discriminate H).
  assert (Hne : lit "webp" <> []) by discriminate.
  exact (proj2 (proj2 (X5_confirmed_name_kept (lit "my.photo") (lit "webp") (lit "png")
                         (lit "my.photo.webp") (lit "webp") eq_refl Hne Hdot))).
Defined.

(** ** Properties of [compressToFormat] *)

Lemma vault_on_create_processing settings now created :
  vault_on_create settings true now created = Ignored.
Proof.
  unfold vault_on_create. destruct created as [f|d]; [|reflexivity].
  destruct (now - TFile.ctime f >? 1000)%Z; [reflexivity|].
  destruct (isMarkdownFile (AFile f)); reflexivity.
Qed.

(** The outcomes of [compressToFormat], one by one. *)
Lemma compressToFormat_cases env file targetFormat w :
  let path := TFile.path file in
  let newPath := replace_extension (lit "." ++ getExtensionFromFormat targetFormat) path in
  let flag b := {| files := files w; notices := notices w; modals := modals w;
                   isProcessingCompression := b |} in
  let unreadable := env_fault env (OpRead path) = true \/ files w !! path = None in
  (unreadable /\ compressToFormat env file targetFormat w = (Ok None, flag false))
  \/ (exists original,
        env_fault env (OpRead path) = false /\ files w !! path = Some original
        /\ ((env_compressBlob env original targetFormat = None
             /\ compressToFormat env file targetFormat w = (Ok None, flag true))
            \/ (exists compressed,
                  env_compressBlob env original targetFormat = Some compressed
                  /\ ((env_fault env (OpDelete path) = true
                       /\ compressToFormat env file targetFormat w = (Ok None, flag false))
                      \/ (env_fault env (OpDelete path) = false
                          /\ (env_fault env (OpCreate newPath) = true
                              \/ is_Some (delete path (files w) !! newPath))
                          /\ compressToFormat env file targetFormat w
                             = (Ok None, set_files (flag false) (delete path (files w))))
                      \/ (env_fault env (OpDelete path) = false
                          /\ env_fault env (OpCreate newPath) = false
                          /\ delete path (files w) !! newPath = None
                          /\ compressToFormat env file targetFormat w
                             = (Ok (Some (Path.to_TFile newPath)),
                                set_files (flag false)
                                  (<[newPath := compressed]> (delete path (files w))))))))).
Proof.
  intros path newPath flag unreadable.
  unfold compressToFormat, try_catch, bind, set_isProcessingCompression,
    vault_readBinary, vault_delete, vault_createBinary, ret.
  rewrite replace_first_extension. fold path newPath. cbn [files].
  destruct (env_fault env (OpRead path)) eqn:Eread.
  { left. split; [now left | reflexivity]. }
  destruct (files w !! path) as [original|] eqn:Efile.
  2:{ left. split; [now right | reflexivity]. }
  right. exists original. split; [reflexivity|]. split; [reflexivity|].
  destruct (env_compressBlob env original targetFormat) as [compressed|] eqn:Eblob.
  2:{ left. split; reflexivity. }
  right. exists compressed. split; [reflexivity|].
  cbn [files]. destruct (env_fault env (OpDelete path)) eqn:Edel.
  { left. split; reflexivity. }
  rewrite Efile. unfold set_files. cbn [files notices modals isProcessingCompression].
  destruct (env_fault env (OpCreate newPath)) eqn:Ecreate.
  { right. left. split; [reflexivity|]. split; [now left | reflexivity]. }
  destruct (delete path (files w) !! newPath) as [old|] eqn:Enew.
  { right. left. split; [reflexivity|]. split; [right; now exists old | reflexivity]. }
  right. right. repeat split; reflexivity.
Qed.

(** X6. [compressToFormat] never throws and shows no notice.  It
    leaves the flag [isProcessingCompression] set exactly when the file
    was read and the encoder produced nothing ([compressBlob] resolved
    to null): that return is the one place that does not clear the
    flag.  The vault is then as it was, and from then on the handler of
    the [create] event ignores every file. *)
Theorem X6_compressToFormat_flag env file targetFormat w :
  exists r w',
    compressToFormat env file targetFormat w = (Ok r, w')
    /\ notices w' = notices w /\ modals w' = modals w
    /\ (isProcessingCompression w' = true <->
        env_fault env (OpRead (TFile.path file)) = false
        /\ exists original, files w !! TFile.path file = Some original
                            /\ env_compressBlob env original targetFormat = None)
    /\ (isProcessingCompression w' = true ->
        r = None /\ files w' = files w
        /\ forall settings now created,
             vault_on_create settings (isProcessingCompression w') now created = Ignored).
Proof.
  destruct (compressToFormat_cases env file targetFormat w)
    as [[Hun ->]|(original & Hread & Hfile & [[Hblob ->]|(compressed & Hblob &
         [[Hdel ->]|[(Hdel & Hfail & ->)|(Hdel & Hcreate & Hnew & ->)]])])];
    eexists; eexists; (split; [reflexivity|]); cbn [notices modals isProcessingCompression files set_files];
    (split; [reflexivity|]); (split; [reflexivity|]).
  - split; [|discriminate]. split; [discriminate|].
    intros (Hr & o & Ho & _). destruct Hun as [Hun|Hun]; congruence.
  - split.
    + split; [intros _; split; [exact Hread | now exists original] | reflexivity].
    + intros _. split; [reflexivity|]. split; [reflexivity|].
      intros settings now created. apply vault_on_create_processing.
  - split; [|discriminate]. split; [discriminate|].
    intros (_ & o & Ho & Hb). congruence.
  - split; [|discriminate]. split; [discriminate|].
    intros (_ & o & Ho & Hb). congruence.
  - split; [|discriminate]. split; [discriminate|].
    intros (_ & o & Ho & Hb). congruence.
Qed.

Lemma X6_witness :
  exists r w',
    compressToFormat null_encoder_env foo_png (lit "webp") (world_of vault_two_images) = (Ok r, w')
    /\ isProcessingCompression w' = true
    /\ vault_on_create DEFAULT_SETTINGS (isProcessingCompression w') 5400 (AFile pasted_png) = Ignored.
Proof.
  destruct (X6_compressToFormat_flag null_encoder_env foo_png (lit "webp")
              (world_of vault_two_images)) as (r & w' & Hrun & _ & _ & Hflag & Hstuck).
  exists r, w'. split; [exact Hrun|].
  assert (Hset : isProcessingCompression w' = true).
  { apply Hflag. split; [reflexivity|]. exists (lit "FOO"). split; reflexivity. }
  split; [exact Hset|]. now apply Hstuck.
Defined.

(** X7. Whatever the outcome, [compressToFormat] changes the vault at
    two paths at most: the path of the file and that path with the
    extension of the format in place of its own.  When it returns a
    file, that file is at the second path with the bytes of the
    encoder, the original is no longer at its path (unless the two
    paths are the same), and the flag is cleared.  When it returns
    nothing the vault is as before, or without the original. *)
Theorem X7_compressToFormat_effect env file targetFormat w r w' :
  compressToFormat env file targetFormat w = (Ok r, w') ->
  let path := TFile.path file in
  let newPath := replace_extension (lit "." ++ getExtensionFromFormat targetFormat) path in
  (forall p, p <> path -> p <> newPath -> files w' !! p = files w !! p)
  /\ (forall f, r = Some f ->
        TFile.path f = newPath
        /\ isProcessingCompression w' = false
        /\ exists original compressed,
             files w !! path = Some original
             /\ env_compressBlob env original targetFormat = Some compressed
             /\ files w' = <[newPath := compressed]> (delete path (files w))
             /\ files w' !! newPath = Some compressed
             /\ (path <> newPath -> files w' !! path = None))
  /\ (r = None -> files w' = files w \/ files w' = delete path (files w)).
Proof.
  intros Hrun path newPath.
  destruct (compressToFormat_cases env file targetFormat w)
    as [[Hun E]|(original & Hread & Hfile & [[Hblob E]|(compressed & Hblob &
         [[Hdel E]|[(Hdel & Hfail & E)|(Hdel & Hcreate & Hnew & E)]])])];
    fold path newPath in E; rewrite E in Hrun; injection Hrun as <- <-;
    cbn [files set_files].
  - split; [reflexivity|]. split; [discriminate | now left].
  - split; [reflexivity|]. split; [discriminate | now left].
  - split; [reflexivity|]. split; [discriminate | now left].
  - split; [|split; [discriminate | now right]].
    intros p Hp _. now rewrite lookup_delete_ne.
  - split; [|split; [|discriminate]].
    + intros p Hp Hp'. rewrite lookup_insert_ne by congruence. now rewrite lookup_delete_ne.
    + intros f [= <-]. split; [reflexivity|]. split; [reflexivity|].
      exists original, compressed. repeat split; try assumption.
      * apply lookup_insert_eq.
      * intros Hne. rewrite lookup_insert_ne by congruence. apply lookup_delete_eq.
Qed.

Lemma X7_witness :
  exists f w',
    compressToFormat (example_env no_fault) foo_png (lit "webp") (world_of vault_two_images)
      = (Ok (Some f), w')
    /\ TFile.path f = lit "img/foo.webp"
    /\ files w' !! lit "img/foo.webp" = Some (lit "WEBP")
    /\ files w' !! lit "img/bar.png" = Some (lit "BAR").
Proof.
  eexists. eexists. split; [reflexivity|].
  pose proof (X7_compressToFormat_effect (example_env no_fault) foo_png (lit "webp")
                (world_of vault_two_images) _ _ eq_refl) as (Hframe & Hsome & _).
  destruct (Hsome _ eq_refl) as (Hpath & _ & original & compressed & _ & Hblob & _ & Hnew & _).
  split; [exact Hpath|]. split.
  - injection Hblob as <-. exact Hnew.
  - rewrite Hframe; [reflexivity | discriminate | discriminate].
Defined.

(** ** The rename pathway on the vault *)

Lemma join_dirname dir name :
  ~ In "/"%char name -> Path.dirname (Path.join dir name) = dir.
Proof.
  intros H. unfold Path.dirname, Path.join. cbn [lit list_ascii_of_string app].
  rewrite last_index_app by assumption.
  now rewrite firstn_app, Nat.sub_diag, firstn_all, app_nil_r.
Qed.

Lemma join_filename dir name :
  ~ In "/"%char name -> Path.filename (Path.join dir name) = name.
Proof.
  intros H. unfold Path.filename, Path.join. cbn [lit list_ascii_of_string app].
  rewrite last_index_app by assumption. clear H.
  induction dir as [|c dir IH]; [reflexivity|exact IH].
Qed.

(** Every file of the vault is in the listing of its folder. *)
Lemma siblings_of_lookup w p v :
  files w !! p = Some v -> In (Path.filename p) (siblings_of w (Path.dirname p)).
Proof.
  intros H. unfold siblings_of. apply list_elem_of_In, list_elem_of_omap.
  exists (p, v). split; [now apply elem_of_map_to_list|].
  cbn. now rewrite Str_eqb_refl.
Qed.

Lemma siblings_of_join w dir name v :
  ~ In "/"%char name -> files w !! Path.join dir name = Some v -> In name (siblings_of w dir).
Proof.
  intros Hname H. apply siblings_of_lookup in H.
  now rewrite join_dirname, join_filename in H.
Qed.

Lemma digits_no_slash d : forallb Str.is_digit d = true -> ~ In "/"%char d.
Proof.
  intros H Hin. rewrite forallb_forall in H. apply H in Hin. discriminate Hin.
Qed.

(** The name [resolve] computes when the numbers of the listing are
    small: it is not in the listing, and it is the candidate or the
    candidate with the decimal digits of a number. *)
Lemma resolve_fresh (atStart always : bool) (stem delimiter ext : str) (siblings : list str) :
  (forall D, forallb Str.is_digit D = true ->
     In (if atStart then D ++ delimiter ++ stem ++ lit "." ++ ext
         else stem ++ delimiter ++ D ++ lit "." ++ ext) siblings ->
     (digits_value D < 2 ^ 53 - 1)%N) ->
  let name := resolve atStart always stem delimiter ext siblings in
  ~ In name siblings
  /\ (name = stem ++ lit "." ++ ext
      \/ exists n, name = if atStart then decimal n ++ delimiter ++ stem ++ lit "." ++ ext
                          else stem ++ delimiter ++ decimal n ++ lit "." ++ ext).
Proof.
  intros Hsafe name. unfold name, resolve.
  destruct (existsb _ siblings || always) eqn:Ebranch.
  - destruct (collected_numbers_safe atStart stem delimiter ext siblings) as (vs & E & Hlt & Hin).
    { intros sibling D Hs ED. apply numbered_digits_spec in ED as (_ & Hd & ->).
      now apply Hsafe. }
    destruct (next_number_safe vs Hlt) as (n & En & Hn & Hfresh).
    rewrite E, En. unfold numbered_name. rewrite toString_small by assumption. split.
    + intros Hc. apply Hfresh.
      rewrite <- (digits_value_decimal n). apply (Hin _ _ Hc).
      apply numbered_digits_spec. repeat split; [apply decimal_nonempty | apply decimal_digits].
    + right. now exists n.
  - split; [|now left].
    apply orb_false_iff in Ebranch as [Ebranch _]. intros Hc.
    assert (Ht : existsb (fun sibling => Str.eqb sibling (stem ++ lit "." ++ ext)) siblings = true).
    { apply existsb_exists. eexists. split; [exact Hc | apply Str_eqb_refl]. }
    congruence.
Qed.

Lemma not_in_app {A} (x : A) (l1 l2 : list A) : ~ In x l1 -> ~ In x l2 -> ~ In x (l1 ++ l2).
Proof. intros H1 H2 H. apply in_app_or in H as [H|H]; contradiction. Qed.

Lemma not_in_dot_slash : ~ In "/"%char (lit ".").
Proof. intros [H|[]]; discriminate H. Qed.

(** [renameFile] to a name [stem.ext] with a plain extension, in a
    vault that holds the file and reports no fault for its rename. *)
Lemma renameFile_plain_succeeds
    env settings file stem ext sourcePath replaceCurrentLine w content :
  let dir := TFolder.path (TFile.parent file) in
  let delimiter := dupNumberDelimiter settings in
  let newName := resolve (dupNumberAtStart settings) (dupNumberAlways settings) stem delimiter
                   ext (siblings_of w dir) in
  files w !! TFile.path file = Some content ->
  (forall newPath, env_fault env (OpRename (TFile.path file) newPath) = false) ->
  regex_plain ext ->
  ~ In "/"%char stem -> ~ In "/"%char delimiter -> ~ In "/"%char ext ->
  (forall D, forallb Str.is_digit D = true ->
     In (if dupNumberAtStart settings then D ++ delimiter ++ stem ++ lit "." ++ ext
         else stem ++ delimiter ++ D ++ lit "." ++ ext) (siblings_of w dir) ->
     (digits_value D < 2 ^ 53 - 1)%N) ->
  exists w',
    renameFile env settings file (stem ++ lit "." ++ ext) sourcePath replaceCurrentLine w
      = (Ok tt, w')
    /\ resolved_name settings (siblings_of w dir) (stem ++ lit "." ++ ext) = Some newName
    /\ ~ In newName (siblings_of w dir)
    /\ ~ In "/"%char newName
    /\ files w !! Path.join dir newName = None
    /\ files w' = <[Path.join dir newName := content]> (delete (TFile.path file) (files w))
    /\ isProcessingCompression w' = isProcessingCompression w
    /\ modals w' = modals w
    /\ exists shown, notices w' = notices w ++ shown.
Proof.
  intros dir delimiter newName Hfile Hfault Hext Hstem Hdelim Hslash Hsafe.
  pose proof (deduplicateNewName_plain settings (siblings_of w dir) stem ext Hext) as Hdedup.
  cbv zeta in Hdedup. fold delimiter in Hdedup. fold newName in Hdedup.
  destruct (resolve_fresh (dupNumberAtStart settings) (dupNumberAlways settings) stem delimiter
              ext (siblings_of w dir) Hsafe) as [Hfresh Hshape].
  fold newName in Hfresh, Hshape.
  assert (Hname : ~ In "/"%char newName).
  { destruct Hshape as [->|[n ->]].
    - repeat apply not_in_app; auto using not_in_dot_slash.
    - pose proof (digits_no_slash _ (decimal_digits n)) as Hn.
      destruct (dupNumberAtStart settings);
        repeat apply not_in_app; auto using not_in_dot_slash. }
  assert (Hfree : files w !! Path.join dir newName = None).
  { destruct (files w !! Path.join dir newName) as [v|] eqn:E; [|reflexivity].
    exfalso. apply Hfresh. now apply (siblings_of_join w dir newName v). }
  destruct (renameFile env settings file (stem ++ lit "." ++ ext) sourcePath replaceCurrentLine w)
    as [r w'] eqn:Erun.
  rewrite (renameFile_unfold _ _ _ _ _ _ _ _ Hdedup) in Erun. cbn [NameObj.name] in Erun.
  fold dir in Erun. unfold fileManager_renameFile in Erun.
  rewrite Hfault, Hfile, Hfree in Erun.
  assert (Hrun : r = Ok tt
                 /\ files w' = <[Path.join dir newName := content]>
                                 (delete (TFile.path file) (files w))
                 /\ isProcessingCompression w' = isProcessingCompression w
                 /\ modals w' = modals w
                 /\ exists shown, notices w' = notices w ++ shown).
  { destruct replaceCurrentLine; cbn [negb] in Erun.
    2:{ injection Erun as <- <-. repeat split. exists []. cbn. now rewrite app_nil_r. }
    destruct (env_hasEditor env); cbn [negb] in Erun.
    2:{ injection Erun as <- <-. repeat split. eexists. reflexivity. }
    destruct (disableRenameNotice settings); cbn [negb] in Erun; injection Erun as <- <-.
    - repeat split. exists []. cbn. now rewrite app_nil_r.
    - repeat split. eexists. reflexivity. }
  destruct Hrun as (-> & Hfiles & Hflag & Hmodals & Hnotices).
  exists w'. split; [reflexivity|]. split; [|repeat split; assumption].
  unfold resolved_name. now rewrite Hdedup.
Qed.

(** X8. In a vault that holds the file and reports no fault for its
    rename, [renameFile] to a name [stem.ext] without a slash and with a
    plain extension does not fail, whatever else the folder of the file
    holds, as long as the numbers of the numbered names in it are below
    [2^53 - 1]: the name chosen is free in the folder, the content of the
    file is found under it afterwards, the old path is gone and no other
    file is touched. *)
Theorem X8_renameFile_finds_free_name
    env settings file stem ext sourcePath replaceCurrentLine w content :
  let dir := TFolder.path (TFile.parent file) in
  let delimiter := dupNumberDelimiter settings in
  files w !! TFile.path file = Some content ->
  (forall newPath, env_fault env (OpRename (TFile.path file) newPath) = false) ->
  regex_plain ext ->
  ~ In "/"%char stem -> ~ In "/"%char delimiter -> ~ In "/"%char ext ->
  (forall D, forallb Str.is_digit D = true ->
     In (if dupNumberAtStart settings then D ++ delimiter ++ stem ++ lit "." ++ ext
         else stem ++ delimiter ++ D ++ lit "." ++ ext) (siblings_of w dir) ->
     (digits_value D < 2 ^ 53 - 1)%N) ->
  exists newName w',
    renameFile env settings file (stem ++ lit "." ++ ext) sourcePath replaceCurrentLine w
      = (Ok tt, w')
    /\ resolved_name settings (siblings_of w dir) (stem ++ lit "." ++ ext) = Some newName
    /\ files w !! Path.join dir newName = None
    /\ files w' = <[Path.join dir newName := content]> (delete (TFile.path file) (files w)).
Proof.
  intros dir delimiter Hfile Hfault Hext Hstem Hdelim Hslash Hsafe.
  destruct (renameFile_plain_succeeds env settings file stem ext sourcePath replaceCurrentLine
              w content Hfile Hfault Hext Hstem Hdelim Hslash Hsafe)
    as (w' & Hrun & Hname & _ & _ & Hfree & Hfiles & _).
  eexists. exists w'. split; [exact Hrun|]. split; [exact Hname|]. split; assumption.
Qed.

Lemma X8_witness :
  exists w',
    renameFile (example_env no_fault) DEFAULT_SETTINGS foo_png (lit "bar" ++ lit "." ++ lit "png")
      (lit "notes/note.md") true (world_of vault_two_images) = (Ok tt, w')
    /\ files w' !! lit "img/bar-1.png" = Some (lit "FOO")
    /\ files w' !! lit "img/bar.png" = Some (lit "BAR")
    /\ files w' !! lit "img/foo.png" = None.
Proof.
  assert (Hfile : files (world_of vault_two_images) !! TFile.path foo_png = Some (lit "FOO"))
    by (vm_compute; reflexivity).
  assert (Hfault : forall newPath,
             env_fault (example_env no_fault) (OpRename (TFile.path foo_png) newPath) = false)
    by reflexivity.
  assert (Hext : regex_plain (lit "png")) by reflexivity.
  assert (Hstem : ~ In "/"%char (lit "bar")) by (intros [H|[H|[H|[]]]]; discriminate H).
  assert (Hdelim : ~ In "/"%char (dupNumberDelimiter DEFAULT_SETTINGS))
    by (intros [H|[]]; discriminate H).
  assert (Hslash : ~ In "/"%char (lit "png")) by (intros [H|[H|[H|[]]]]; discriminate H).
  assert (Hsafe : forall D, forallb Str.is_digit D = true ->
            In (if dupNumberAtStart DEFAULT_SETTINGS
                then D ++ dupNumberDelimiter DEFAULT_SETTINGS ++ lit "bar" ++ lit "." ++ lit "png"
                else lit "bar" ++ dupNumberDelimiter DEFAULT_SETTINGS ++ D ++ lit "." ++ lit "png")
               (siblings_of (world_of vault_two_images) (TFolder.path (TFile.parent foo_png))) ->
            (digits_value D < 2 ^ 53 - 1)%N).
  { intros D _ H.
    replace (siblings_of (world_of vault_two_images) (TFolder.path (TFile.parent foo_png)))
      with [lit "bar.png"; lit "foo.png"] in H by (vm_compute; reflexivity).
    cbn in H. destruct H as [H|[H|[]]]; discriminate H. }
  destruct (X8_renameFile_finds_free_name (example_env no_fault) DEFAULT_SETTINGS foo_png
              (lit "bar") (lit "png") (lit "notes/note.md") true (world_of vault_two_images)
              (lit "FOO") Hfile Hfault Hext Hstem Hdelim Hslash Hsafe)
    as (newName & w' & Hrun & Hname & _ & Hfiles).
  exists w'. split; [exact Hrun|].
  vm_compute in Hname. injection Hname as <-. rewrite Hfiles.
  repeat split; vm_compute; reflexivity.
Defined.

Lemma next_number_positive (vs : list N) :
  (forall v, In v vs -> (v < 2 ^ 53 - 1)%N) ->
  exists n, next_number (map Int vs) = Int n /\ (0 < n < 2 ^ 53)%N.
Proof.
  intros Hlt. destruct vs as [|v vs].
  - exists 1%N. split; [reflexivity | lia].
  - destruct (Math_max_Int v vs) as (mx & E & Hall & Hin).
    exists (mx + 1)%N. unfold next_number. cbn [map]. cbn [map] in E. rewrite E.
    pose proof (Hlt mx Hin) as Hmx. cbn [add1].
    rewrite round_double_small by lia. split; [reflexivity | lia].
Qed.

Lemma join_inj dir a b : Path.join dir a = Path.join dir b -> a = b.
Proof. unfold Path.join. intros H. apply app_inv_head in H. now apply app_inv_head in H. Qed.

(** X9. [renameFile] looks for the new name in the listing of the
    folder without leaving the file itself out.  So a file renamed to
    the name it has does not keep it: in a vault that reports no fault
    for the rename, for a plain extension and numbers below [2^53 - 1],
    it is moved to that name with a number, [stem-1.ext] when the
    folder holds no numbered name yet, and its old path is gone. *)
Theorem X9_own_name_gets_a_number
    env settings file stem ext sourcePath replaceCurrentLine w content :
  let dir := TFolder.path (TFile.parent file) in
  let delimiter := dupNumberDelimiter settings in
  let numbered (n : N) :=
    if dupNumberAtStart settings then decimal n ++ delimiter ++ stem ++ lit "." ++ ext
    else stem ++ delimiter ++ decimal n ++ lit "." ++ ext in
  TFile.path file = Path.join dir (stem ++ lit "." ++ ext) ->
  files w !! TFile.path file = Some content ->
  (forall newPath, env_fault env (OpRename (TFile.path file) newPath) = false) ->
  regex_plain ext ->
  ~ In "/"%char stem -> ~ In "/"%char delimiter -> ~ In "/"%char ext ->
  (forall D, forallb Str.is_digit D = true ->
     In (if dupNumberAtStart settings then D ++ delimiter ++ stem ++ lit "." ++ ext
         else stem ++ delimiter ++ D ++ lit "." ++ ext) (siblings_of w dir) ->
     (digits_value D < 2 ^ 53 - 1)%N) ->
  exists n w',
    (0 < n)%N
    /\ renameFile env settings file (stem ++ lit "." ++ ext) sourcePath replaceCurrentLine w
       = (Ok tt, w')
    /\ files w' !! Path.join dir (numbered n) = Some content
    /\ files w' !! TFile.path file = None
    /\ ((forall D, forallb Str.is_digit D = true ->
           ~ In (if dupNumberAtStart settings then D ++ delimiter ++ stem ++ lit "." ++ ext
                 else stem ++ delimiter ++ D ++ lit "." ++ ext) (siblings_of w dir)) ->
        n = 1%N).
Proof.
  intros dir delimiter numbered Hown Hfile Hfault Hext Hstem Hdelim Hslash Hsafe.
  destruct (renameFile_plain_succeeds env settings file stem ext sourcePath replaceCurrentLine
              w content Hfile Hfault Hext Hstem Hdelim Hslash Hsafe)
    as (w' & Hrun & _ & Hfresh & _ & _ & Hfiles & _).
  fold dir delimiter in Hfresh, Hfiles.
  set (candidate := stem ++ lit "." ++ ext) in *.
  assert (Hcand : In candidate (siblings_of w dir)).
  { rewrite Hown in Hfile. apply (siblings_of_join w dir candidate content); [|exact Hfile].
    unfold candidate. repeat apply not_in_app; auto using not_in_dot_slash. }
  assert (Hbranch : existsb (fun sibling => Str.eqb sibling candidate) (siblings_of w dir) = true).
  { apply existsb_exists. exists candidate. split; [exact Hcand | apply Str_eqb_refl]. }
  destruct (collected_numbers_safe (dupNumberAtStart settings) stem delimiter ext
              (siblings_of w dir)) as (vs & E & Hlt & Hin).
  { intros sibling D Hs ED. apply numbered_digits_spec in ED as (_ & Hd & ->).
    now apply Hsafe. }
  destruct (next_number_positive vs Hlt) as (n & En & Hn).
  assert (Hname : resolve (dupNumberAtStart settings) (dupNumberAlways settings) stem delimiter
                    ext (siblings_of w dir) = numbered n).
  { unfold resolve. fold candidate. rewrite Hbranch. cbn [orb]. rewrite E, En.
    unfold numbered_name, numbered. rewrite toString_small by lia. reflexivity. }
  rewrite Hname in Hfresh, Hfiles.
  exists n, w'. split; [lia|]. split; [exact Hrun|]. split; [|split].
  - rewrite Hfiles. apply lookup_insert_eq.
  - rewrite Hfiles, lookup_insert_ne, lookup_delete_eq; [reflexivity|].
    rewrite Hown. intros Heq. apply join_inj in Heq. rewrite Heq in Hfresh. contradiction.
  - intros Hnone. destruct vs as [|v vs].
    + cbn in En. now injection En as <-.
    + exfalso.
      assert (Hv : In (Int v) (collected_numbers (dupNumberAtStart settings) stem delimiter ext
                                 (siblings_of w dir))) by (rewrite E; now left).
      unfold collected_numbers in Hv. apply list_elem_of_In, list_elem_of_omap in Hv.
      destruct Hv as (sibling & Hs & Hd). apply list_elem_of_In in Hs.
      destruct (numbered_digits (dupNumberAtStart settings) stem delimiter ext sibling)
        as [D|] eqn:ED; [|discriminate].
      apply numbered_digits_spec in ED as (_ & HD & ->).
      now apply (Hnone D HD).
Qed.

Lemma X9_witness :
  exists w',
    renameFile (example_env no_fault) DEFAULT_SETTINGS foo_png (lit "foo" ++ lit "." ++ lit "png")
      (lit "notes/note.md") false (world_of vault_two_images) = (Ok tt, w')
    /\ files w' !! lit "img/foo-1.png" = Some (lit "FOO")
    /\ files w' !! lit "img/foo.png" = None.
Proof.
  assert (Hfile : files (world_of vault_two_images) !! TFile.path foo_png = Some (lit "FOO"))
    by (vm_compute; reflexivity).
  assert (Hfault : forall newPath,
             env_fault (example_env no_fault) (OpRename (TFile.path foo_png) newPath) = false)
    by reflexivity.
  assert (Hext : regex_plain (lit "png")) by reflexivity.
  assert (Hstem : ~ In "/"%char (lit "foo")) by (intros [H|[H|[H|[]]]]; discriminate H).
  assert (Hdelim : ~ In "/"%char (dupNumberDelimiter DEFAULT_SETTINGS))
    by (intros [H|[]]; discriminate H).
  assert (Hslash : ~ In "/"%char (lit "png")) by (intros [H|[H|[H|[]]]]; discriminate H).
  assert (Hnone : forall D, forallb Str.is_digit D = true ->
            ~ In (if dupNumberAtStart DEFAULT_SETTINGS
                  then D ++ dupNumberDelimiter DEFAULT_SETTINGS ++ lit "foo" ++ lit "." ++ lit "png"
                  else lit "foo" ++ dupNumberDelimiter DEFAULT_SETTINGS ++ D ++ lit "." ++ lit "png")
                 (siblings_of (world_of vault_two_images) (TFolder.path (TFile.parent foo_png)))).
  { intros D _ H.
    replace (siblings_of (world_of vault_two_images) (TFolder.path (TFile.parent foo_png)))
      with [lit "bar.png"; lit "foo.png"] in H by (vm_compute; reflexivity).
    cbn in H. destruct H as [H|[H|[]]]; discriminate H. }
  assert (Hsafe : forall D, forallb Str.is_digit D = true ->
            In (if dupNumberAtStart DEFAULT_SETTINGS
                then D ++ dupNumberDelimiter DEFAULT_SETTINGS ++ lit "foo" ++ lit "." ++ lit "png"
                else lit "foo" ++ dupNumberDelimiter DEFAULT_SETTINGS ++ D ++ lit "." ++ lit "png")
               (siblings_of (world_of vault_two_images) (TFolder.path (TFile.parent foo_png))) ->
            (digits_value D < 2 ^ 53 - 1)%N).
  { intros D HD H. exfalso. exact (Hnone D HD H). }
  destruct (X9_own_name_gets_a_number (example_env no_fault) DEFAULT_SETTINGS foo_png
              (lit "foo") (lit "png") (lit "notes/note.md") false (world_of vault_two_images)
              (lit "FOO") eq_refl Hfile Hfault Hext Hstem Hdelim Hslash Hsafe)
    as (n & w' & _ & Hrun & Hnew & Hold & Hone).
  rewrite (Hone Hnone) in Hnew.
  exists w'. split; [exact Hrun|]. split; [exact Hnew | exact Hold].
Defined.

Lemma generateNewName_newName
    (renderTemplate : str -> RenderContext -> option (gmap str str) -> str)
    settings fileCache file activeFile g :
  generateNewName renderTemplate settings fileCache file activeFile = Some g ->
  Generated.newName g = Generated.stem g ++ lit "." ++ TFile.extension file.
Proof.
  unfold generateNewName.
  destruct (match fileCache with Some _ => _ | None => _ end) as [[imageNameKey firstHeading] fm].
  destruct (RegExp _) as [re|]; [|discriminate].
  now intros [= <-].
Qed.

(** X10. Auto rename, from the created file to the vault: when there
    is an active document, the generated name is meaningful, the vault
    holds the file and reports no fault for its rename, the extension
    of the file is plain, no slash is in the generated stem, and the
    numbers of the numbered names of the folder are below [2^53 - 1],
    [startRenameProcess] with [autoRename] renames the file without
    opening a modal and without an exception; the file is found under
    the generated name, numbered if that name was taken, and no other
    file is touched. *)
Theorem X10_auto_rename_goes_through
    (renderTemplate : str -> RenderContext -> option (gmap str str) -> str)
    env settings file activeFile g w content :
  let dir := TFolder.path (TFile.parent file) in
  let delimiter := dupNumberDelimiter settings in
  let stem := Generated.stem g in
  let ext := TFile.extension file in
  env_activeFile env = Some activeFile ->
  generateNewName renderTemplate settings (env_fileCache env) file activeFile = Some g ->
  Generated.isMeaningful g = true ->
  files w !! TFile.path file = Some content ->
  (forall newPath, env_fault env (OpRename (TFile.path file) newPath) = false) ->
  regex_plain ext ->
  ~ In "/"%char stem -> ~ In "/"%char delimiter -> ~ In "/"%char ext ->
  (forall D, forallb Str.is_digit D = true ->
     In (if dupNumberAtStart settings then D ++ delimiter ++ stem ++ lit "." ++ ext
         else stem ++ delimiter ++ D ++ lit "." ++ ext) (siblings_of w dir) ->
     (digits_value D < 2 ^ 53 - 1)%N) ->
  exists newName w',
    startRenameProcess renderTemplate env settings file true w = (Ok tt, w')
    /\ resolved_name settings (siblings_of w dir) (stem ++ lit "." ++ ext) = Some newName
    /\ files w !! Path.join dir newName = None
    /\ files w' = <[Path.join dir newName := content]> (delete (TFile.path file) (files w))
    /\ modals w' = modals w.
Proof.
  intros dir delimiter stem ext Hactive Hg Hm Hfile Hfault Hext Hstem Hdelim Hslash Hsafe.
  destruct (renameFile_plain_succeeds env settings file stem ext (TFile.path activeFile) true
              w content Hfile Hfault Hext Hstem Hdelim Hslash Hsafe)
    as (w' & Hrun & Hname & _ & _ & Hfree & Hfiles & _ & Hmodals & _).
  eexists. exists w'. split; [|split; [exact Hname|split; [exact Hfree|split; assumption]]].
  unfold startRenameProcess. rewrite Hactive, Hg, Hm. cbn [negb orb].
  rewrite (generateNewName_newName _ _ _ _ _ _ Hg).
  unfold not_awaited. unfold stem, ext in Hrun. now rewrite Hrun.
Qed.

Lemma X10_witness :
  exists w',
    startRenameProcess render_fileName (example_env no_fault) DEFAULT_SETTINGS foo_png true
      (world_of vault_two_images) = (Ok tt, w')
    /\ files w' !! lit "img/note.png" = Some (lit "FOO")
    /\ files w' !! lit "img/foo.png" = None
    /\ modals w' = [].
Proof.
  assert (Hfile : files (world_of vault_two_images) !! TFile.path foo_png = Some (lit "FOO"))
    by (vm_compute; reflexivity).
  assert (Hfault : forall newPath,
             env_fault (example_env no_fault) (OpRename (TFile.path foo_png) newPath) = false)
    by reflexivity.
  assert (Hext : regex_plain (TFile.extension foo_png)) by reflexivity.
  assert (Hslash : ~ In "/"%char (TFile.extension foo_png))
    by (intros [H|[H|[H|[]]]]; discriminate H).
  assert (Hdelim : ~ In "/"%char (dupNumberDelimiter DEFAULT_SETTINGS))
    by (intros [H|[]]; discriminate H).
  destruct (X10_auto_rename_goes_through render_fileName (example_env no_fault) DEFAULT_SETTINGS
              foo_png note_md
              {| Generated.stem := lit "note"; Generated.newName := lit "note.png";
                 Generated.isMeaningful := true |}
              (world_of vault_two_images) (lit "FOO") eq_refl eq_refl eq_refl Hfile Hfault Hext)
    as (newName & w' & Hrun & Hname & _ & Hfiles & Hmodals).
  - intros [H|[H|[H|[H|[]]]]]; discriminate H.
  - exact Hdelim.
  - exact Hslash.
  - intros D _ H.
    replace (siblings_of _ _) with [lit "bar.png"; lit "foo.png"] in H
      by (vm_compute; reflexivity).
    cbn in H. destruct H as [H|[H|[]]]; discriminate H.
  - exists w'. split; [exact Hrun|].
    vm_compute in Hname. injection Hname as <-. rewrite Hfiles, Hmodals.
    repeat split; vm_compute; reflexivity.
Defined.

(** ** A conversion that goes through *)

(** X11. A conversion confirmed in the rename modal, in a vault that
    reports no fault: when the file is there, the encoder produces
    bytes, the path with the new extension is free, the format is
    plain, and the numbers of the numbered names of the folder are
    below [2^53 - 1], the confirmation ends without an exception and
    without a failure notice.  Afterwards the original is gone, the
    bytes of the encoder are in the folder under a name that was free
    (the confirmed name with the extension of the format, numbered if
    taken), every other file is as before, and the flag is cleared. *)
Theorem X11_conversion_goes_through
    env settings file sourcePath confirmedName format w original compressed :
  let path := TFile.path file in
  let newPath := replace_extension (lit "." ++ getExtensionFromFormat format) path in
  let dir := Path.dirname newPath in
  let stem := replace_extension [] confirmedName in
  let delimiter := dupNumberDelimiter settings in
  let created := set_files w (<[newPath := compressed]> (delete path (files w))) in
  format <> [] -> format <> TFile.extension file ->
  (forall op, env_fault env op = false) ->
  files w !! path = Some original ->
  env_compressBlob env original format = Some compressed ->
  delete path (files w) !! newPath = None ->
  regex_plain format ->
  ~ In "/"%char stem -> ~ In "/"%char delimiter -> ~ In "/"%char format ->
  (forall D, forallb Str.is_digit D = true ->
     In (if dupNumberAtStart settings then D ++ delimiter ++ stem ++ lit "." ++ format
         else stem ++ delimiter ++ D ++ lit "." ++ format) (siblings_of created dir) ->
     (digits_value D < 2 ^ 53 - 1)%N) ->
  exists finalName w',
    renameModal_confirm env settings file sourcePath confirmedName (Some format) w = (Ok tt, w')
    /\ resolved_name settings (siblings_of created dir) (stem ++ lit "." ++ format)
       = Some finalName
    /\ delete path (files w) !! Path.join dir finalName = None
    /\ files w' = <[Path.join dir finalName := compressed]> (delete path (files w))
    /\ isProcessingCompression w' = false
    /\ notices w' = notices w ++ (if disableRenameNotice settings then []
                                  else [Converted (TFile.name file) finalName]).
Proof.
  intros path newPath dir stem delimiter created
    Hne Hother Hfault Hfile Hblob Hnew Hplain Hstem Hdelim Hslash Hsafe.
  pose proof (deduplicateNewName_plain settings (siblings_of created dir) stem format Hplain)
    as Hdedup.
  cbv zeta in Hdedup. fold delimiter in Hdedup.
  set (finalName := resolve (dupNumberAtStart settings) (dupNumberAlways settings) stem
                      delimiter format (siblings_of created dir)) in *.
  destruct (resolve_fresh (dupNumberAtStart settings) (dupNumberAlways settings) stem delimiter
              format (siblings_of created dir) Hsafe) as [Hfresh Hshape].
  fold finalName in Hfresh, Hshape.
  assert (Hname : ~ In "/"%char finalName).
  { destruct Hshape as [->|[n ->]].
    - repeat apply not_in_app; auto using not_in_dot_slash.
    - pose proof (digits_no_slash _ (decimal_digits n)) as Hn.
      destruct (dupNumberAtStart settings);
        repeat apply not_in_app; auto using not_in_dot_slash. }
  set (m1 := <[newPath := compressed]> (delete path (files w))).
  assert (Hfree : m1 !! Path.join dir finalName = None).
  { destruct (m1 !! Path.join dir finalName) as [v|] eqn:E; [|reflexivity].
    exfalso. apply Hfresh. now apply (siblings_of_join created dir finalName v). }
  assert (Hcreated : m1 !! newPath = Some compressed) by apply lookup_insert_eq.
  assert (Hdiff : newPath <> Path.join dir finalName) by congruence.
  assert (Hfree0 : delete path (files w) !! Path.join dir finalName = None).
  { unfold m1 in Hfree. now rewrite lookup_insert_ne in Hfree by assumption. }
  pose proof (compressToFormat_cases env file format w) as Hcases.
  cbv zeta in Hcases. fold path in Hcases. fold newPath in Hcases.
  destruct Hcases
    as [[[Hun|Hun] _]|(original' & _ & Hfile' & [[Hblob' _]|(compressed' & Hblob' &
         [[Hdel _]|[(_ & [Hc|Hc] & _)|(_ & _ & _ & Hrun)]])])];
    try congruence;
    try match goal with
        | H : env_fault env _ = true |- _ => rewrite Hfault in H; discriminate H
        | H : is_Some _ |- _ => rewrite Hnew in H; destruct H as [? H]; discriminate H
        end.
  assert (original' = original) by congruence. subst original'.
  assert (compressed' = compressed) by congruence. subst compressed'.
  exists finalName.
  unfold renameModal_confirm. destruct format as [|c f]; [contradiction|].
  apply Str_eqb_neq in Hother. rewrite Hother. cbn [negb].
  unfold try_catch at 1. unfold bind at 1. rewrite Hrun.
  unfold bind at 1. unfold this_deduplicateNewName, bind at 1, listSiblingNames.
  rewrite replace_first_extension. fold stem.
  change (TFolder.path (TFile.parent (Path.to_TFile newPath))) with dir.
  match goal with
  | |- context [siblings_of ?x dir] => change (siblings_of x dir) with (siblings_of created dir)
  end.
  rewrite Hdedup. unfold ret at 1. cbn [NameObj.name].
  unfold bind at 1. unfold fileManager_renameFile.
  change (TFile.path (Path.to_TFile newPath)) with newPath.
  rewrite Hfault. cbn [files set_files]. fold m1. rewrite Hcreated, Hfree.
  destruct (disableRenameNotice settings); cbn [negb];
    (eexists; split; [reflexivity|];
     split; [unfold resolved_name; now rewrite Hdedup|]; split; [exact Hfree0|];
     cbn; rewrite ?app_nil_r; split; [|split; reflexivity];
     unfold m1; now rewrite delete_insert_id by assumption).
Qed.

Lemma X11_witness :
  exists w',
    renameModal_confirm (example_env no_fault) DEFAULT_SETTINGS foo_png (lit "notes/note.md")
      (lit "pic.webp") (Some (lit "webp")) (world_of vault_two_images) = (Ok tt, w')
    /\ files w' !! lit "img/pic.webp" = Some (lit "WEBP")
    /\ files w' !! lit "img/foo.png" = None
    /\ files w' !! lit "img/bar.png" = Some (lit "BAR")
    /\ notices w' = [Converted (lit "foo.png") (lit "pic.webp")].
Proof.
  assert (Hne : lit "webp" <> []) by discriminate.
  assert (Hother : lit "webp" <> TFile.extension foo_png) by discriminate.
  assert (Hfault : forall op, env_fault (example_env no_fault) op = false) by reflexivity.
  assert (Hfile : files (world_of vault_two_images) !! TFile.path foo_png = Some (lit "FOO"))
    by (vm_compute; reflexivity).
  assert (Hblob : env_compressBlob (example_env no_fault) (lit "FOO") (lit "webp")
                  = Some (lit "WEBP")) by reflexivity.
  assert (Hnew : delete (TFile.path foo_png) (files (world_of vault_two_images))
                 !! replace_extension (lit "." ++ getExtensionFromFormat (lit "webp"))
                      (TFile.path foo_png) = None) by (vm_compute; reflexivity).
  assert (Hplain : regex_plain (lit "webp")) by reflexivity.
  assert (Hstem : ~ In "/"%char (replace_extension [] (lit "pic.webp")))
    by (intros [H|[H|[H|[]]]]; discriminate H).
  assert (Hdelim : ~ In "/"%char (dupNumberDelimiter DEFAULT_SETTINGS))
    by (intros [H|[]]; discriminate H).
  assert (Hslash : ~ In "/"%char (lit "webp")) by (intros [H|[H|[H|[H|[]]]]]; discriminate H).
  destruct (X11_conversion_goes_through (example_env no_fault) DEFAULT_SETTINGS foo_png
              (lit "notes/note.md") (lit "pic.webp") (lit "webp") (world_of vault_two_images)
              (lit "FOO") (lit "WEBP") Hne Hother Hfault Hfile Hblob Hnew Hplain Hstem Hdelim
              Hslash)
    as (finalName & w' & Hrun & Hname & _ & Hfiles & _ & Hnotices).
  - intros D _ H.
    replace (siblings_of _ _) with [lit "foo.webp"; lit "bar.png"] in H
      by (vm_compute; reflexivity).
    cbn in H. destruct H as [H|[H|[]]]; discriminate H.
  - exists w'. split; [exact Hrun|].
    vm_compute in Hname. injection Hname as <-. rewrite Hfiles, Hnotices.
    repeat split; vm_compute; reflexivity.
Defined.

(** The listing that [deduplicateNewName] reads after the compression
    holds the compressed file itself: a conversion confirmed under the
    stem the file has ends at [foo-1.webp], though no [foo.webp] was
    there before. *)
Example conversion_same_stem :
  exists w',
    renameModal_confirm (example_env no_fault) DEFAULT_SETTINGS foo_png (lit "notes/note.md")
      (lit "foo.webp") (Some (lit "webp")) (world_of vault_two_images) = (Ok tt, w')
    /\ files w' !! lit "img/foo-1.webp" = Some (lit "WEBP")
    /\ files w' !! lit "img/foo.webp" = None
    /\ files w' !! lit "img/foo.png" = None.
Proof. eexists. split; [vm_compute; reflexivity|]. repeat split; vm_compute; reflexivity. Qed.

(** X12. When the encoder produces nothing, the confirmation falls
    back to [renameFile] with the confirmed name, and that name carries
    the extension of the format asked for: in a vault that reports no
    fault for the read and the rename, the original bytes, not
    re-encoded, end up under a name with the new extension ([pic.webp]
    holding the PNG), the failure notice is shown first, and the flag
    [isProcessingCompression] stays set. *)
Theorem X12_fallback_takes_new_extension
    env settings file sourcePath stem format w original :
  let path := TFile.path file in
  let dir := TFolder.path (TFile.parent file) in
  let delimiter := dupNumberDelimiter settings in
  format <> [] -> format <> TFile.extension file ->
  env_fault env (OpRead path) = false ->
  (forall newPath, env_fault env (OpRename path newPath) = false) ->
  files w !! path = Some original ->
  env_compressBlob env original format = None ->
  regex_plain format ->
  ~ In "/"%char stem -> ~ In "/"%char delimiter -> ~ In "/"%char format ->
  (forall D, forallb Str.is_digit D = true ->
     In (if dupNumberAtStart settings then D ++ delimiter ++ stem ++ lit "." ++ format
         else stem ++ delimiter ++ D ++ lit "." ++ format) (siblings_of w dir) ->
     (digits_value D < 2 ^ 53 - 1)%N) ->
  exists newName w' shown,
    renameModal_confirm env settings file sourcePath (stem ++ lit "." ++ format) (Some format) w
      = (Ok tt, w')
    /\ resolved_name settings (siblings_of w dir) (stem ++ lit "." ++ format) = Some newName
    /\ path_extension newName = Some format
    /\ files w' = <[Path.join dir newName := original]> (delete path (files w))
    /\ files w' !! Path.join dir newName = Some original
    /\ isProcessingCompression w' = true
    /\ notices w' = notices w ++ FormatConversionFailed CompressionFailed :: shown.
Proof.
  intros path dir delimiter Hne Hother Hread Hfault Hfile Hblob Hplain Hstem Hdelim Hslash Hsafe.
  rewrite (renameModal_confirm_reencode_failure env settings file sourcePath
             (stem ++ lit "." ++ format) format w original Hne Hother Hread Hfile Hblob).
  set (w1 := {| files := files w;
                notices := notices w ++ [FormatConversionFailed CompressionFailed];
                modals := modals w; isProcessingCompression := true |}).
  destruct (renameFile_plain_succeeds env settings file stem format sourcePath true w1 original
              Hfile Hfault Hplain Hstem Hdelim Hslash Hsafe)
    as (w' & Hrun & Hname & _ & _ & _ & Hfiles & Hflag & _ & shown & Hnotices).
  change (siblings_of w1 (TFolder.path (TFile.parent file))) with (siblings_of w dir)
    in Hname, Hfiles.
  cbn [files notices isProcessingCompression w1] in Hfiles, Hflag, Hnotices.
  fold path dir delimiter in Hfiles.
  set (newName := resolve (dupNumberAtStart settings) (dupNumberAlways settings) stem delimiter
                    format (siblings_of w dir)) in *.
  assert (Hshape : newName = stem ++ lit "." ++ format
                   \/ exists n, newName
                                = if dupNumberAtStart settings
                                  then decimal n ++ delimiter ++ stem ++ lit "." ++ format
                                  else stem ++ delimiter ++ decimal n ++ lit "." ++ format)
    by (apply resolve_fresh; exact Hsafe).
  exists newName, w', shown. split; [exact Hrun|]. split; [exact Hname|].
  split; [|split; [exact Hfiles|split; [|split; [exact Hflag|]]]].
  - destruct Hshape as [->|[n ->]].
    + apply path_extension_app. now apply regex_plain_no_dot.
    + destruct (dupNumberAtStart settings).
      * rewrite !(app_assoc _ _ (lit "." ++ format)).
        apply path_extension_app. now apply regex_plain_no_dot.
      * rewrite !(app_assoc _ _ (lit "." ++ format)).
        apply path_extension_app. now apply regex_plain_no_dot.
  - rewrite Hfiles. apply lookup_insert_eq.
  - rewrite Hnotices, <- app_assoc. reflexivity.
Qed.

Lemma X12_witness :
  exists w',
    renameModal_confirm null_encoder_env DEFAULT_SETTINGS foo_png (lit "notes/note.md")
      (lit "pic" ++ lit "." ++ lit "webp") (Some (lit "webp")) (world_of vault_two_images)
      = (Ok tt, w')
    /\ files w' !! lit "img/pic.webp" = Some (lit "FOO")
    /\ isProcessingCompression w' = true.
Proof.
  assert (Hne : lit "webp" <> []) by discriminate.
  assert (Hother : lit "webp" <> TFile.extension foo_png) by discriminate.
  assert (Hfault : forall newPath,
             env_fault null_encoder_env (OpRename (TFile.path foo_png) newPath) = false)
    by reflexivity.
  assert (Hfile : files (world_of vault_two_images) !! TFile.path foo_png = Some (lit "FOO"))
    by (vm_compute; reflexivity).
  assert (Hplain : regex_plain (lit "webp")) by reflexivity.
  assert (Hstem : ~ In "/"%char (lit "pic")) by (intros [H|[H|[H|[]]]]; discriminate H).
  assert (Hdelim : ~ In "/"%char (dupNumberDelimiter DEFAULT_SETTINGS))
    by (intros [H|[]]; discriminate H).
  assert (Hslash : ~ In "/"%char (lit "webp")) by (intros [H|[H|[H|[H|[]]]]]; discriminate H).
  destruct (X12_fallback_takes_new_extension null_encoder_env DEFAULT_SETTINGS foo_png
              (lit "notes/note.md") (lit "pic") (lit "webp") (world_of vault_two_images)
              (lit "FOO") Hne Hother eq_refl Hfault Hfile eq_refl Hplain Hstem Hdelim Hslash)
    as (newName & w' & shown & Hrun & Hname & _ & _ & Hnew & Hflag & _).
  - intros D _ H.
    replace (siblings_of _ _) with [lit "bar.png"; lit "foo.png"] in H
      by (vm_compute; reflexivity).
    cbn in H. destruct H as [H|[H|[]]]; discriminate H.
  - exists w'. split; [exact Hrun|]. split; [|exact Hflag].
    vm_compute in Hname. injection Hname as <-. exact Hnew.
Defined.

(** ** The listing as a set: order and successive names *)

Lemma max2_swap a x y : max2 (max2 a x) y = max2 (max2 a y) x.
Proof. destruct a, x, y; cbn; try reflexivity; f_equal; lia. Qed.

Lemma fold_left_max2_Permutation l l' :
  Permutation l l' -> forall a, fold_left max2 l a = fold_left max2 l' a.
Proof.
  induction 1 as [|x l l' _ IH|x y l|l l' l'' _ IH1 _ IH2]; intros a; cbn [fold_left].
  - reflexivity.
  - apply IH.
  - now rewrite max2_swap.
  - now rewrite IH1.
Qed.

Lemma next_number_Permutation l l' : Permutation l l' -> next_number l = next_number l'.
Proof.
  intros H. unfold next_number, Math_max.
  destruct l as [|x l], l' as [|y l'].
  - reflexivity.
  - apply Permutation_nil in H. discriminate H.
  - apply Permutation_sym, Permutation_nil in H. discriminate H.
  - f_equal. now apply fold_left_max2_Permutation.
Qed.

Lemma existsb_Permutation {A} (f : A -> bool) l l' :
  Permutation l l' -> existsb f l = existsb f l'.
Proof.
  induction 1 as [|x l l' _ IH|x y l|l l' l'' _ IH1 _ IH2]; cbn [existsb].
  - reflexivity.
  - now rewrite IH.
  - now rewrite !orb_assoc, (orb_comm (f y)).
  - now rewrite IH1.
Qed.

Lemma resolve_Permutation atStart always stem delimiter ext siblings siblings' :
  Permutation siblings siblings' ->
  resolve atStart always stem delimiter ext siblings
  = resolve atStart always stem delimiter ext siblings'.
Proof.
  intros H. unfold resolve, collected_numbers.
  rewrite (existsb_Permutation _ _ _ H).
  now rewrite (next_number_Permutation _ _ (omap_Permutation _ _ _ H)).
Qed.

(** X13. The result of [deduplicateNewName] does not depend on the
    order in which the folder is listed: two listings with the same
    names, each as often as in the other, give the same result, for
    every candidate and every setting. *)
Theorem X13_listing_order_irrelevant settings siblings siblings' newName :
  Permutation siblings siblings' ->
  deduplicateNewName settings siblings newName = deduplicateNewName settings siblings' newName.
Proof.
  intros H. unfold deduplicateNewName.
  destruct (path_extension newName) as [newNameExt|]; [|reflexivity].
  destruct (RegExp _) as [re|]; [|reflexivity].
  rewrite !scan_loop. cbn [dupNameNumbers isNewNameExist app orb].
  rewrite (existsb_Permutation _ _ _ H).
  rewrite (next_number_Permutation _ _ (omap_Permutation (contribution re newName) _ _ H)).
  reflexivity.
Qed.

Lemma X13_witness :
  deduplicateNewName DEFAULT_SETTINGS [lit "foo.png"; lit "foo-2.png"; lit "foo-1.png"] (lit "foo.png")
  = deduplicateNewName DEFAULT_SETTINGS [lit "foo-1.png"; lit "foo.png"; lit "foo-2.png"] (lit "foo.png").
Proof.
  apply X13_listing_order_irrelevant.
  apply (perm_trans (l' := [lit "foo.png"; lit "foo-1.png"; lit "foo-2.png"]));
    [apply perm_skip, perm_swap | apply perm_swap].
Defined.

Lemma collected_numbers_below (bound : N) atStart stem delimiter ext siblings :
  (bound <= 2 ^ 53)%N ->
  (forall sibling D, In sibling siblings ->
     numbered_digits atStart stem delimiter ext sibling = Some D ->
     (digits_value D < bound)%N) ->
  exists vs, collected_numbers atStart stem delimiter ext siblings = map Int vs
             /\ (forall v, In v vs -> (v < bound)%N).
Proof.
  intros Hb. unfold collected_numbers. induction siblings as [|sib siblings IH]; intros Hsafe.
  - exists []. split; [reflexivity | intros v []].
  - destruct IH as (vs & E & Hlt).
    { intros s D Hs. apply Hsafe. now right. }
    change (omap ?f (sib :: siblings))
      with (match f sib with Some y => y :: omap f siblings | None => omap f siblings end).
    cbv beta.
    destruct (numbered_digits atStart stem delimiter ext sib) as [D|] eqn:ED.
    + pose proof (Hsafe sib D (or_introl eq_refl) ED) as HD.
      apply numbered_digits_spec in ED as (Hne & Hd & Hs).
      exists (digits_value D :: vs). split.
      * rewrite E, parseInt_digits by assumption.
        rewrite round_double_small by lia. reflexivity.
      * intros v [<-|Hv]; [exact HD | now apply Hlt].
    + exists vs. split; [exact E | exact Hlt].
Qed.

Lemma next_number_above (vs : list N) :
  (forall v, In v vs -> (v < 2 ^ 53 - 2)%N) ->
  exists n, next_number (map Int vs) = Int n
            /\ (0 < n < 2 ^ 53 - 1)%N /\ (forall v, In v vs -> (v < n)%N).
Proof.
  intros Hlt. destruct vs as [|v vs].
  - exists 1%N. split; [reflexivity|]. split; [lia | intros v []].
  - destruct (Math_max_Int v vs) as (mx & E & Hall & Hin).
    exists (mx + 1)%N. unfold next_number. cbn [map]. cbn [map] in E. rewrite E.
    pose proof (Hlt mx Hin) as Hmx. cbn [add1].
    rewrite round_double_small by lia. split; [reflexivity|]. split; [lia|].
    intros w Hw. apply Hall in Hw. lia.
Qed.

Lemma next_number_after (n : N) (vs : list N) :
  (n < 2 ^ 53 - 1)%N -> (forall v, In v vs -> (v < n)%N) ->
  next_number (map Int (n :: vs)) = Int (n + 1).
Proof.
  intros Hn Hlt. destruct (Math_max_Int n vs) as (mx & E & Hall & Hin).
  unfold next_number. cbn [map]. cbn [map] in E. rewrite E.
  assert (mx = n) as ->.
  { destruct Hin as [<-|Hin]; [reflexivity|]. apply Hlt in Hin.
    pose proof (Hall n (or_introl eq_refl)). lia. }
  cbn [add1]. apply round_double_small. lia.
Qed.

(** X14. Successive names follow one another.  For a candidate
    [stem.ext] with a plain extension that is in the listing (or with
    [dupNumberAlways] set), and numbers in the listing below
    [2^53 - 2]: [deduplicateNewName] returns the candidate with a number
    [n], and once a file of that name is in the folder, wherever the
    listing puts it, the next call for the same candidate returns the
    candidate with [n + 1]. *)
Theorem X14_numbers_follow_one_another settings siblings stem ext :
  let candidate := stem ++ lit "." ++ ext in
  let numbered (n : N) :=
    if dupNumberAtStart settings
    then decimal n ++ dupNumberDelimiter settings ++ stem ++ lit "." ++ ext
    else stem ++ dupNumberDelimiter settings ++ decimal n ++ lit "." ++ ext in
  regex_plain ext ->
  (forall D, forallb Str.is_digit D = true ->
     In (if dupNumberAtStart settings
         then D ++ dupNumberDelimiter settings ++ stem ++ lit "." ++ ext
         else stem ++ dupNumberDelimiter settings ++ D ++ lit "." ++ ext) siblings ->
     (digits_value D < 2 ^ 53 - 2)%N) ->
  In candidate siblings \/ dupNumberAlways settings = true ->
  exists n,
    (0 < n)%N
    /\ resolved_name settings siblings candidate = Some (numbered n)
    /\ forall siblings', Permutation (numbered n :: siblings) siblings' ->
         resolved_name settings siblings' candidate = Some (numbered (n + 1)%N).
Proof.
  intros candidate numbered Hext Hsafe Hpresent.
  set (atStart := dupNumberAtStart settings) in *.
  set (delimiter := dupNumberDelimiter settings) in *.
  assert (Hbranch : existsb (fun sibling => Str.eqb sibling candidate) siblings
                    || dupNumberAlways settings = true).
  { destruct Hpresent as [Hin| ->]; [|apply orb_true_r].
    apply orb_true_iff. left. apply existsb_exists. exists candidate.
    split; [exact Hin | apply Str_eqb_refl]. }
  destruct (collected_numbers_below (2 ^ 53 - 2) atStart stem delimiter ext siblings)
    as (vs & E & Hlt); [lia | |].
  { intros sibling D Hs ED. apply numbered_digits_spec in ED as (_ & Hd & ->).
    now apply Hsafe. }
  destruct (next_number_above vs Hlt) as (n & En & Hn & Habove).
  assert (Hnum : forall m, (m < 2 ^ 53)%N ->
                   numbered_name atStart stem delimiter ext (Int m) = numbered m).
  { intros m Hm. unfold numbered_name, numbered. now rewrite toString_small. }
  exists n. split; [lia|]. split.
  - unfold resolved_name, candidate.
    rewrite deduplicateNewName_plain by assumption. cbv zeta. cbn [NameObj.name].
    unfold resolve. fold atStart delimiter candidate. rewrite Hbranch, E, En.
    f_equal. apply Hnum. lia.
  - intros siblings' Hperm. unfold resolved_name, candidate.
    rewrite deduplicateNewName_plain by assumption. cbv zeta. cbn [NameObj.name].
    fold atStart delimiter.
    rewrite <- (resolve_Permutation atStart (dupNumberAlways settings) stem delimiter ext
                  _ _ Hperm).
    unfold resolve. fold candidate.
    cbn [existsb]. rewrite <- orb_assoc, Hbranch, orb_true_r.
    unfold collected_numbers.
    change (omap ?f (numbered n :: siblings))
      with (match f (numbered n) with Some y => y :: omap f siblings | None => omap f siblings end).
    cbv beta.
    assert (Ed : numbered_digits atStart stem delimiter ext (numbered n) = Some (decimal n)).
    { apply numbered_digits_spec. split; [apply decimal_nonempty|].
      split; [apply decimal_digits | reflexivity]. }
    rewrite Ed. fold (collected_numbers atStart stem delimiter ext siblings). rewrite E.
    rewrite parseInt_digits by (apply decimal_nonempty || apply decimal_digits).
    rewrite digits_value_decimal, round_double_small by lia.
    change (Int n :: map Int vs) with (map Int (n :: vs)).
    rewrite next_number_after by (assumption || lia).
    f_equal. apply Hnum. lia.
Qed.

Lemma X14_witness :
  resolved_name DEFAULT_SETTINGS [lit "foo.png"; lit "foo-1.png"] (lit "foo.png")
    = Some (lit "foo-2.png")
  /\ resolved_name DEFAULT_SETTINGS [lit "foo.png"; lit "foo-2.png"; lit "foo-1.png"] (lit "foo.png")
     = Some (lit "foo-3.png").
Proof.
  destruct (X14_numbers_follow_one_another DEFAULT_SETTINGS [lit "foo.png"; lit "foo-1.png"]
              (lit "foo") (lit "png")) as (n & _ & H1 & H2).
  - reflexivity.
  - intros D _ H. cbn in H. destruct H as [H|[H|[]]]; [discriminate H|].
    injection H as H. symmetry in H.
    apply (app_inv_tail (lit ".png") D (lit "1")) in H. subst D.
    vm_compute. reflexivity.
  - left. left. reflexivity.
  - assert (Hn : n = 2%N).
    { vm_compute in H1. cbn in H1. injection H1 as H1.
      apply (app_inv_tail (lit ".png") (lit "2") (decimal n)) in H1.
      rewrite <- (digits_value_decimal n), <- H1. reflexivity. }
    subst n. split; [vm_compute; reflexivity|].
    apply (H2 [lit "foo.png"; lit "foo-2.png"; lit "foo-1.png"]).
    apply perm_swap.
Defined.

(** ** The batch loops over the embeds *)

(** X15. [batchRenameAllImages] ends, without a notice, at the first
    embed that does not resolve to a file or whose file has no image
    extension: it does what it does for the embeds before that one, and
    the embeds after it are never looked at, images or not. *)
Theorem X15_batch_rename_ends_at_first_other
    (renderTemplate : str -> RenderContext -> option (gmap str str) -> str)
    env settings activeFile pre link post w :
  (env_linkDest env link = None
   \/ exists file, env_linkDest env link = Some file
                   /\ extPatternRegex_matches (TFile.extension file) = false) ->
  batchRenameAllImages_loop renderTemplate env settings activeFile (pre ++ link :: post) w
  = batchRenameAllImages_loop renderTemplate env settings activeFile pre w.
Proof.
  intros Hlink. revert w. induction pre as [|l pre IH]; intros w.
  - cbn [app batchRenameAllImages_loop].
    destruct Hlink as [->|(file & -> & ->)]; reflexivity.
  - cbn [app batchRenameAllImages_loop].
    destruct (env_linkDest env l) as [file|]; [|reflexivity].
    destruct (extPatternRegex_matches (TFile.extension file)); [|reflexivity]. cbn [negb].
    destruct (generateNewName _ _ _ _ _) as [g|]; [|reflexivity].
    destruct (Generated.isMeaningful g); [|reflexivity]. cbn [negb].
    unfold bind. destruct (renameFile _ _ _ _ _ _ w) as [[[]|e] w1]; [apply IH | reflexivity].
Qed.

Lemma X15_witness :
  batchRenameAllImages_loop render_fileName album_env DEFAULT_SETTINGS note_md
    ([lit "foo.png"] ++ lit "manual.pdf" :: [lit "bar.png"]) (world_of vault_album)
  = batchRenameAllImages_loop render_fileName album_env DEFAULT_SETTINGS note_md
      [lit "foo.png"] (world_of vault_album).
Proof.
  apply X15_batch_rename_ends_at_first_other.
  right. exists manual_pdf. split; reflexivity.
Defined.

(** The batch of [album_env]: [foo.png] becomes [note.png], and
    [bar.png], which comes after the manual, keeps its name. *)
Example batchRenameAllImages_album :
  exists w',
    batchRenameAllImages render_fileName album_env DEFAULT_SETTINGS (world_of vault_album)
      = (Ok tt, w')
    /\ files w' !! lit "img/note.png" = Some (lit "FOO")
    /\ files w' !! lit "img/bar.png" = Some (lit "BAR")
    /\ notices w' = [].
Proof. eexists. split; [vm_compute; reflexivity|]. repeat split; vm_compute; reflexivity. Qed.

(** An embed that [batchConvertAllImages] passes over. *)
Lemma batchConvertAllImages_loop_skip
    (renderTemplate : str -> RenderContext -> option (gmap str str) -> str)
    env settings probe activeFile link rest convertedCount :
  (env_linkDest env link = None
   \/ exists file,
        env_linkDest env link = Some file
        /\ (imageExtensionRegex_matches (TFile.extension file) = false
            \/ toLowerCase (TFile.extension file)
               = toLowerCase (getOptimalDefaultFormat settings probe (TFile.extension file)))) ->
  batchConvertAllImages_loop renderTemplate env settings probe activeFile (link :: rest)
    convertedCount
  = batchConvertAllImages_loop renderTemplate env settings probe activeFile rest convertedCount.
Proof.
  intros Hlink. cbn [batchConvertAllImages_loop].
  destruct Hlink as [->|(file & -> & [->|Hsame])]; [reflexivity | reflexivity |].
  destruct (imageExtensionRegex_matches (TFile.extension file)); [|reflexivity]. cbn [negb].
  now rewrite Hsame, Str_eqb_refl.
Qed.

(** X16. [batchConvertAllImages] goes on after an embed that does not
    resolve to a file, whose file has no image extension, or whose
    extension is, letter case apart, the format chosen for it: the
    batch is the one of the other embeds, those after it included, and
    such an embed is not counted. *)
Theorem X16_batch_convert_passes_over
    (renderTemplate : str -> RenderContext -> option (gmap str str) -> str)
    env settings probe activeFile pre link post convertedCount w :
  (env_linkDest env link = None
   \/ exists file,
        env_linkDest env link = Some file
        /\ (imageExtensionRegex_matches (TFile.extension file) = false
            \/ toLowerCase (TFile.extension file)
               = toLowerCase (getOptimalDefaultFormat settings probe (TFile.extension file)))) ->
  batchConvertAllImages_loop renderTemplate env settings probe activeFile (pre ++ link :: post)
    convertedCount w
  = batchConvertAllImages_loop renderTemplate env settings probe activeFile (pre ++ post)
      convertedCount w.
Proof.
  intros Hlink. revert convertedCount w. induction pre as [|l pre IH]; intros convertedCount w.
  - cbn [app]. now rewrite batchConvertAllImages_loop_skip.
  - cbn [app batchConvertAllImages_loop].
    destruct (env_linkDest env l) as [file|]; [|apply IH].
    destruct (negb (imageExtensionRegex_matches (TFile.extension file))); [apply IH|].
    destruct (Str.eqb _ _); [apply IH|].
    unfold bind. destruct (compressToFormat _ _ _ w) as [[[cf|]|e] w1]; [|apply IH|reflexivity].
    destruct (rename_converted _ _ _ _ _ w1) as [[name|e] w2]; [apply IH | reflexivity].
Qed.

Lemma X16_witness :
  batchConvertAllImages_loop render_fileName album_env DEFAULT_SETTINGS
    {| supportsAvif := false; supportsWebp := true |} note_md
    ([lit "foo.png"] ++ lit "manual.pdf" :: [lit "bar.png"]) 0 (world_of vault_album)
  = batchConvertAllImages_loop render_fileName album_env DEFAULT_SETTINGS
      {| supportsAvif := false; supportsWebp := true |} note_md
      ([lit "foo.png"] ++ [lit "bar.png"]) 0 (world_of vault_album).
Proof.
  apply X16_batch_convert_passes_over.
  right. exists manual_pdf. split; [reflexivity|]. left. reflexivity.
Defined.

(** The batch of [album_env] with WebP available: both images are
    converted, the manual is passed over, and the count is 2. *)
Example batchConvertAllImages_album :
  exists w',
    batchConvertAllImages render_fileName album_env DEFAULT_SETTINGS
      {| supportsAvif := false; supportsWebp := true |} (world_of vault_album)
      = (Ok (Some 2%N), w')
    /\ files w' !! lit "img/note.webp" = Some (lit "WEBP")
    /\ files w' !! lit "img/note-1.webp" = Some (lit "WEBP")
    /\ files w' !! lit "img/manual.pdf" = Some (lit "PDF")
    /\ files w' !! lit "img/foo.png" = None
    /\ files w' !! lit "img/bar.png" = None.
Proof. eexists. split; [vm_compute; reflexivity|]. repeat split; vm_compute; reflexivity. Qed.

Lemma batchConvertAllImages_loop_disabled
    (renderTemplate : str -> RenderContext -> option (gmap str str) -> str)
    env settings probe activeFile links convertedCount w :
  enableCompression settings = false ->
  batchConvertAllImages_loop renderTemplate env settings probe activeFile links convertedCount w
  = (Ok convertedCount, w).
Proof.
  intros Hoff. induction links as [|link rest IH]; [reflexivity|].
  rewrite batchConvertAllImages_loop_skip; [exact IH|].
  destruct (env_linkDest env link) as [file|]; [|now left].
  right. exists file. split; [reflexivity|]. right.
  unfold getOptimalDefaultFormat. now rewrite Hoff.
Qed.

(** X17. With compression disabled in the settings,
    [batchConvertAllImages] converts nothing: no file is read, deleted
    or renamed, no notice of a failure is shown, and the count of the
    closing notice, when the document has embeds, is 0. *)
Theorem X17_batch_convert_disabled
    (renderTemplate : str -> RenderContext -> option (gmap str str) -> str)
    env settings probe w :
  enableCompression settings = false ->
  exists shown,
    batchConvertAllImages renderTemplate env settings probe w = (Ok shown, w)
    /\ (shown = Some 0%N \/ shown = None)
    /\ (shown = Some 0%N <->
        exists activeFile fileCache links,
          env_activeFile env = Some activeFile /\ env_fileCache env = Some fileCache
          /\ embeds fileCache = Some links).
Proof.
  intros Hoff. unfold batchConvertAllImages.
  destruct (env_activeFile env) as [activeFile|].
  2:{ exists None. split; [reflexivity|]. split; [now right|].
      split; [discriminate | intros (a & c & l & Ha & _); discriminate Ha]. }
  destruct (env_fileCache env) as [fileCache|].
  2:{ exists None. split; [reflexivity|]. split; [now right|].
      split; [discriminate | intros (a & c & l & _ & Hc & _); discriminate Hc]. }
  destruct (embeds fileCache) as [links|] eqn:Elinks.
  2:{ exists None. split; [reflexivity|]. split; [now right|].
      split; [discriminate | intros (a & c & l & _ & [= <-] & Hl); congruence]. }
  exists (Some 0%N). unfold bind.
  rewrite batchConvertAllImages_loop_disabled by assumption.
  split; [reflexivity|]. split; [now left|].
  split; [|reflexivity]. intros _. now exists activeFile, fileCache, links.
Qed.

Lemma X17_witness :
  batchConvertAllImages render_fileName album_env (set_enableCompression false DEFAULT_SETTINGS)
    {| supportsAvif := true; supportsWebp := true |} (world_of vault_album)
  = (Ok (Some 0%N), world_of vault_album).
Proof.
  destruct (X17_batch_convert_disabled render_fileName album_env
              (set_enableCompression false DEFAULT_SETTINGS)
              {| supportsAvif := true; supportsWebp := true |} (world_of vault_album) eq_refl)
    as (shown & Hrun & _ & Hshown).
  rewrite Hrun. do 2 f_equal. apply Hshown.
  exists note_md. eexists. exists album_links. repeat split; reflexivity.
Defined.

(** ** The parameters of the encoder *)

Ltac known_format mem :=
  cbn; split; [mem|]; split; [reflexivity|]; split; [reflexivity|]; split; [reflexivity|];
  split; [intros _; reflexivity|];
  let H := fresh "H" in intros H; exfalso; apply H; mem.

(** X18. For every format string the extension of the new file and
    the MIME type handed to the encoder agree: the extension is one of
    [jpg], [webp], [avif] and [png], it is the format itself when the
    format is one of these, and the MIME type is [image/] followed by
    the extension ([image/jpeg] for [jpg]).  Any other format string
    ([gif], [jpeg], [JPG], the empty one) is encoded as JPEG into a
    [.jpg] file, with the quality 0.85 and not the [jpgQuality] of the
    settings. *)
Theorem X18_extension_and_mime_agree settings format :
  let known := [lit "jpg"; lit "webp"; lit "avif"; lit "png"] in
  let extension := getExtensionFromFormat format in
  In extension known
  /\ getExtensionFromFormat extension = extension
  /\ getMimeType extension = getMimeType format
  /\ getMimeType format
     = lit "image/" ++ (if Str.eqb extension (lit "jpg") then lit "jpeg" else extension)
  /\ (In format known -> extension = format)
  /\ (~ In format known ->
      extension = lit "jpg" /\ getMimeType format = lit "image/jpeg"
      /\ getQualityForFormat settings format = 85 # 100).
Proof.
  intros known extension. unfold extension, getExtensionFromFormat, getMimeType,
    getQualityForFormat, known.
  destruct (Str.eqb format (lit "jpg")) eqn:E1.
  { apply Str_eqb_eq in E1. subst format. known_format ltac:(now left). }
  destruct (Str.eqb format (lit "webp")) eqn:E2.
  { apply Str_eqb_eq in E2. subst format. known_format ltac:(right; now left). }
  destruct (Str.eqb format (lit "avif")) eqn:E3.
  { apply Str_eqb_eq in E3. subst format. known_format ltac:(right; right; now left). }
  destruct (Str.eqb format (lit "png")) eqn:E4.
  { apply Str_eqb_eq in E4. subst format. known_format ltac:(right; right; right; now left). }
  apply Str_eqb_neq in E1, E2, E3, E4. cbn.
  split; [now left|]. split; [reflexivity|]. split; [reflexivity|]. split; [reflexivity|].
  split.
  - intros [H|[H|[H|[H|[]]]]]; symmetry in H;
      [now apply E1 in H | now apply E2 in H | now apply E3 in H | now apply E4 in H].
  - intros _. repeat split; reflexivity.
Qed.

Lemma X18_witness :
  getExtensionFromFormat (lit "gif") = lit "jpg"
  /\ getMimeType (lit "gif") = lit "image/jpeg"
  /\ getExtensionFromFormat (lit "avif") = lit "avif".
Proof.
  split; [|split].
  - apply (X18_extension_and_mime_agree DEFAULT_SETTINGS (lit "gif")).
    intros [H|[H|[H|[H|[]]]]]; discriminate H.
  - apply (X18_extension_and_mime_agree DEFAULT_SETTINGS (lit "gif")).
    intros [H|[H|[H|[H|[]]]]]; discriminate H.
  - apply (X18_extension_and_mime_agree DEFAULT_SETTINGS (lit "avif")).
    right. right. now left.
Defined.

(** ** The first heading *)

(** X19. [getFirstHeading] returns the text of the first heading of
    level 1, whatever headings of other levels come before it, and the
    empty text when the document has no headings or none of level
    1. *)
Theorem X19_first_heading_of_level_1 :
  (forall pre h post,
     Forall (fun x => level x <> 1%Z) pre -> level h = 1%Z ->
     getFirstHeading (Some (pre ++ h :: post)) = heading h)
  /\ (forall hs, Forall (fun x => level x <> 1%Z) hs -> getFirstHeading (Some hs) = [])
  /\ getFirstHeading None = [].
Proof.
  split; [|split; [|reflexivity]].
  - intros pre h post Hpre Hh. unfold getFirstHeading.
    induction Hpre as [|x pre Hx _ IH]; cbn [app getFirstHeading_loop].
    + rewrite Hh. reflexivity.
    + apply Z.eqb_neq in Hx. now rewrite Hx.
  - intros hs Hhs. unfold getFirstHeading.
    induction Hhs as [|x hs Hx _ IH]; cbn [getFirstHeading_loop]; [reflexivity|].
    apply Z.eqb_neq in Hx. now rewrite Hx.
Qed.

Lemma X19_witness :
  getFirstHeading (Some ([ {| heading := lit "Contents"; level := 2 |} ]
                         ++ {| heading := lit "Title"; level := 1 |}
                         :: [ {| heading := lit "Other"; level := 1 |} ]))
  = lit "Title".
Proof.
  destruct X19_first_heading_of_level_1 as [H _].
  apply (H [ {| heading := lit "Contents"; level := 2 |} ]
           {| heading := lit "Title"; level := 1 |}
           [ {| heading := lit "Other"; level := 1 |} ]).
  - constructor; [discriminate | constructor].
  - reflexivity.
Defined.

(** ** The handler of the [create] event, both ways *)

Lemma testExcludeExtension_false settings f :
  testExcludeExtension settings f = Some false
  <-> excludeExtensionPattern settings = []
      \/ exists re, RegExp (excludeExtensionPattern settings) = Some re
                    /\ test false re (TFile.extension f) = false.
Proof.
  unfold testExcludeExtension.
  destruct (excludeExtensionPattern settings) as [|c p]; [split; [now left | reflexivity]|].
  destruct (RegExp (c :: p)) as [re|]; split.
  - intros [= E]. right. now exists re.
  - intros [H | (re' & [= <-] & E)]; [discriminate H | now rewrite E].
  - discriminate.
  - intros [H | (re' & H & _)]; discriminate H.
Qed.

Lemma testExcludeExtension_None settings f :
  testExcludeExtension settings f = None
  <-> excludeExtensionPattern settings <> []
      /\ RegExp (excludeExtensionPattern settings) = None.
Proof.
  unfold testExcludeExtension.
  destruct (excludeExtensionPattern settings) as [|c p].
  - split; [discriminate | now intros [H _]].
  - destruct (RegExp (c :: p)) as [re|]; split.
    + discriminate.
    + intros [_ H]. discriminate H.
    + intros _. split; [discriminate | reflexivity].
    + reflexivity.
Qed.

(** X20. The handler starts the rename process for a created file
    exactly when the file is not a folder and not a markdown file, was
    created at most 1000 ms ago, no compression is in progress, and its
    name starts with ["Pasted image "] or [handleAllAttachments] is set
    and the exclude pattern does not match its extension: the pattern
    is empty, or [new RegExp] makes a regular expression of it that
    finds no match in the extension.  The process is then started with
    the [autoRename] of the settings.  The handler throws exactly when,
    all but the last of these holding for a file that is not a pasted
    image, the pattern is not empty and [new RegExp] rejects it. *)
Theorem X20_create_handler_starts_exactly settings flag now file :
  (forall f auto,
     vault_on_create settings flag now file = Started f auto
     <-> file = AFile f
         /\ auto = autoRename settings
         /\ (now - TFile.ctime f <= 1000)%Z
         /\ isMarkdownFile file = false
         /\ flag = false
         /\ (isPastedImage file = true
             \/ (handleAllAttachments settings = true
                 /\ (excludeExtensionPattern settings = []
                     \/ exists re, RegExp (excludeExtensionPattern settings) = Some re
                                   /\ test false re (TFile.extension f) = false))))
  /\ (vault_on_create settings flag now file = Thrown
      <-> exists f,
            file = AFile f
            /\ (now - TFile.ctime f <= 1000)%Z
            /\ isMarkdownFile file = false
            /\ flag = false
            /\ isPastedImage file = false
            /\ handleAllAttachments settings = true
            /\ excludeExtensionPattern settings <> []
            /\ RegExp (excludeExtensionPattern settings) = None).
Proof.
  assert (Hgtb : forall f, (now - TFile.ctime f <= 1000)%Z ->
                   (now - TFile.ctime f >? 1000)%Z = false).
  { intros f H. destruct (Z.gtb_spec (now - TFile.ctime f) 1000); [lia | reflexivity]. }
  split; [intros f auto|]; split.
  - unfold vault_on_create. destruct file as [f0|d]; [|discriminate].
    destruct (Z.gtb_spec (now - TFile.ctime f0) 1000) as [Hgap|Hgap]; [discriminate|].
    destruct (isMarkdownFile (AFile f0)) eqn:Emd; [discriminate|].
    destruct flag; [discriminate|].
    destruct (isPastedImage (AFile f0)) eqn:Epasted.
    + intros [= <- <-]. split; [reflexivity|]. split; [reflexivity|]. split; [exact Hgap|].
      split; [reflexivity|]. split; [reflexivity | now left].
    + destruct (handleAllAttachments settings) eqn:Eall; [|discriminate].
      destruct (testExcludeExtension settings f0) as [[|]|] eqn:Etest; try discriminate.
      intros [= <- <-]. split; [reflexivity|]. split; [reflexivity|]. split; [exact Hgap|].
      split; [reflexivity|]. split; [reflexivity|]. right. split; [reflexivity|].
      now apply testExcludeExtension_false.
  - intros (-> & -> & Hgap & Hmd & -> & Hcase). unfold vault_on_create.
    rewrite (Hgtb f Hgap), Hmd.
    destruct Hcase as [->|[Hall Htest]]; [reflexivity|].
    apply testExcludeExtension_false in Htest.
    rewrite Hall, Htest. now destruct (isPastedImage (AFile f)).
  - unfold vault_on_create. destruct file as [f0|d]; [|discriminate].
    destruct (Z.gtb_spec (now - TFile.ctime f0) 1000) as [Hgap|Hgap]; [discriminate|].
    destruct (isMarkdownFile (AFile f0)) eqn:Emd; [discriminate|].
    destruct flag; [discriminate|].
    destruct (isPastedImage (AFile f0)) eqn:Epasted; [discriminate|].
    destruct (handleAllAttachments settings) eqn:Eall; [|discriminate].
    destruct (testExcludeExtension settings f0) as [[|]|] eqn:Etest; try discriminate.
    intros _. exists f0. split; [reflexivity|]. split; [exact Hgap|].
    apply testExcludeExtension_None in Etest as [Hne Hre]. now repeat split.
  - intros (f & -> & Hgap & Hmd & -> & Hpasted & Hall & Hne & Hre). unfold vault_on_create.
    assert (Htest : testExcludeExtension settings f = None)
      by (apply testExcludeExtension_None; now split).
    now rewrite (Hgtb f Hgap), Hmd, Hpasted, Hall, Htest.
Qed.

Lemma X20_witness :
  vault_on_create (set_handleAllAttachments true (lit "png|jpe?g") DEFAULT_SETTINGS)
    false 5400 (AFile report_pdf) = Started report_pdf false.
Proof.
  destruct (X20_create_handler_starts_exactly
              (set_handleAllAttachments true (lit "png|jpe?g") DEFAULT_SETTINGS)
              false 5400 (AFile report_pdf)) as [H _].
  apply (proj2 (H report_pdf false)).
  split; [reflexivity|]. split; [reflexivity|]. split; [cbn; lia|].
  split; [reflexivity|]. split; [reflexivity|]. right. split; [reflexivity|].
  right. exists (regex_literal (lit "png|jpe?g")). split; vm_compute; reflexivity.
Defined.

(** ** The exclude pattern *)

(** X21. An exclude pattern without characters that are special in a
    pattern excludes a file exactly when the pattern occurs somewhere in
    the extension of the file: the pattern is not anchored.  With the
    empty pattern no file is excluded. *)
Theorem X21_exclude_pattern_unanchored settings file :
  (excludeExtensionPattern settings = [] -> testExcludeExtension settings file = Some false)
  /\ (excludeExtensionPattern settings <> [] -> regex_plain (excludeExtensionPattern settings) ->
      testExcludeExtension settings file
      = Some (includes (excludeExtensionPattern settings) (TFile.extension file))).
Proof.
  unfold testExcludeExtension. split.
  - intros ->. reflexivity.
  - intros Hne Hplain. destruct (excludeExtensionPattern settings) as [|c p] eqn:E; [contradiction|].
    rewrite RegExp_plain by assumption. now rewrite test_literal.
Qed.

Lemma X21_witness :
  testExcludeExtension (set_handleAllAttachments true (lit "doc") DEFAULT_SETTINGS)
    (Path.to_TFile (lit "files/report.docx")) = Some true.
Proof.
  destruct (X21_exclude_pattern_unanchored
              (set_handleAllAttachments true (lit "doc") DEFAULT_SETTINGS)
              (Path.to_TFile (lit "files/report.docx"))) as [_ H].
  rewrite H; [reflexivity | discriminate | reflexivity].
Defined.

(** ** Nothing is renamed without a confirmation *)

(** X22. Called without [autoRename], [startRenameProcess] never
    touches the vault: it shows the notice that there is no active
    file, or throws because no name can be generated, or opens one
    rename modal for the file, with the generated stem as proposal when
    that stem is meaningful and with an empty proposal otherwise. *)
Theorem X22_no_rename_without_confirmation
    (renderTemplate : str -> RenderContext -> option (gmap str str) -> str)
    env settings file w :
  exists r w',
    startRenameProcess renderTemplate env settings file false w = (r, w')
    /\ files w' = files w
    /\ isProcessingCompression w' = isProcessingCompression w
    /\ ((env_activeFile env = None /\ r = Ok tt
         /\ notices w' = notices w ++ [NoActiveFile] /\ modals w' = modals w)
        \/ (exists activeFile,
              env_activeFile env = Some activeFile
              /\ generateNewName renderTemplate settings (env_fileCache env) file activeFile = None
              /\ r = Throw NoValue /\ w' = w)
        \/ (exists activeFile g,
              env_activeFile env = Some activeFile
              /\ generateNewName renderTemplate settings (env_fileCache env) file activeFile
                 = Some g
              /\ r = Ok tt /\ notices w' = notices w
              /\ modals w'
                 = modals w
                   ++ [{| modal_file := file;
                          modal_stem := if Generated.isMeaningful g then Generated.stem g else [];
                          modal_sourcePath := TFile.path activeFile |}])).
Proof.
  unfold startRenameProcess.
  destruct (env_activeFile env) as [activeFile|].
  2:{ eexists. eexists. split; [reflexivity|]. cbn. split; [reflexivity|]. split; [reflexivity|].
      left. repeat split; reflexivity. }
  destruct (generateNewName renderTemplate settings (env_fileCache env) file activeFile)
    as [g|] eqn:Eg.
  2:{ eexists. eexists. split; [reflexivity|]. split; [reflexivity|]. split; [reflexivity|].
      right. left. exists activeFile. repeat split; reflexivity || exact Eg. }
  cbn [negb]. rewrite orb_true_r.
  eexists. eexists. split; [reflexivity|]. cbn. split; [reflexivity|]. split; [reflexivity|].
  right. right. exists activeFile, g. repeat split; reflexivity || exact Eg.
Qed.

(** ** The tasks of the batch conversion modal *)

Lemma conversion_task_Some env state namePatternRegex extPatternRegex link task :
  conversion_task env state namePatternRegex extPatternRegex link = Some task ->
  env_linkDest env link = Some (conv_file task)
  /\ conv_targetFormat task = cs_targetFormat state
  /\ imageExtensionRegex_matches (TFile.extension (conv_file task)) = true
  /\ (cs_extPattern state <> [] ->
      test false extPatternRegex (TFile.extension (conv_file task)) = true)
  /\ test false namePatternRegex (TFile.basename (conv_file task)) = true
  /\ toLowerCase (TFile.extension (conv_file task)) <> toLowerCase (cs_targetFormat state).
Proof.
  unfold conversion_task. destruct (env_linkDest env link) as [file|]; [|discriminate].
  destruct (imageExtensionRegex_matches (TFile.extension file)) eqn:Eimg; [|discriminate].
  cbn [negb].
  destruct (negb (is_nil (cs_extPattern state))
            && negb (test false extPatternRegex (TFile.extension file))) eqn:Eext; [discriminate|].
  destruct (test false namePatternRegex (TFile.basename file)) eqn:Ename; [|discriminate].
  cbn [negb].
  destruct (Str.eqb (toLowerCase (TFile.extension file)) (toLowerCase (cs_targetFormat state)))
    eqn:Esame; [discriminate|].
  intros [= <-]. cbn [conv_file conv_targetFormat].
  split; [reflexivity|]. split; [reflexivity|]. split; [exact Eimg|].
  split; [|split; [exact Ename | now apply Str_eqb_neq]].
  intros Hne. apply andb_false_iff in Eext as [E|E].
  - destruct (cs_extPattern state); [contradiction | discriminate E].
  - now apply negb_false_iff in E.
Qed.

Lemma conversion_task_complete env state namePatternRegex extPatternRegex link file :
  env_linkDest env link = Some file ->
  imageExtensionRegex_matches (TFile.extension file) = true ->
  (cs_extPattern state <> [] -> test false extPatternRegex (TFile.extension file) = true) ->
  test false namePatternRegex (TFile.basename file) = true ->
  toLowerCase (TFile.extension file) <> toLowerCase (cs_targetFormat state) ->
  conversion_task env state namePatternRegex extPatternRegex link
  = Some {| conv_file := file; conv_targetFormat := cs_targetFormat state |}.
Proof.
  intros Hdest Himg Hext Hname Hother. unfold conversion_task.
  rewrite Hdest, Himg, Hname. cbn [negb].
  apply Str_eqb_neq in Hother. rewrite Hother.
  destruct (cs_extPattern state) as [|c p]; [reflexivity|].
  rewrite Hext by discriminate. reflexivity.
Qed.

(** X23. [matchImageNames] of the batch conversion modal.  When the
    document has no cache or no embeds the state is left as it was,
    tasks of an earlier match included.  When it has embeds, the method
    throws exactly when [new RegExp] rejects the name pattern or the
    extension pattern; otherwise the patterns and the format of the
    state are kept, and the new tasks are exactly these: for every
    embed that resolves to a file with an image extension that differs,
    letter case apart, from the target format, with a stem in which the
    name pattern finds a match and, when an extension pattern is given,
    an extension in which that pattern finds a match, the task of
    converting that file to the target format. *)
Theorem X23_conversion_tasks env state :
  ((env_fileCache env = None
    \/ exists fileCache, env_fileCache env = Some fileCache /\ embeds fileCache = None) ->
   matchImageNames env state = Some state)
  /\ (forall fileCache links,
        env_fileCache env = Some fileCache -> embeds fileCache = Some links ->
        (matchImageNames env state = None
         <-> RegExp (cs_namePattern state) = None \/ RegExp (cs_extPattern state) = None)
        /\ (forall namePatternRegex extPatternRegex,
              RegExp (cs_namePattern state) = Some namePatternRegex ->
              RegExp (cs_extPattern state) = Some extPatternRegex ->
              exists state',
                matchImageNames env state = Some state'
                /\ cs_namePattern state' = cs_namePattern state
                /\ cs_extPattern state' = cs_extPattern state
                /\ cs_targetFormat state' = cs_targetFormat state
                /\ forall task,
                     In task (cs_conversionTasks state')
                     <-> exists link,
                           In link links
                           /\ env_linkDest env link = Some (conv_file task)
                           /\ conv_targetFormat task = cs_targetFormat state
                           /\ imageExtensionRegex_matches (TFile.extension (conv_file task))
                              = true
                           /\ toLowerCase (TFile.extension (conv_file task))
                              <> toLowerCase (cs_targetFormat state)
                           /\ test false namePatternRegex (TFile.basename (conv_file task))
                              = true
                           /\ (cs_extPattern state <> [] ->
                               test false extPatternRegex (TFile.extension (conv_file task))
                               = true))).
Proof.
  split.
  - unfold matchImageNames. intros [-> | (fc & -> & ->)]; reflexivity.
  - intros fileCache links Hcache Hembeds. unfold matchImageNames.
    rewrite Hcache, Hembeds. split.
    + destruct (RegExp (cs_namePattern state)) as [n|];
        [|split; [now left | reflexivity]].
      destruct (RegExp (cs_extPattern state)) as [e|]; cbn [mbind option_bind].
      * split; [discriminate | intros [H|H]; discriminate H].
      * split; [now right | reflexivity].
    + intros n e -> ->. cbn [mbind option_bind].
      eexists. split; [reflexivity|].
      cbn [cs_namePattern cs_extPattern cs_targetFormat cs_conversionTasks].
      split; [reflexivity|]. split; [reflexivity|]. split; [reflexivity|].
      intros task. rewrite <- list_elem_of_In, list_elem_of_omap. split.
      * intros (link & Hlink & Htask). apply list_elem_of_In in Hlink.
        apply conversion_task_Some in Htask as (Hdest & Hfmt & Himg & Hext & Hname & Hother).
        exists link. now repeat split.
      * intros (link & Hlink & Hdest & Hfmt & Himg & Hother & Hname & Hext).
        exists link. split; [now apply list_elem_of_In|].
        rewrite (conversion_task_complete env state n e link (conv_file task))
          by assumption.
        destruct task as [file fmt]. cbn [conv_file conv_targetFormat] in *. now subst fmt.
Qed.

Lemma X23_witness :
  exists state',
    matchImageNames album_env
      {| cs_namePattern := lit "foo|bar"; cs_extPattern := lit "png|jpe?g";
         cs_targetFormat := lit "webp"; cs_conversionTasks := [] |} = Some state'
    /\ In {| conv_file := foo_png; conv_targetFormat := lit "webp" |} (cs_conversionTasks state')
    /\ In {| conv_file := bar_png; conv_targetFormat := lit "webp" |} (cs_conversionTasks state')
    /\ ~ In {| conv_file := manual_pdf; conv_targetFormat := lit "webp" |}
            (cs_conversionTasks state').
Proof.
  destruct (X23_conversion_tasks album_env
              {| cs_namePattern := lit "foo|bar"; cs_extPattern := lit "png|jpe?g";
                 cs_targetFormat := lit "webp"; cs_conversionTasks := [] |}) as [_ H].
  destruct (H _ album_links eq_refl eq_refl) as [_ Htasks].
  destruct (Htasks (regex_literal (lit "foo|bar")) (regex_literal (lit "png|jpe?g")))
    as (state' & Hrun & _ & _ & _ & Hin).
  - vm_compute. reflexivity.
  - vm_compute. reflexivity.
  - exists state'. split; [exact Hrun|]. split; [|split].
    + apply Hin. exists (lit "foo.png"). split; [now left|].
      split; [reflexivity|]. split; [reflexivity|]. split; [reflexivity|].
      split; [discriminate|]. split; [vm_compute; reflexivity|].
      intros _. vm_compute. reflexivity.
    + apply Hin. exists (lit "bar.png"). split; [right; right; now left|].
      split; [reflexivity|]. split; [reflexivity|]. split; [reflexivity|].
      split; [discriminate|]. split; [vm_compute; reflexivity|].
      intros _. vm_compute. reflexivity.
    + intros Hc. apply Hin in Hc as (link & _ & _ & _ & Himg & _).
      vm_compute in Himg. discriminate Himg.
Defined.

(** With the target [webp] and no patterns the two images of
    [album_env] become tasks, in the order of the embeds, and the
    manual does not. *)
Example matchImageNames_album :
  exists state',
    matchImageNames album_env
      {| cs_namePattern := []; cs_extPattern := []; cs_targetFormat := lit "webp";
         cs_conversionTasks := [] |} = Some state'
    /\ cs_conversionTasks state'
       = [ {| conv_file := foo_png; conv_targetFormat := lit "webp" |};
           {| conv_file := bar_png; conv_targetFormat := lit "webp" |} ].
Proof. eexists. split; reflexivity. Qed.

(** ** The size of the canvas *)

Section Dimensions.

Local Open Scope Q_scope.

Lemma nearest_even_error (t : Q) :
  - (1 # 2) <= inject_Z (nearest_even t) - t <= 1 # 2.
Proof.
  unfold nearest_even.
  pose proof (Qfloor_le t) as Hlo.
  pose proof (Qlt_floor t) as Hhi.
  rewrite inject_Z_plus in Hhi.
  change (inject_Z 1) with 1 in Hhi.
  destruct (Qcompare_spec (t - inject_Z (Qfloor t)) (1 # 2)) as [E | E | E].
  - destruct (Z.even (Qfloor t)).
    + lra.
    + rewrite inject_Z_plus. change (inject_Z 1) with 1. lra.
  - lra.
  - rewrite inject_Z_plus. change (inject_Z 1) with 1. lra.
Qed.

Lemma Qpower_2_pos (e : Z) : 0 < 2 ^ e.
Proof. apply Qpower_0_lt. reflexivity. Qed.

Lemma Qpower_2_opp (e : Z) : 2 ^ (- e) * 2 ^ e == 1.
Proof.
  rewrite <- Qpower_plus by discriminate.
  replace (- e + e)%Z with 0%Z by lia. reflexivity.
Qed.

Lemma Qpower_2_Z (e : Z) : (0 <= e)%Z -> 2 ^ e == inject_Z (2 ^ e).
Proof. intros He. rewrite Zpower_Qpower by exact He. reflexivity. Qed.

Lemma scaled_above (x : Q) :
  0 < x ->
  let e0 := (Z.log2 (Qnum x) - Z.log2 (Z.pos (Qden x)) - 52)%Z in
  inject_Z (2 ^ 51) <= x * 2 ^ (- e0).
Proof.
  intros Hx e0.
  destruct x as [n d]. cbn [Qnum Qden] in e0.
  assert (Hn : (0 < n)%Z).
  { unfold Qlt in Hx. cbn in Hx. lia. }
  pose proof (Z.log2_spec n Hn) as [Ha _].
  pose proof (Z.log2_spec (Z.pos d) eq_refl) as [_ Hb].
  pose proof (Z.log2_nonneg n) as Ha0.
  pose proof (Z.log2_nonneg (Z.pos d)) as Hb0.
  set (a := Z.log2 n) in *. set (b := Z.log2 (Z.pos d)) in *.
  replace (- e0)%Z with (51 + (Z.succ b) + - a)%Z by (unfold e0; lia).
  rewrite !Qpower_plus by discriminate.
  rewrite Qpower_opp.
  rewrite !Qpower_2_Z by lia.
  assert (Hpa : 0 < inject_Z (2 ^ a)).
  { rewrite <- Qpower_2_Z by lia. apply Qpower_2_pos. }
  assert (Hn' : inject_Z (2 ^ a) <= inject_Z n) by (rewrite <- Zle_Qle; exact Ha).
  assert (Hd' : inject_Z (Z.pos d) <= inject_Z (2 ^ Z.succ b)) by (rewrite <- Zle_Qle; lia).
  assert (Hx' : n # d == inject_Z n / inject_Z (Z.pos d)) by apply Qmake_Qdiv.
  rewrite Hx'.
  assert (Hd0 : 0 < inject_Z (Z.pos d)) by reflexivity.
  set (N := inject_Z n) in *. set (D := inject_Z (Z.pos d)) in *.
  set (A := inject_Z (2 ^ a)) in *. set (B := inject_Z (2 ^ Z.succ b)) in *.
  set (C := inject_Z (2 ^ 51)).
  assert (HC : 0 <= C) by (unfold C; discriminate).
  (* C <= N / D * (C * B * / A) *)
  assert (E : N / D * (C * B * / A) == C * ((N / A) * (B / D))).
  { field. split; lra. }
  rewrite E.
  assert (H1 : 1 <= N / A).
  { apply Qle_shift_div_l; lra. }
  assert (H2 : 1 <= B / D).
  { apply Qle_shift_div_l; lra. }
  assert (H3 : 1 <= N / A * (B / D)).
  { nra. }
  nra.
Qed.

Lemma fl_zero (x : Q) : x <= 0 -> fl x = x.
Proof.
  intros Hx. unfold fl.
  apply Qle_bool_iff in Hx. now rewrite Hx.
Qed.

Lemma fl_error (x : Q) :
  0 < x ->
  x * (1 - unit_roundoff) <= fl x <= x * (1 + unit_roundoff).
Proof.
  intros Hx. unfold fl.
  destruct (Qle_bool x 0) eqn:E0.
  { apply Qle_bool_iff in E0. lra. }
  pose proof (scaled_above x Hx) as H51. cbv zeta in H51.
  set (e0 := (Z.log2 (Qnum x) - Z.log2 (Z.pos (Qden x)) - 52)%Z) in *.
  set (e := if Qle_bool (inject_Z (2 ^ 52)) (x * 2 ^ (- e0)) then e0 else (e0 - 1)%Z).
  assert (H52 : inject_Z (2 ^ 52) <= x * 2 ^ (- e)).
  { unfold e. destruct (Qle_bool (inject_Z (2 ^ 52)) (x * 2 ^ (- e0))) eqn:E.
    - now apply Qle_bool_iff in E.
    - replace (- (e0 - 1))%Z with (- e0 + 1)%Z by lia.
      rewrite Qpower_plus by discriminate.
      change (2 ^ 1) with 2.
      change (inject_Z (2 ^ 52)) with (2 * inject_Z (2 ^ 51)).
      lra. }
  clearbody e. clear H51 e0.
  pose proof (nearest_even_error (x * 2 ^ (- e))) as [Hlo Hhi].
  pose proof (Qpower_2_pos e) as Hp.
  pose proof (Qpower_2_opp e) as Hinv.
  set (n := inject_Z (nearest_even (x * 2 ^ (- e)))) in *.
  set (p := 2 ^ e) in *. set (q := 2 ^ (- e)) in *.
  change (inject_Z (2 ^ 52)) with 4503599627370496 in H52.
  unfold unit_roundoff.
  assert (Hq : 0 < q) by apply Qpower_2_pos.
  assert (Hx' : x == x * q * p) by (rewrite <- Qmult_assoc, Hinv; ring).
  assert (Hpx : 4503599627370496 * p <= x).
  { rewrite Hx' at 1. nra. }
  assert (H1 : n * p - x == (n - x * q) * p).
  { rewrite Hx' at 1. ring. }
  assert (H2 : (n - x * q) * p <= (1 # 2) * p) by nra.
  assert (H3 : - (1 # 2) * p <= (n - x * q) * p) by nra.
  split; lra.
Qed.

Lemma scaled_below (x : Q) :
  0 < x ->
  let e0 := (Z.log2 (Qnum x) - Z.log2 (Z.pos (Qden x)) - 52)%Z in
  x * 2 ^ (- e0) < inject_Z (2 ^ 53).
Proof.
  intros Hx e0.
  destruct x as [n d]. cbn [Qnum Qden] in e0.
  assert (Hn : (0 < n)%Z).
  { unfold Qlt in Hx. cbn in Hx. lia. }
  pose proof (Z.log2_spec n Hn) as [_ Ha].
  pose proof (Z.log2_spec (Z.pos d) eq_refl) as [Hb _].
  pose proof (Z.log2_nonneg n) as Ha0.
  pose proof (Z.log2_nonneg (Z.pos d)) as Hb0.
  set (a := Z.log2 n) in *. set (b := Z.log2 (Z.pos d)) in *.
  replace (- e0)%Z with (53 + b + - Z.succ a)%Z by (unfold e0; lia).
  rewrite !Qpower_plus by discriminate.
  rewrite Qpower_opp.
  rewrite !Qpower_2_Z by lia.
  assert (Hpb : 0 < inject_Z (2 ^ b)).
  { rewrite <- Qpower_2_Z by lia. apply Qpower_2_pos. }
  assert (Hn' : inject_Z n < inject_Z (2 ^ Z.succ a)) by (rewrite <- Zlt_Qlt; exact Ha).
  assert (Hd' : inject_Z (2 ^ b) <= inject_Z (Z.pos d)) by (rewrite <- Zle_Qle; exact Hb).
  assert (Hx' : n # d == inject_Z n / inject_Z (Z.pos d)) by apply Qmake_Qdiv.
  rewrite Hx'.
  assert (Hn0 : 0 < inject_Z n) by (change 0 with (inject_Z 0); rewrite <- Zlt_Qlt; exact Hn).
  set (N := inject_Z n) in *. set (D := inject_Z (Z.pos d)) in *.
  set (A := inject_Z (2 ^ Z.succ a)) in *. set (B := inject_Z (2 ^ b)) in *.
  set (C := inject_Z (2 ^ 53)).
  assert (HC : 0 < C) by (unfold C; reflexivity).
  assert (E : N / D * (C * B * / A) == C * ((N / A) * (B / D))).
  { field. split; lra. }
  rewrite E.
  assert (H1 : N / A < 1).
  { apply Qlt_shift_div_r; lra. }
  assert (H1' : 0 < N / A).
  { apply Qlt_shift_div_l; lra. }
  assert (H2 : B / D <= 1).
  { apply Qle_shift_div_r; lra. }
  assert (H2' : 0 < B / D).
  { apply Qlt_shift_div_l; lra. }
  assert (H3 : N / A * (B / D) < 1) by nra.
  nra.
Qed.

Lemma nearest_even_mono (t : Q) (lo hi : Z) :
  inject_Z lo <= t -> t <= inject_Z hi -> (lo <= nearest_even t <= hi)%Z.
Proof.
  intros Hlo Hhi.
  pose proof (Qfloor_le t) as H1.
  pose proof (Qlt_floor t) as H2.
  assert (Hf : (lo <= Qfloor t)%Z).
  { rewrite <- (Qfloor_Z lo). now apply Qfloor_resp_le. }
  assert (Hc : (Qfloor t <= hi)%Z).
  { rewrite <- (Qfloor_Z hi). now apply Qfloor_resp_le. }
  assert (Hup : inject_Z (Qfloor t) < t -> (Qfloor t + 1 <= hi)%Z).
  { intros Hlt.
    assert (Hlt' : inject_Z (Qfloor t) < inject_Z hi) by lra.
    rewrite <- Zlt_Qlt in Hlt'. lia. }
  unfold nearest_even.
  destruct (Qcompare_spec (t - inject_Z (Qfloor t)) (1 # 2)) as [E | E | E].
  - destruct (Z.even (Qfloor t)); [lia | ].
    split; [lia | apply Hup; lra].
  - lia.
  - split; [lia | apply Hup; lra].
Qed.

(** [fl x] is a double next to [x]: a significand of 53 bits times a power
    of two, at most half a unit in the last place away from [x]. *)
Lemma fl_nearest (x : Q) :
  0 < x ->
  exists m e : Z,
    fl x == inject_Z m * 2 ^ e /\
    (2 ^ 52 <= m <= 2 ^ 53)%Z /\
    - (1 # 2) * 2 ^ e <= fl x - x <= (1 # 2) * 2 ^ e.
Proof.
  intros Hx. unfold fl.
  destruct (Qle_bool x 0) eqn:E0.
  { apply Qle_bool_iff in E0. lra. }
  pose proof (scaled_above x Hx) as H51. cbv zeta in H51.
  pose proof (scaled_below x Hx) as H53. cbv zeta in H53.
  set (e0 := (Z.log2 (Qnum x) - Z.log2 (Z.pos (Qden x)) - 52)%Z) in *.
  set (e := if Qle_bool (inject_Z (2 ^ 52)) (x * 2 ^ (- e0)) then e0 else (e0 - 1)%Z).
  assert (H52 : inject_Z (2 ^ 52) <= x * 2 ^ (- e) <= inject_Z (2 ^ 53)).
  { unfold e. destruct (Qle_bool (inject_Z (2 ^ 52)) (x * 2 ^ (- e0))) eqn:E.
    - apply Qle_bool_iff in E. split; lra.
    - assert (E' : x * 2 ^ (- e0) < inject_Z (2 ^ 52)).
      { apply Qnot_le_lt. intros Hle. apply Qle_bool_iff in Hle. congruence. }
      replace (- (e0 - 1))%Z with (- e0 + 1)%Z by lia.
      rewrite Qpower_plus by discriminate.
      change (2 ^ 1) with 2.
      change (inject_Z (2 ^ 52)) with (2 * inject_Z (2 ^ 51)).
      change (inject_Z (2 ^ 53)) with (2 * inject_Z (2 ^ 52)).
      split; lra. }
  clearbody e. clear H51 H53 e0.
  exists (nearest_even (x * 2 ^ (- e))), e.
  split; [reflexivity | ].
  split; [apply nearest_even_mono; apply H52 | ].
  pose proof (nearest_even_error (x * 2 ^ (- e))) as [Hlo Hhi].
  pose proof (Qpower_2_pos e) as Hp.
  pose proof (Qpower_2_opp e) as Hinv.
  set (n := inject_Z (nearest_even (x * 2 ^ (- e)))) in *.
  set (p := 2 ^ e) in *. set (q := 2 ^ (- e)) in *.
  assert (Hx' : x == x * q * p) by (rewrite <- Qmult_assoc, Hinv; ring).
  assert (H1 : n * p - x == (n - x * q) * p).
  { rewrite Hx' at 1. ring. }
  assert (H2 : (n - x * q) * p <= (1 # 2) * p) by nra.
  assert (H3 : - (1 # 2) * p <= (n - x * q) * p) by nra.
  split; lra.
Qed.

Lemma quotient_bounds (W a : Z) :
  (0 < W)%Z -> (0 < a)%Z ->
  let q := fl (W # Z.to_pos a) in
  0 <= q /\
  inject_Z W * (1 - unit_roundoff) <= inject_Z a * q /\
  inject_Z a * q <= inject_Z W * (1 + unit_roundoff) /\
  ((W < a)%Z -> q <= 1 + unit_roundoff).
Proof.
  intros HW Ha q.
  assert (Hx : W # Z.to_pos a == inject_Z W / inject_Z a).
  { rewrite <- (Z2Pos.id a) at 2 by exact Ha. apply Qmake_Qdiv. }
  assert (HW' : 0 < inject_Z W) by (change 0 with (inject_Z 0); rewrite <- Zlt_Qlt; exact HW).
  assert (Ha' : 0 < inject_Z a) by (change 0 with (inject_Z 0); rewrite <- Zlt_Qlt; exact Ha).
  assert (Hpos : 0 < W # Z.to_pos a).
  { unfold Qlt. cbn. lia. }
  pose proof (fl_error _ Hpos) as [Hlo Hhi]. fold q in Hlo, Hhi.
  assert (Hax : inject_Z a * (W # Z.to_pos a) == inject_Z W).
  { rewrite Hx. field. lra. }
  unfold unit_roundoff in *.
  set (x := W # Z.to_pos a) in *. set (A := inject_Z a) in *. set (B := inject_Z W) in *.
  assert (H1 : A * (x * (1 - (1 # 9007199254740992))) <= A * q) by nra.
  assert (H2 : A * q <= A * (x * (1 + (1 # 9007199254740992)))) by nra.
  assert (E1 : A * (x * (1 - (1 # 9007199254740992))) == B * (1 - (1 # 9007199254740992))).
  { rewrite <- Hax. ring. }
  assert (E2 : A * (x * (1 + (1 # 9007199254740992))) == B * (1 + (1 # 9007199254740992))).
  { rewrite <- Hax. ring. }
  repeat split.
  - nra.
  - lra.
  - lra.
  - intros Hlt.
    assert (Hlt' : B <= A) by (unfold A, B; rewrite <- Zle_Qle; lia).
    assert (Hx1 : x <= 1).
    { assert (A * x <= A * 1) by lra. nra. }
    nra.
Qed.

Lemma Qfloor_unique (x : Q) (z : Z) :
  inject_Z z <= x -> x < inject_Z z + 1 -> Qfloor x = z.
Proof.
  intros Hlo Hhi.
  pose proof (Qfloor_le x) as H1.
  pose proof (Qlt_floor x) as H2.
  rewrite inject_Z_plus in H2. change (inject_Z 1) with 1 in H2.
  assert (H3 : inject_Z z < inject_Z (Qfloor x) + 1) by lra.
  assert (H4 : inject_Z (Qfloor x) < inject_Z z + 1) by lra.
  change 1 with (inject_Z 1) in H3, H4.
  rewrite <- inject_Z_plus, <- Zlt_Qlt in H3, H4.
  lia.
Qed.

Lemma Qfloor_below (x : Q) (z : Z) :
  x < inject_Z z + 1 -> (Qfloor x <= z)%Z.
Proof.
  intros Hhi.
  pose proof (Qfloor_le x) as H1.
  assert (H4 : inject_Z (Qfloor x) < inject_Z z + 1) by lra.
  change 1 with (inject_Z 1) in H4.
  rewrite <- inject_Z_plus, <- Zlt_Qlt in H4.
  lia.
Qed.

Lemma inject_Z_below (M : Z) :
  (0 <= M < 2 ^ 50)%Z -> 0 <= inject_Z M /\ inject_Z M <= 1125899906842624.
Proof.
  intros [H0 H1]. split.
  - change 0 with (inject_Z 0). rewrite <- Zle_Qle. exact H0.
  - change 1125899906842624 with (inject_Z (2 ^ 50)). rewrite <- Zle_Qle. lia.
Qed.

(** Rounding [n * r] to a double and then to an integer does not go
    beyond [M], when [n * r] is at most one rounding above [M]. *)
Lemma round_at_most (n M : Z) (r : Q) :
  (0 <= M < 2 ^ 50)%Z ->
  inject_Z n * r <= inject_Z M * (1 + unit_roundoff) ->
  (Qfloor (fl (inject_Z n * r) + (1 # 2)) <= M)%Z.
Proof.
  intros HM Hle. apply inject_Z_below in HM as [HM0 HM1].
  apply Qfloor_below.
  destruct (Qlt_le_dec 0 (inject_Z n * r)) as [Hpos | Hneg].
  - pose proof (fl_error _ Hpos) as [_ Hhi].
    unfold unit_roundoff in *.
    set (x := inject_Z n * r) in *. set (B := inject_Z M) in *.
    assert (H1 : x * (1 + (1 # 9007199254740992))
                 <= B * (1 + (1 # 9007199254740992)) * (1 + (1 # 9007199254740992))) by nra.
    lra.
  - rewrite (fl_zero _ Hneg). lra.
Qed.

(** [M / n] times [n] rounds to [M]. *)
Lemma round_exact (n M : Z) :
  (0 < n)%Z -> (0 < M < 2 ^ 50)%Z ->
  Qfloor (fl (inject_Z n * fl (M # Z.to_pos n)) + (1 # 2)) = M.
Proof.
  intros Hn [HM0 HM1].
  destruct (quotient_bounds M n HM0 Hn) as (_ & Hlo & Hhi & _).
  destruct (inject_Z_below M ltac:(lia)) as [_ HB].
  assert (HB0 : 1 <= inject_Z M).
  { change 1 with (inject_Z 1). rewrite <- Zle_Qle. lia. }
  set (x := inject_Z n * fl (M # Z.to_pos n)) in *.
  unfold unit_roundoff in *.
  set (B := inject_Z M) in *.
  assert (Hpos : 0 < x) by nra.
  pose proof (fl_error _ Hpos) as [Hlo' Hhi'].
  unfold unit_roundoff in *.
  assert (H1 : x * (1 + (1 # 9007199254740992))
               <= B * (1 + (1 # 9007199254740992)) * (1 + (1 # 9007199254740992))) by nra.
  assert (H2 : B * (1 - (1 # 9007199254740992)) * (1 - (1 # 9007199254740992))
               <= x * (1 - (1 # 9007199254740992))) by nra.
  assert (H3 : B <= fl x + (1 # 2)) by lra.
  assert (H4 : fl x + (1 # 2) < B + 1) by lra.
  apply Qfloor_unique; assumption.
Qed.

(** The ratio of [calculateDimensions] for an image that does not fit:
    a number that is at most one rounding above [1], takes neither side
    beyond its maximum, and is the quotient of one of the sides. *)
Lemma ratio_bounds (W H a b : Z) :
  (0 < W)%Z -> (0 < H)%Z -> (0 <= a)%Z -> (0 <= b)%Z ->
  (W < a \/ H < b)%Z ->
  exists r : Q,
    Math_min (quotient W a) (quotient H b) = DFinite r /\
    0 <= r /\
    r <= 1 + unit_roundoff /\
    inject_Z a * r <= inject_Z W * (1 + unit_roundoff) /\
    inject_Z b * r <= inject_Z H * (1 + unit_roundoff) /\
    (((0 < a)%Z /\ r = fl (W # Z.to_pos a)) \/ ((0 < b)%Z /\ r = fl (H # Z.to_pos b))).
Proof.
  intros HW HH Ha Hb Hout.
  assert (Hu : 0 <= inject_Z W * (1 + unit_roundoff)).
  { assert (0 < inject_Z W) by (change 0 with (inject_Z 0); rewrite <- Zlt_Qlt; exact HW).
    unfold unit_roundoff. nra. }
  assert (Hv : 0 <= inject_Z H * (1 + unit_roundoff)).
  { assert (0 < inject_Z H) by (change 0 with (inject_Z 0); rewrite <- Zlt_Qlt; exact HH).
    unfold unit_roundoff. nra. }
  unfold quotient.
  destruct (Z.eqb_spec a 0) as [Ea | Ea]; destruct (Z.eqb_spec b 0) as [Eb | Eb].
  - lia.
  - replace (W =? 0)%Z with false by lia. cbn [Math_min].
    destruct (quotient_bounds H b HH ltac:(lia)) as (H0 & _ & Hhi & H1).
    exists (fl (H # Z.to_pos b)). subst a.
    repeat split; try assumption.
    + apply H1. lia.
    + change (inject_Z 0) with 0. lra.
    + right. split; [lia | reflexivity].
  - replace (H =? 0)%Z with false by lia. cbn [Math_min].
    destruct (quotient_bounds W a HW ltac:(lia)) as (H0 & _ & Hhi & H1).
    exists (fl (W # Z.to_pos a)). subst b.
    repeat split; try assumption.
    + apply H1. lia.
    + change (inject_Z 0) with 0. lra.
    + left. split; [lia | reflexivity].
  - cbn [Math_min].
    destruct (quotient_bounds W a HW ltac:(lia)) as (Hp0 & _ & Hphi & Hp1).
    destruct (quotient_bounds H b HH ltac:(lia)) as (Hq0 & _ & Hqhi & Hq1).
    assert (Ha' : 0 < inject_Z a) by (change 0 with (inject_Z 0); rewrite <- Zlt_Qlt; lia).
    assert (Hb' : 0 < inject_Z b) by (change 0 with (inject_Z 0); rewrite <- Zlt_Qlt; lia).
    set (p := fl (W # Z.to_pos a)) in *. set (q := fl (H # Z.to_pos b)) in *.
    destruct (Qle_bool p q) eqn:E.
    + apply Qle_bool_iff in E. exists p.
      repeat split; try assumption.
      * destruct Hout as [Hout | Hout]; [now apply Hp1 | specialize (Hq1 Hout); lra].
      * assert (inject_Z b * p <= inject_Z b * q) by nra. lra.
      * left. split; [lia | reflexivity].
    + assert (E' : q < p).
      { apply Qnot_le_lt. intros Hle. apply Qle_bool_iff in Hle. congruence. }
      exists q.
      repeat split; try assumption.
      * destruct Hout as [Hout | Hout]; [specialize (Hp1 Hout); lra | now apply Hq1].
      * assert (inject_Z a * q <= inject_Z a * p) by nra. lra.
      * right. split; [lia | reflexivity].
Qed.

Lemma round_not_negative (n : Z) (r : Q) :
  (0 <= n)%Z -> 0 <= r -> (0 <= Qfloor (fl (inject_Z n * r) + (1 # 2)))%Z.
Proof.
  intros Hn Hr.
  assert (Hn' : 0 <= inject_Z n) by (change 0 with (inject_Z 0); rewrite <- Zle_Qle; exact Hn).
  assert (Hx : 0 <= inject_Z n * r) by nra.
  assert (Hf : 0 <= fl (inject_Z n * r)).
  { destruct (Qlt_le_dec 0 (inject_Z n * r)) as [Hpos | Hneg].
    - pose proof (fl_error _ Hpos) as [Hlo _]. unfold unit_roundoff in Hlo. nra.
    - now rewrite (fl_zero _ Hneg). }
  change 0%Z with (Qfloor 0). apply Qfloor_resp_le. lra.
Qed.

(** X24 ([calculateDimensions]).  With a positive maximal width and
    height below [2^50], the size computed for an image fits the maximal
    size and is in neither direction larger than the image.  An image
    that fits keeps its size; of any other image one side becomes exactly
    its maximum, whatever the roundings of the ratio and of the two
    products. *)
Theorem X24_calculateDimensions_in_box (settings : PluginSettings)
    (originalWidth originalHeight : N) :
  (0 < maxWidth settings < 2 ^ 50)%Z ->
  (0 < maxHeight settings < 2 ^ 50)%Z ->
  (originalWidth < 2 ^ 53)%N ->
  (originalHeight < 2 ^ 53)%N ->
  exists width height : N,
    calculateDimensions settings originalWidth originalHeight
      = Some (Int width, Int height) /\
    (Z.of_N width <= maxWidth settings)%Z /\
    (Z.of_N height <= maxHeight settings)%Z /\
    (width <= originalWidth)%N /\
    (height <= originalHeight)%N /\
    ((Z.of_N originalWidth <= maxWidth settings)%Z ->
     (Z.of_N originalHeight <= maxHeight settings)%Z ->
     width = originalWidth /\ height = originalHeight) /\
    (~ ((Z.of_N originalWidth <= maxWidth settings)%Z
        /\ (Z.of_N originalHeight <= maxHeight settings)%Z) ->
     Z.of_N width = maxWidth settings \/ Z.of_N height = maxHeight settings).
Proof.
  intros HW HH Hw Hh. unfold calculateDimensions.
  set (W := maxWidth settings) in *. set (H := maxHeight settings) in *.
  set (a := Z.of_N originalWidth). set (b := Z.of_N originalHeight).
  assert (Ha : (0 <= a < 2 ^ 53)%Z) by (unfold a; lia).
  assert (Hb : (0 <= b < 2 ^ 53)%Z) by (unfold b; lia).
  replace ((0 <=? W)%Z && (W <? 2 ^ 53)%Z) with true by lia.
  replace ((0 <=? H)%Z && (H <? 2 ^ 53)%Z) with true by lia.
  replace ((0 <=? a)%Z && (a <? 2 ^ 53)%Z) with true by lia.
  replace ((0 <=? b)%Z && (b <? 2 ^ 53)%Z) with true by lia.
  cbn [andb].
  destruct ((a <=? W)%Z && (b <=? H)%Z) eqn:Efit.
  - exists originalWidth, originalHeight. fold a b.
    repeat split; try lia.
  - assert (Hout : (W < a \/ H < b)%Z) by lia.
    destruct (ratio_bounds W H a b) as (r & -> & Hr0 & Hr1 & HrW & HrH & Hside);
      [lia | lia | lia | lia | exact Hout | ].
    cbn [product Math_round].
    pose proof (round_not_negative a r ltac:(lia) Hr0) as Hw0.
    pose proof (round_not_negative b r ltac:(lia) Hr0) as Hh0.
    pose proof (round_at_most a W r ltac:(lia) HrW) as HwW.
    pose proof (round_at_most b H r ltac:(lia) HrH) as HhH.
    assert (Hwa : (Qfloor (fl (inject_Z a * r) + (1 # 2)) <= a)%Z).
    { destruct (Z_lt_le_dec W a) as [Hlt | Hle]; [lia | ].
      apply round_at_most; [lia | ].
      assert (0 <= inject_Z a) by (change 0 with (inject_Z 0); rewrite <- Zle_Qle; lia).
      unfold unit_roundoff in *. nra. }
    assert (Hhb : (Qfloor (fl (inject_Z b * r) + (1 # 2)) <= b)%Z).
    { destruct (Z_lt_le_dec H b) as [Hlt | Hle]; [lia | ].
      apply round_at_most; [lia | ].
      assert (0 <= inject_Z b) by (change 0 with (inject_Z 0); rewrite <- Zle_Qle; lia).
      unfold unit_roundoff in *. nra. }
    eexists _, _. split; [reflexivity | ].
    rewrite !Z2N.id by assumption.
    split; [exact HwW | ]. split; [exact HhH | ].
    split; [apply N2Z.inj_le; rewrite Z2N.id by assumption; exact Hwa | ].
    split; [apply N2Z.inj_le; rewrite Z2N.id by assumption; exact Hhb | ].
    split; [lia | ].
    intros _.
    destruct Hside as [[Ha0 ->] | [Hb0 ->]].
    + left. apply round_exact; lia.
    + right. apply round_exact; lia.
Qed.

Lemma X24_witness :
  exists width height : N,
    calculateDimensions DEFAULT_SETTINGS 4000 3000 = Some (Int width, Int height) /\
    (Z.of_N width <= 1920)%Z /\
    (Z.of_N height <= 1080)%Z /\
    (width <= 4000)%N /\
    (height <= 3000)%N /\
    ((4000 <= 1920)%Z -> (3000 <= 1080)%Z -> width = 4000%N /\ height = 3000%N) /\
    (~ ((4000 <= 1920)%Z /\ (3000 <= 1080)%Z) ->
     Z.of_N width = 1920%Z \/ Z.of_N height = 1080%Z).
Proof.
  apply (X24_calculateDimensions_in_box DEFAULT_SETTINGS 4000 3000); cbn; lia.
Defined.

(** A long, flat image is left without height: 10000 by 1 becomes 1920
    by 0. *)
Example calculateDimensions_flat :
  calculateDimensions DEFAULT_SETTINGS 10000 1 = Some (Int 1920, Int 0).
Proof. vm_compute. reflexivity. Qed.

Example calculateDimensions_photo :
  calculateDimensions DEFAULT_SETTINGS 4000 3000 = Some (Int 1440, Int 1080).
Proof. vm_compute. reflexivity. Qed.

(** [fl] on one tenth: the double [0x1.999999999999ap-4]. *)
Example fl_tenth : fl (1 # 10) == 7205759403792794 # 72057594037927936.
Proof. vm_compute. reflexivity. Qed.

End Dimensions.
